(** * node-split: splitting a buffer by lines or bytes, and naming the pieces

    A shallow embedding of [src/index.js] and the properties of its
    splitter, option validator, filename generator and non-blocking
    orchestrator.  The first part holds the definitions, in the order of
    the source file; the second part the lemmas and theorems. *)

From Stdlib Require Import ZArith String Ascii List Lia Bool.
From Stdlib Require Import DecimalString DecimalPos.
From stdpp Require Import base option list gmap strings.

Open Scope Z_scope.

(** ** Buffers

    A Node.js [Buffer] is a sequence of bytes.  Indices and lengths are
    JavaScript numbers; every index the program computes is an integer, so
    they are modelled in [Z]. *)

Abbreviation Buffer := (list Byte.byte).

Module Buf.

Definition length (b : Buffer) : Z := Z.of_nat (List.length b).

(** Index normalisation of [Buffer.prototype.slice]: a negative index
    counts from the end, and the result is clamped to [0, len]. *)
Definition relative (len i : Z) : Z :=
  if i <? 0 then Z.max (len + i) 0 else Z.min i len.

(** [buffer.slice(start, end)] *)
Definition slice (b : Buffer) (start stop : Z) : Buffer :=
  let s := relative (length b) start in
  let e := relative (length b) stop in
  take (Z.to_nat (e - s)) (drop (Z.to_nat s) b).

(** [buffer.slice(start)] *)
Definition slice_from (b : Buffer) (start : Z) : Buffer :=
  slice b start (length b).

(** [buffer[index]]: [None] stands for [undefined]. *)
Definition get (b : Buffer) (index : Z) : option Byte.byte :=
  if index <? 0 then None else b !! Z.to_nat index.

End Buf.

(** ** The splitter *)

(** ['\n'.charCodeAt(0)] *)
Definition LF : Byte.byte := Byte.x0a.

Definition is_LF (x : option Byte.byte) : bool :=
  match x with
  | Some c => Byte.eqb c LF
  | None => false
  end.

(** The body of the [for (;;)] loop of [splitByLines]; one unit of fuel is
    spent per iteration and [None] means that the fuel ran out. *)
Fixpoint splitByLines_loop (fuel : nat) (buffer : Buffer) (lines : Z)
    (begin index lineCount : Z) (splitted : list Buffer)
    : option (list Buffer) :=
  match fuel with
  | O => None
  | S fuel =>
      if begin =? Buf.length buffer then Some splitted
      else if Buf.length buffer <? index then
        Some (splitted ++ [Buf.slice_from buffer begin])
      else if is_LF (Buf.get buffer index) then
        if lineCount =? lines then
          splitByLines_loop fuel buffer lines (index + 1) (index + 1) 1
            (splitted ++ [Buf.slice buffer begin (index + 1)])
        else
          splitByLines_loop fuel buffer lines begin (index + 1)
            (lineCount + 1) splitted
      else
        splitByLines_loop fuel buffer lines begin (index + 1) lineCount
          splitted
  end.

(** [index] runs from 0 to [buffer.length + 1] at most. *)
Definition splitByLines (buffer : Buffer) (lines : Z) : option (list Buffer) :=
  splitByLines_loop (List.length buffer + 2) buffer lines 0 0 1 [].

(** The loop of [splitByBytes]; with [size <= 0] and a non-empty buffer
    the source never leaves it, which the model shows as [None]. *)
Fixpoint splitByBytes_loop (fuel : nat) (buffer : Buffer) (size : Z)
    (begin stop : Z) (splitted : list Buffer) : option (list Buffer) :=
  match fuel with
  | O => None
  | S fuel =>
      if begin =? Buf.length buffer then Some splitted
      else if Buf.length buffer <? stop then
        Some (splitted ++ [Buf.slice_from buffer begin])
      else
        splitByBytes_loop fuel buffer size stop (stop + size)
          (splitted ++ [Buf.slice buffer begin stop])
  end.

Definition splitByBytes (buffer : Buffer) (size : Z) : option (list Buffer) :=
  splitByBytes_loop (List.length buffer + 1) buffer size 0 size [].

(** [lines.map(f).reduce((acc, line) => acc.push.apply(acc, line), [])]
    for a callback [f] that may not return. *)
Fixpoint flat_map_opt {A B} (f : A → option (list B)) (l : list A)
    : option (list B) :=
  match l with
  | [] => Some []
  | x :: l =>
      match f x, flat_map_opt f l with
      | Some y, Some ys => Some (y ++ ys)
      | _, _ => None
      end
  end.

(** The third branch of [_split]. *)
Definition splitByLineBytes (buffer : Buffer) (line_bytes : Z)
    : option (list Buffer) :=
  match splitByLines buffer 1 with
  | Some lines => flat_map_opt (fun line => splitByBytes line line_bytes) lines
  | None => None
  end.

(** ** JavaScript numbers

    The numbers of this program are counts, sizes and indices.  The model
    keeps the integer-valued doubles and [NaN]; fractions and the
    infinities are left out (an infinity fails every range check the way an
    integer beyond the safe range does).  On integers [Math.floor] is the
    identity. *)

Inductive number :=
| NaN
| Int (z : Z).

(** Rounding of an exact integer result to the nearest double, ties to
    even: every integer below [2^53] in magnitude is a double, above that
    only multiples of [2^(log2 |z| - 52)] are. *)
Definition round_to_double (z : Z) : Z :=
  let a := Z.abs z in
  if a <? 2 ^ 53 then z
  else
    let e := Z.log2 a - 52 in
    let q := a / 2 ^ e in
    let r := a mod 2 ^ e in
    let half := 2 ^ (e - 1) in
    let q' := if (half <? r) || ((half =? r) && Z.odd q) then q + 1 else q in
    Z.sgn z * (q' * 2 ^ e).

Module Num.

Definition add (a b : number) : number :=
  match a, b with
  | Int x, Int y => Int (round_to_double (x + y))
  | _, _ => NaN
  end.

Definition sub (a b : number) : number :=
  match a, b with
  | Int x, Int y => Int (round_to_double (x - y))
  | _, _ => NaN
  end.

Definition mul (a b : number) : number :=
  match a, b with
  | Int x, Int y => Int (round_to_double (x * y))
  | _, _ => NaN
  end.

Definition neg (a : number) : number :=
  match a with
  | Int x => Int (- x)
  | NaN => NaN
  end.

(** Comparisons with [NaN] are false. *)
Definition lt (a b : number) : bool :=
  match a, b with
  | Int x, Int y => x <? y
  | _, _ => false
  end.

Definition le (a b : number) : bool :=
  match a, b with
  | Int x, Int y => x <=? y
  | _, _ => false
  end.

(** [Math.max] *)
Definition max (a b : number) : number :=
  match a, b with
  | Int x, Int y => Int (Z.max x y)
  | _, _ => NaN
  end.

Definition MAX_SAFE_INTEGER : Z := 9007199254740991.
Definition MIN_SAFE_INTEGER : Z := -9007199254740991.

End Num.

(** ** Values, objects and the store

    An options object maps property names to primitive values.  Objects
    live in a store and are passed by reference, so that an assignment to a
    property is visible through every reference to the object. *)

Inductive prim :=
| Undefined
| Null
| Bool (b : bool)
| Number (n : number)
| Str (s : string).

Abbreviation loc := positive.

Inductive value :=
| Prim (p : prim)
| Ref (l : loc).

Abbreviation object := (gmap string prim).
Abbreviation heap := (gmap loc (gmap string prim)).

(** The conversions between strings and numbers are the language's, not
    the program's.  The model computes them where this program relies on
    them (see [ToNumber] and [ToString] below) and is parametric in the
    rest: [StringToNumber] is the value of a numeric literal that is not a
    plain string of digits (one with a sign, a fraction, an exponent, a
    radix prefix, white space, or [Infinity]), taken to be an integer or
    [NaN]; [NumberToString] is the numeral of an integer beyond the safe
    range, which the language prints with the shortest digits that
    identify the double. *)
Class Coercions := {
  StringToNumber : string → number;
  NumberToString : Z → string;
}.

Inductive Error :=
| PlainError (message : string)
| TypeError (message : string)
| RangeError (message : string)
| SystemError (code : string).

(** ** Computations on the store

    A call returns, throws, or does not come back. *)

Inductive outcome (A : Type) :=
| Return (a : A)
| Throw (e : Error)
| Diverge.
Arguments Return {A} a.
Arguments Throw {A} e.
Arguments Diverge {A}.

Definition M (A : Type) : Type := heap → outcome A * heap.

#[global] Instance M_ret : MRet M := fun A a h => (Return a, h).

#[global] Instance M_bind : MBind M := fun A B f m h =>
  match m h with
  | (Return a, h') => f a h'
  | (Throw e, h') => (Throw e, h')
  | (Diverge, h') => (Diverge, h')
  end.

Definition throw {A} (e : Error) : M A := fun h => (Throw e, h).

(** A loop that ran out of fuel. *)
Definition terminates {A} (r : option A) : M A :=
  fun h => match r with Some a => (Return a, h) | None => (Diverge, h) end.

(** [try { m } catch (err) { ... }]: the exception becomes a value. *)
Definition catch {A} (m : M A) : M (Error + A) := fun h =>
  match m h with
  | (Return a, h') => (Return (inr a), h')
  | (Throw e, h') => (Return (inl e), h')
  | (Diverge, h') => (Diverge, h')
  end.

(** [{}] *)
Definition new_object : M loc := fun h =>
  let l := fresh (dom h) in (Return l, <[l := ∅]> h).

(** [object[property]] *)
Definition get_property (object : loc) (property : string) : M prim := fun h =>
  (Return (default Undefined (h !! object ≫= (.!! property))), h).

(** [object[property] = v] *)
Definition set_property (object : loc) (property : string) (v : prim) : M unit :=
  fun h => (Return tt, alter <[property := v]> object h).

Definition defined (v : option prim) : bool :=
  match v with
  | None | Some Undefined | Some Null => false
  | Some _ => true
  end.

(** [property in object && object[property] !== undefined
     && object[property] !== null] *)
Definition isDefined (property : string) (object : loc) : M bool := fun h =>
  (Return (defined (h !! object ≫= (.!! property))), h).

(** ** The size pattern [/^(\d+)(KB|MB|K|M)$/i]

    Strings are sequences of characters with codes below 256.  Without
    the [u] flag, [/i] identifies a character with its upper-case form,
    and no character other than the two cases of a letter is identified
    with an ASCII letter. *)

Definition is_digit (c : ascii) : bool :=
  (48 <=? nat_of_ascii c)%nat && (nat_of_ascii c <=? 57)%nat.

Definition upper_ascii (c : ascii) : ascii :=
  if (97 <=? nat_of_ascii c)%nat && (nat_of_ascii c <=? 122)%nat
  then ascii_of_nat (nat_of_ascii c - 32)
  else c.

Fixpoint upper (s : string) : string :=
  match s with
  | EmptyString => EmptyString
  | String c s => String (upper_ascii c) (upper s)
  end.

(** The longest prefix of digits, and what follows it. *)
Fixpoint span_digits (s : string) : string * string :=
  match s with
  | EmptyString => (EmptyString, EmptyString)
  | String c s' =>
      if is_digit c
      then let (d, rest) := span_digits s' in (String c d, rest)
      else (EmptyString, s)
  end.

(** [exec]: the two capture groups, or [None] for [null].  The units
    hold no digit, so [\d+] takes every leading digit. *)
Definition size_pattern_exec (s : string) : option (string * string) :=
  let (digits, unit) := span_digits s in
  if negb (String.eqb digits EmptyString)
     && existsb (String.eqb (upper unit)) ["KB"; "MB"; "K"; "M"]
  then Some (digits, unit)
  else None.

(** The [switch] on the second capture group; [None] is the
    [undefined] of falling out of it. *)
Definition unit_of (x : string) : option Z :=
  if String.eqb x "k" || String.eqb x "K" then Some 1024
  else if String.eqb x "m" || String.eqb x "M" then Some 1048576
  else if String.eqb x "kb" || String.eqb x "KB" then Some 1000
  else if String.eqb x "mb" || String.eqb x "MB" then Some 1000000
  else None.

Definition unit_value (unit : option Z) : prim :=
  match unit with
  | Some n => Number (Int n)
  | None => Undefined
  end.

(** ** Numeric literals

    A string converts to a number when it is a numeric literal.  Every
    character of a literal is a digit, a sign, a point, white space, or a
    letter of an exponent, of a radix prefix, of a hexadecimal digit or of
    [Infinity]; a string with any other character converts to [NaN]. *)

Definition is_white_space (c : ascii) : bool :=
  existsb (Nat.eqb (nat_of_ascii c)) [9; 10; 11; 12; 13; 32; 160]%nat.

Definition literal_letters : string := "+-.eEInfityxXoObBaAcCdDfF".

Definition is_literal_char (c : ascii) : bool :=
  is_digit c || is_white_space c
  || existsb (Ascii.eqb c) (list_ascii_of_string literal_letters).

Fixpoint all_literal_chars (s : string) : bool :=
  match s with
  | EmptyString => true
  | String c s => is_literal_char c && all_literal_chars s
  end.

Definition digit_value (c : ascii) : Z := Z.of_nat (nat_of_ascii c) - 48.

Fixpoint decimal_from (acc : Z) (s : string) : Z :=
  match s with
  | EmptyString => acc
  | String c s => decimal_from (10 * acc + digit_value c) s
  end.

(** The number a string of digits denotes. *)
Definition decimal (s : string) : Z := decimal_from 0 s.

Fixpoint all_digits (s : string) : bool :=
  match s with
  | EmptyString => true
  | String c s => is_digit c && all_digits s
  end.

(** ** [getSuffixLength]

    [for (; length = Math.floor(length / symbolLength); ++count) {}]:
    the condition assigns the quotient and tests it for zero.  For the
    non-negative integers below [2^53] that reach it the rounded
    quotient of the doubles has the floor [length / symbolLength].  The
    callers pass the radix 10 or 26; with a radix of 1 the loop does not
    end, and the fuel runs out. *)

Fixpoint getSuffixLength_loop (fuel : nat) (length symbolLength count : Z)
    : option Z :=
  match fuel with
  | O => None
  | S fuel =>
      let length := length / symbolLength in
      if length =? 0 then Some count
      else getSuffixLength_loop fuel length symbolLength (count + 1)
  end.

Definition getSuffixLength (length symbolLength : Z) : option Z :=
  getSuffixLength_loop (Z.to_nat length + 1) length symbolLength 0.

(** ** [replicate] and the string methods *)

(** [new Array(length)] throws unless [length] is an integer in
    [0, 2^32 - 1]. *)
Definition replicate (length : number) (value : string) : M (list string) :=
  match length with
  | Int n =>
      if (0 <=? n) && (n <? 2 ^ 32) then mret (repeat value (Z.to_nat n))
      else throw (RangeError "Invalid array length")
  | NaN => throw (RangeError "Invalid array length")
  end.

(** [array.join('')] *)
Definition join (array : list string) : string := String.concat EmptyString array.

(** [string.slice(start)]; a [NaN] start counts as 0. *)
Definition String_slice (s : string) (start : number) : string :=
  let len := Z.of_nat (String.length s) in
  let start := match start with Int z => z | NaN => 0 end in
  let from := if start <? 0 then Z.max (len + start) 0 else Z.min start len in
  String.substring (Z.to_nat from) (Z.to_nat (len - from)) s.

Definition alphabet : string := "abcdefghijklmnopqrstuvwxyz".

(** [alphabet.length] *)
Definition alphabet_length : Z := Z.of_nat (String.length alphabet).

(** [alphabet[index]] as a one-character string. *)
Definition alphabet_at (index : Z) : string :=
  match String.get (Z.to_nat index) alphabet with
  | Some c => String c EmptyString
  | None => EmptyString
  end.

(** [for (var n = i; n > 0; n = Math.floor(n / alphabet.length))
      suffix.push(alphabet[n % alphabet.length])] *)
Fixpoint suffix_loop (fuel : nat) (n : Z) (suffix : list string)
    : option (list string) :=
  match fuel with
  | O => None
  | S fuel =>
      if 0 <? n then
        suffix_loop fuel (n / alphabet_length)
          (suffix ++ [alphabet_at (n mod alphabet_length)])
      else Some suffix
  end.

Definition alphabetic_suffix (i : Z) : option string :=
  suffix ← suffix_loop (Z.to_nat i + 1) i [];
  Some (join (rev suffix)).

(** ** Notifications

    What the caller's callback receives. *)
Inductive notification :=
| Success (splitted : list Buffer)
| Failure (err : Error).

(** What [split] has handed to the event loop when it returns: one
    deferred call of the callback, or one [fs.writeFile] per piece. *)
Inductive scheduled :=
| NextTick (n : notification)
| WriteFiles (requests : list (string * Buffer)) (splitted : list Buffer).

(** [fs.writeFile(path, ...)] checks its arguments before it hands the
    write to the event loop: for a path that holds a NUL character it
    throws, in the call, the [TypeError] with the code
    [ERR_INVALID_ARG_VALUE], whose message goes on with the path
    received.  The other arguments of the calls made here (a string for
    the path, a buffer, an options object and a function) pass the
    check. *)
Definition NUL : ascii := zero.

Fixpoint valid_path (path : string) : bool :=
  match path with
  | EmptyString => true
  | String c path => negb (Ascii.eqb c NUL) && valid_path path
  end.

Definition ERR_INVALID_ARG_VALUE : Error :=
  TypeError
    "The argument 'path' must be a string, Uint8Array, or URL without null bytes.".

(** [splitted.forEach((buf, index) => fs.writeFile(filenames[index], ...))]:
    the writes are issued in order.  The calls are made outside the
    [try] blocks of [split], so that one that throws ends [split]; the
    writes issued before it stay with the event loop. *)
Fixpoint writeFiles (requests : list (string * Buffer)) : M unit :=
  match requests with
  | [] => mret tt
  | (path, _) :: requests =>
      if valid_path path then writeFiles requests
      else throw ERR_INVALID_ARG_VALUE
  end.

(** [splitted.forEach((buf, index) => fs.writeFileSync(...))]: the writes
    are made in order and the first that fails throws.  [results] holds
    the result of each write ([None] for a write that succeeded, as is one
    without an entry); the error for a path that holds a NUL character is
    one of the errors a result can hold. *)
Fixpoint writeFilesSync (requests : list (string * Buffer))
    (results : list (option Error)) : M unit :=
  match requests, results with
  | [], _ => mret tt
  | _ :: _, Some err :: _ => throw err
  | _ :: requests, None :: results => writeFilesSync requests results
  | _ :: requests, [] => writeFilesSync requests []
  end.

(** ** The program *)

Section program.
Context `{Coercions}.

(** A non-empty string of digits denotes its decimal value, rounded to a
    double. *)
Definition ToNumber (v : prim) : number :=
  match v with
  | Undefined => NaN
  | Null => Int 0
  | Bool b => Int (if b then 1 else 0)
  | Number n => n
  | Str s =>
      if negb (all_literal_chars s) then NaN
      else if negb (String.eqb s EmptyString) && all_digits s
      then Int (round_to_double (decimal s))
      else StringToNumber s
  end.

(** An integer in the safe range prints as its decimal numeral. *)
Definition ToString (v : prim) : string :=
  match v with
  | Undefined => "undefined"
  | Null => "null"
  | Bool b => if b then "true" else "false"
  | Number NaN => "NaN"
  | Number (Int z) =>
      if Z.abs z <? 2 ^ 53 then NilZero.string_of_int (Z.to_int z)
      else NumberToString z
  | Str s => s
  end.

Definition isNaN (v : prim) : bool :=
  match ToNumber v with
  | NaN => true
  | Int _ => false
  end.

Definition Math_floor (v : prim) : number := ToNumber v.

Definition isSafe (v : prim) : bool :=
  Num.le (Int Num.MIN_SAFE_INTEGER) (ToNumber v)
  && Num.le (ToNumber v) (Int Num.MAX_SAFE_INTEGER).

(** [v < n] for a number [n]. *)
Definition less (v : prim) (n : Z) : bool := Num.lt (ToNumber v) (Int n).

(** *** [checkOptions] *)

Definition invalid_bytes : Error := PlainError "Invalid number of bytes".

Definition checkOptions (_options : value) : M loc :=
  options ← new_object;
  match _options with
  | Prim _ => throw (TypeError "Options must be an object")
  | Ref _options =>
      byLines ← isDefined "lines" _options;
      byBytes ← isDefined "bytes" _options;
      byLineBytes ← isDefined "line_bytes" _options;
      if (byLines && byBytes) || (byBytes && byLineBytes)
         || (byLines && byLineBytes)
      then throw (PlainError "Cannot split in more than one way")
      else if negb byLines && negb byBytes && negb byLineBytes
      then throw (PlainError "Splitting way is not specified")
      else
        (if byLines then
           lines ← get_property _options "lines";
           if isNaN lines || negb (isSafe lines) || less lines 1
           then throw (PlainError "Invalid number of lines")
           else set_property options "lines" (Number (Math_floor lines))
         else mret tt);;
        (if byBytes || byLineBytes then
           let key : string := if byBytes then "bytes" else "line_bytes" in
           size ← get_property _options key;
           if isNaN size then
             match size_pattern_exec (ToString size) with
             | None => throw invalid_bytes
             | Some (digits, unit) =>
                 let unit := unit_value (unit_of unit) in
                 let bytes := Num.mul (ToNumber (Str digits)) (ToNumber unit) in
                 if negb (isSafe (Number bytes)) then throw invalid_bytes
                 else set_property options key (Number bytes)
             end
           else
             if negb (isSafe size) || less size 1 then throw invalid_bytes
             else set_property options key (Number (Math_floor size))
         else mret tt);;
        has_prefix ← isDefined "prefix" _options;
        (if (has_prefix : bool) then
           prefix ← get_property _options "prefix";
           set_property options "prefix" (Str (EmptyString +:+ ToString prefix));;
           has_length ← isDefined "suffix_length" _options;
           (if (has_length : bool) then
              suffix_length ← get_property _options "suffix_length";
              if negb (isSafe suffix_length) || less suffix_length 1
              then throw (PlainError "Invalid suffix length")
              else set_property options "suffix_length"
                     (Number (Math_floor suffix_length))
            else mret tt);;
           numeric ← isDefined "numeric_suffixes" _options;
           (if (numeric : bool) then
              start ← get_property _options "numeric_suffixes";
              if negb (isSafe start) || less start 0
              then throw (PlainError EmptyString)
              else set_property options "numeric_suffixes"
                     (Number (Math_floor start))
            else mret tt);;
           has_additional ← isDefined "additional_suffix" _options;
           if (has_additional : bool) then
             additional ← get_property _options "additional_suffix";
             set_property options "additional_suffix"
               (Str (ToString additional +:+ EmptyString))
           else set_property options "additional_suffix" (Str EmptyString)
         else mret tt);;
        mret options
  end.

(** *** [createFilenames]

    The record read here was filled in by [checkOptions]:
    [numeric_suffixes] and [suffix_length] hold numbers, so [+] on them
    adds; [prefix] and [additional_suffix] are joined as strings. *)

Definition createFilenames (size : Z) (options : loc) : M (list string) :=
  numeric ← isDefined "numeric_suffixes" options;
  if (numeric : bool) then
    start ← get_property options "numeric_suffixes";
    if negb (isSafe (Number
               (Num.sub (Num.add (ToNumber start) (Int size)) (Int 1))))
    then throw (PlainError EmptyString)
    else
      has_length ← isDefined "suffix_length" options;
      (if (has_length : bool) then
         suffix_length ← get_property options "suffix_length";
         needed ← terminates (getSuffixLength size 10);
         if less suffix_length needed then throw (PlainError EmptyString)
         else mret tt
       else
         needed ← terminates (getSuffixLength size 10);
         set_property options "suffix_length"
           (Number (Num.max (Int needed) (Int 2))));;
      suffix_length ← get_property options "suffix_length";
      zeros ← replicate (ToNumber suffix_length) "0";
      let padding := join zeros in
      prefix ← get_property options "prefix";
      additional_suffix ← get_property options "additional_suffix";
      mret (map (fun i =>
                   ToString prefix
                   +:+ String_slice
                         (padding
                          +:+ ToString
                                (Number (Num.add (ToNumber start) (Int i))))
                         (Num.neg (ToNumber suffix_length))
                   +:+ ToString additional_suffix)
              (seqZ 0 size))
  else
    has_length ← isDefined "suffix_length" options;
    (if (has_length : bool) then
       suffix_length ← get_property options "suffix_length";
       needed ← terminates (getSuffixLength size alphabet_length);
       if less suffix_length needed
       then throw (PlainError "output file suffixes exhausted")
       else mret tt
     else
       needed ← terminates (getSuffixLength size alphabet_length);
       set_property options "suffix_length"
         (Number (Num.max (Int needed) (Int 2))));;
    suffix_length ← get_property options "suffix_length";
    letters ← replicate (ToNumber suffix_length) "a";
    let padding := join letters in
    prefix ← get_property options "prefix";
    additional_suffix ← get_property options "additional_suffix";
    suffixes ← terminates (mapM alphabetic_suffix (seqZ 0 size));
    mret (map (fun suffix =>
                 ToString prefix
                 +:+ String_slice (padding +:+ suffix)
                       (Num.neg (ToNumber suffix_length))
                 +:+ ToString additional_suffix)
            suffixes).

(** *** [_split] *)

(** A count read from the record; [checkOptions] stores integers. *)
Definition count_of (v : prim) : Z :=
  match v with
  | Number (Int n) => n
  | _ => 0
  end.

Definition _split (buffer : Buffer) (options : loc) : M (list Buffer) :=
  byLines ← isDefined "lines" options;
  if (byLines : bool) then
    lines ← get_property options "lines";
    terminates (splitByLines buffer (count_of lines))
  else
    byBytes ← isDefined "bytes" options;
    if (byBytes : bool) then
      bytes ← get_property options "bytes";
      terminates (splitByBytes buffer (count_of bytes))
    else
      line_bytes ← get_property options "line_bytes";
      terminates (splitByLineBytes buffer (count_of line_bytes)).

(** *** [split]

    The synchronous part of [module.exports.split]: what it has
    scheduled when it returns.  The callback is the caller's; the model
    records the calls that are made to it.  The errors of validation,
    of the splitter and of the naming are caught and handed to the
    callback; an error thrown by [fs.writeFile] is not. *)

Definition split (buffer : Buffer) (options : value) : M scheduled :=
  checked ← catch (options ← checkOptions options;
                   splitted ← _split buffer options;
                   mret (options, splitted));
  match checked with
  | inl err => mret (NextTick (Failure err))
  | inr (options, splitted) =>
      has_prefix ← isDefined "prefix" options;
      if (has_prefix : bool) then
        named ← catch (createFilenames (Z.of_nat (List.length splitted)) options);
        match named with
        | inl err => mret (NextTick (Failure err))
        | inr filenames =>
            writeFiles (zip filenames splitted);;
            mret (WriteFiles (zip filenames splitted) splitted)
        end
      else mret (NextTick (Success splitted))
  end.

(** *** [splitSync]

    [createFilenames] is called whether or not there is a prefix. *)

Definition splitSync (buffer : Buffer) (options : value)
    (results : list (option Error)) : M (list Buffer) :=
  options ← checkOptions options;
  splitted ← _split buffer options;
  filenames ← createFilenames (Z.of_nat (List.length splitted)) options;
  has_prefix ← isDefined "prefix" options;
  (if (has_prefix : bool) then writeFilesSync (zip filenames splitted) results
   else mret tt);;
  mret splitted.

End program.

(** ** The write callbacks *)

(** The variables [done] and [errored] shared by the write callbacks. *)
Record counters := { done : Z; errored : bool }.

(** The callback given to [fs.writeFile], run with the write's result
    ([None] for a write that succeeded); it returns the calls of the
    caller's callback it makes. *)
Definition on_written (splitted : list Buffer) (err : option Error)
    (c : counters) : counters * list notification :=
  match err with
  | Some err => ({| done := done c; errored := true |}, [Failure err])
  | None =>
      let done := done c + 1 in
      ({| done := done; errored := errored c |},
       if negb (errored c) && (done =? Z.of_nat (List.length splitted))
       then [Success splitted] else [])
  end.

(** The writes complete in some order, each with its result. *)
Fixpoint deliver (splitted : list Buffer) (completions : list (option Error))
    (c : counters) : list notification :=
  match completions with
  | [] => []
  | err :: completions =>
      let (c, calls) := on_written splitted err c in
      calls ++ deliver splitted completions c
  end.

Definition notifications (s : scheduled) (completions : list (option Error))
    : list notification :=
  match s with
  | NextTick n => [n]
  | WriteFiles _ splitted =>
      deliver splitted completions {| done := 0; errored := false |}
  end.

(** ** Notions used in the statements *)

Definition lower_ascii (c : ascii) : ascii :=
  if (65 <=? nat_of_ascii c)%nat && (nat_of_ascii c <=? 90)%nat
  then ascii_of_nat (nat_of_ascii c + 32)
  else c.

Fixpoint lower (s : string) : string :=
  match s with
  | EmptyString => EmptyString
  | String c s => String (lower_ascii c) (lower s)
  end.

(** The units of a size string and their multipliers. *)
Definition size_units : list (string * Z) :=
  [("K", 1024); ("M", 1048576); ("KB", 1000); ("MB", 1000000)].

(** An options object that defines [key] and nothing else. *)
Definition sole_option (key : string) (o : gmap string prim) : Prop :=
  ∀ k, k ≠ key → defined (o !! k) = false.

(** [key] is the one way of splitting that the options define. *)
Definition only_mode (key : string) (o : gmap string prim) : Prop :=
  ∀ k, k ∈ ["lines"; "bytes"; "line_bytes"] → k ≠ key →
       defined (o !! k) = false.

(** An option that is not defined, or converts to a safe integer of at
    least [least]. *)
Definition in_range `{Coercions} (v : option prim) (least : Z) : Prop :=
  defined v = false ∨
  ∃ n, ToNumber (default Undefined v) = Int n ∧
       least ≤ n ≤ Num.MAX_SAFE_INTEGER.

(** The options that name the files pass validation: there is no
    [prefix], or [suffix_length] and [numeric_suffixes] are in range. *)
Definition naming_valid `{Coercions} (o : gmap string prim) : Prop :=
  defined (o !! "prefix") = true →
  in_range (o !! "suffix_length") 1 ∧ in_range (o !! "numeric_suffixes") 0.

(** Validation of the options [o] at [l] accepts [count] for [key]: it
    returns when the naming options are valid, a record it returns holds
    the count, and nothing else when there is no [prefix], and it throws
    no error but those of the naming options. *)
Definition accepts `{Coercions} (l : loc) (h : heap) (o : gmap string prim)
    (key : string) (count : Z) : Prop :=
  (naming_valid o →
   ∃ record h', checkOptions (Ref l) h = (Return record, h')) ∧
  (∀ record h', checkOptions (Ref l) h = (Return record, h') →
     ∃ fields,
       h' !! record = Some fields ∧
       fields !! key = Some (Number (Int count)) ∧
       (defined (o !! "prefix") = false →
        fields = {[ key := Number (Int count) ]})) ∧
  (∀ e, (checkOptions (Ref l) h).1 = Throw e →
     e = PlainError "Invalid suffix length" ∨ e = PlainError EmptyString).

(** The store [h2] differs from [h1] at most in the [suffix_length] of
    [record], and in that only if [record] had none in [h1]. *)
Definition fills_only_suffix_length (record : loc) (h1 h2 : heap) : Prop :=
  (∀ l, l ≠ record → h2 !! l = h1 !! l) ∧
  (∀ k, k ≠ "suffix_length" →
        h2 !! record ≫= (.!! k) = h1 !! record ≫= (.!! k)) ∧
  (defined (h1 !! record ≫= (.!! "suffix_length")) = true → h2 = h1).

(** The three ways of splitting, as the validated record selects them:
    one of the keys [lines], [bytes] and [line_bytes] holds a count and the
    other two are absent. *)
Inductive mode :=
| ByLines (count : Z)
| ByBytes (count : Z)
| ByLineBytes (count : Z).

Definition mode_key (m : mode) : string :=
  match m with
  | ByLines _ => "lines"
  | ByBytes _ => "bytes"
  | ByLineBytes _ => "line_bytes"
  end.

Definition mode_count (m : mode) : Z :=
  match m with
  | ByLines n | ByBytes n | ByLineBytes n => n
  end.

Definition selects (o : gmap string prim) (m : mode) : Prop :=
  o !! mode_key m = Some (Number (Int (mode_count m))) ∧
  ∀ k, k ∈ ["lines"; "bytes"; "line_bytes"] → k ≠ mode_key m → o !! k = None.

Definition nonempty (piece : Buffer) : Prop := piece ≠ [].

(** A piece sequence that covers the buffer in order, without an empty
    piece. *)
Definition partitions (buffer : Buffer) (pieces : list Buffer) : Prop :=
  concat pieces = buffer ∧ Forall nonempty pieces.

(** The shape of a by-bytes result: [len / size] full chunks, followed by
    the remainder when [size] does not divide [len]. *)
Definition chunked (buffer : Buffer) (size : Z) (pieces : list Buffer) : Prop :=
  ∃ full rest,
    pieces = full ++ rest ∧
    Forall (fun p => Buf.length p = size) full ∧
    Z.of_nat (List.length full) = Buf.length buffer / size ∧
    ((Buf.length buffer mod size = 0 ∧ rest = []) ∨
     (Buf.length buffer mod size ≠ 0 ∧
      ∃ r, rest = [r] ∧ Buf.length r = Buf.length buffer mod size)).

(** [ceil (a / b)] *)
Definition ceil_div (a b : Z) : Z := - (- a / b).

Definition is_success (n : notification) : bool :=
  match n with
  | Success _ => true
  | Failure _ => false
  end.

Definition successes (calls : list notification) : nat :=
  List.length (List.filter is_success calls).

Definition failures (calls : list notification) : nat :=
  List.length (List.filter (fun n => negb (is_success n)) calls).

(** The writes that failed among those completed. *)
Definition failed (completions : list (option Error)) : nat :=
  List.length (List.filter (fun err => bool_decide (is_Some err)) completions).

(** The file that the write request number [i] names. *)
Definition written_to (s : outcome scheduled) (i : nat) : option string :=
  match s with
  | Return (WriteFiles requests _) => fst <$> requests !! i
  | _ => None
  end.

(** The number of writes [split] has issued. *)
Definition writes (s : scheduled) : nat :=
  match s with
  | NextTick _ => 0
  | WriteFiles requests _ => List.length requests
  end.

(** ** Notions used in the proofs *)

(** A computation keeps a property of the store, however it ends. *)
Definition keeps {A} (P : heap → Prop) (m : M A) : Prop :=
  ∀ h, P h → P (m h).2.

(** What a computation can return. *)
Definition returns_only {A} (Q : A → Prop) (m : M A) : Prop :=
  ∀ h a, (m h).1 = Return a → Q a.

(** [wp m Q h]: running [m] in [h] ends in an outcome and a store that
    satisfy [Q]. *)
Definition wp {A} (m : M A) (Q : outcome A → heap → Prop) (h : heap) : Prop :=
  Q (m h).1 (m h).2.

(** The heap effect of [createFilenames]: nothing, or the assignment
    to [suffix_length] of a record that has none. *)
Definition fills_suffix_length (options : loc) (h h' : heap) : Prop :=
  h' = h ∨
  (defined (h !! options ≫= (.!! "suffix_length")) = false ∧
   ∃ n, h' = alter <["suffix_length" := Number n]> options h).

(** What symbolic execution shows of a call of [checkOptions] that
    accepts a count: [accepts] on the outcome and the store. *)
Definition accepting `{Coercions} (o : gmap string prim) (key : string)
    (count : Z) (res : outcome loc) (h' : heap) : Prop :=
  (naming_valid o → ∃ record, res = Return record) ∧
  (∀ record, res = Return record →
     ∃ fields,
       h' !! record = Some fields ∧
       fields !! key = Some (Number (Int count)) ∧
       (defined (o !! "prefix") = false →
        fields = {[ key := Number (Int count) ]})) ∧
  (∀ e, res = Throw e →
     e = PlainError "Invalid suffix length" ∨ e = PlainError EmptyString).

(** ** Running the definitions *)

(** An instance to run the definitions with.  The examples hold no
    numeric literal other than plain strings of digits and print no
    integer beyond the safe range, so they do not depend on it. *)
#[global] Instance example_coercions : Coercions := {|
  StringToNumber s := if String.eqb s EmptyString then Int 0 else NaN;
  NumberToString z := NilZero.string_of_int (Z.to_int z);
|}.

(** ** Inputs of the examples *)

(** The caller's options object sits at [caller] in an otherwise empty
    store. *)
Definition caller : loc := 1%positive.

Definition options_heap (properties : list (string * prim)) : heap :=
  {[ caller := list_to_map properties ]}.

Definition EIO : Error := SystemError "EIO".

(** ** Notions used in the further properties *)

(** The number of line feeds in a piece. *)
Definition count_LF (b : Buffer) : Z :=
  Z.of_nat (List.length (List.filter (fun c => Byte.eqb c LF) b)).

(** A line feed, if any, is the last byte. *)
Definition LF_only_last (b : Buffer) : Prop :=
  ∀ i, b !! i = Some LF → S i = List.length b.

(** A piece of [lines] lines that ends in a line feed. *)
Definition full_piece (lines : Z) (p : Buffer) : Prop :=
  count_LF p = lines ∧ last p = Some LF.

(** The keys that select a way of splitting, and those that name the
    files. *)
Definition mode_keys : list string := ["lines"; "bytes"; "line_bytes"].

Definition naming_keys : list string :=
  ["prefix"; "suffix_length"; "numeric_suffixes"; "additional_suffix"].

(** An optional field that holds, if anything, a safe integer not below
    [least]. *)
Definition optional_count (v : option prim) (least : Z) : Prop :=
  v = None ∨
  ∃ n, v = Some (Number (Int n)) ∧ least ≤ n ≤ Num.MAX_SAFE_INTEGER.

(** A record for a call that writes no file. *)
Definition names_no_files (record : gmap string prim) : Prop :=
  ∀ k, k ∈ naming_keys → record !! k = None.

(** A record for a call that writes files. *)
Definition names_files (record : gmap string prim) : Prop :=
  (∃ prefix, record !! "prefix" = Some (Str prefix)) ∧
  (∃ additional, record !! "additional_suffix" = Some (Str additional)) ∧
  optional_count (record !! "suffix_length") 1 ∧
  optional_count (record !! "numeric_suffixes") 0.

(** The names are [prefix], a suffix of [length] characters and
    [additional], one for each of [size] pieces. *)
Definition named_with (prefix additional : string) (length size : Z)
    (names : list string) : Prop :=
  Z.of_nat (List.length names) = size ∧
  ∀ name, name ∈ names →
    ∃ suffix, name = prefix +:+ suffix +:+ additional ∧
              Z.of_nat (String.length suffix) = length.

(** The numeral of [i] in radix 26, with the letters of the alphabet
    for digits, cut to its last [length] digits. *)
Fixpoint word (length : nat) (i : Z) : string :=
  match length with
  | O => EmptyString
  | S length =>
      word length (i / alphabet_length) +:+ alphabet_at (i mod alphabet_length)
  end.

(** The errors of the writes that failed, in the order of completion. *)
Definition errors (completions : list (option Error)) : list Error :=
  omap id completions.

(** The error of the first write that fails among the first [writes]
    results. *)
Definition first_error (writes : nat) (results : list (option Error))
    : option Error :=
  head (errors (take writes results)).

(** The error for a count that is out of range. *)
Definition invalid_count (key : string) : Error :=
  if String.eqb key "lines" then PlainError "Invalid number of lines"
  else PlainError "Invalid number of bytes".

(** A value that does not convert to a safe integer of at least
    [least]. *)
Definition out_of_range `{Coercions} (v : prim) (least : Z) : Prop :=
  match ToNumber v with
  | NaN => True
  | Int n => n < least ∨ Num.MAX_SAFE_INTEGER < n
  end.

(** The lines of a buffer: one for each line feed, and one for the
    bytes after the last line feed, if there are any. *)
Definition line_count (b : Buffer) : Z :=
  count_LF b
  + match last b with
    | Some c => if Byte.eqb c LF then 0 else 1
    | None => 0
    end.

(** [t] is the decimal numeral of [n], cut to its last [length]
    digits. *)
Definition numeral_of (length n : Z) (t : string) : Prop :=
  Z.of_nat (String.length t) = length ∧ all_digits t = true ∧
  decimal t = n mod 10 ^ length.

(** * Lemmas *)

(** ** Facts about slices *)

Section slices.
Implicit Types (b : Buffer) (s e : Z).

Lemma slice_take_drop b s e :
  0 ≤ s → s ≤ e → e ≤ Buf.length b →
  Buf.slice b s e = take (Z.to_nat (e - s)) (drop (Z.to_nat s) b).
Proof.
  intros Hs He Hl. unfold Buf.slice, Buf.relative.
  destruct (Z.ltb_spec s 0), (Z.ltb_spec e 0); try lia.
  rewrite !Z.min_l by lia. reflexivity.
Qed.

Lemma slice_length b s e :
  0 ≤ s → s ≤ e → e ≤ Buf.length b → Buf.length (Buf.slice b s e) = e - s.
Proof.
  intros Hs He Hl. rewrite slice_take_drop by lia.
  unfold Buf.length in *. rewrite length_take, length_drop. lia.
Qed.

Lemma slice_from_drop b s :
  0 ≤ s → s ≤ Buf.length b → Buf.slice_from b s = drop (Z.to_nat s) b.
Proof.
  intros Hs Hl. unfold Buf.slice_from. rewrite slice_take_drop by lia.
  apply take_ge. unfold Buf.length in *. rewrite length_drop. lia.
Qed.

(** Appending the next slice extends the prefix already cut off. *)
Lemma take_app_slice b s e :
  0 ≤ s → s ≤ e → e ≤ Buf.length b →
  take (Z.to_nat s) b ++ Buf.slice b s e = take (Z.to_nat e) b.
Proof.
  intros Hs He Hl. rewrite slice_take_drop by lia.
  replace (Z.to_nat e) with (Z.to_nat s + Z.to_nat (e - s))%nat by lia.
  apply take_take_drop.
Qed.

Lemma take_app_slice_from b s :
  0 ≤ s → s ≤ Buf.length b → take (Z.to_nat s) b ++ Buf.slice_from b s = b.
Proof.
  intros Hs Hl. rewrite slice_from_drop by lia. apply take_drop.
Qed.
End slices.

(** ** The splitter returns, covers the buffer and emits no empty piece *)

Lemma nonempty_length (p : Buffer) : 0 < Buf.length p → nonempty p.
Proof. unfold Buf.length, nonempty. destruct p; simpl; [lia | congruence]. Qed.

Lemma is_LF_in_range buffer index :
  0 ≤ index → is_LF (Buf.get buffer index) = true → index < Buf.length buffer.
Proof.
  intros Hi. unfold Buf.get, Buf.length.
  destruct (Z.ltb_spec index 0); [lia |].
  destruct (buffer !! Z.to_nat index) eqn:E; [| discriminate].
  apply lookup_lt_Some in E. lia.
Qed.

Lemma splitByLines_loop_spec fuel buffer lines :
  ∀ begin index lineCount splitted,
    0 ≤ begin → begin ≤ index → begin ≤ Buf.length buffer →
    index ≤ Buf.length buffer + 1 →
    Buf.length buffer + 2 - index ≤ Z.of_nat fuel →
    concat splitted = take (Z.to_nat begin) buffer →
    Forall nonempty splitted →
    ∃ pieces,
      splitByLines_loop fuel buffer lines begin index lineCount splitted
      = Some pieces ∧ partitions buffer pieces.
Proof.
  induction fuel as [| fuel IH]; intros begin index lineCount splitted
    Hb Hbi Hbl Hil Hfuel Hcat Hne; [lia |].
  simpl.
  destruct (Z.eqb_spec begin (Buf.length buffer)) as [-> | Hneq].
  { eexists; split; [reflexivity |]. split; [| done].
    rewrite Hcat. apply take_ge. unfold Buf.length. lia. }
  destruct (Z.ltb_spec (Buf.length buffer) index) as [Hend | Hin].
  { eexists; split; [reflexivity |]. split.
    - rewrite concat_app, Hcat. simpl. rewrite app_nil_r.
      apply take_app_slice_from; lia.
    - apply Forall_app; split; [done |]. apply Forall_singleton.
      apply nonempty_length. unfold Buf.slice_from.
      rewrite slice_length; lia. }
  destruct (is_LF (Buf.get buffer index)) eqn:Hlf.
  - apply is_LF_in_range in Hlf; [| lia].
    destruct (lineCount =? lines).
    + apply IH; try lia.
      * rewrite concat_app, Hcat. simpl. rewrite app_nil_r.
        apply take_app_slice; lia.
      * apply Forall_app; split; [done |]. apply Forall_singleton.
        apply nonempty_length. rewrite slice_length; lia.
    + apply IH; auto; lia.
  - apply IH; auto; lia.
Qed.

Lemma splitByLines_partitions buffer lines :
  ∃ pieces, splitByLines buffer lines = Some pieces ∧ partitions buffer pieces.
Proof.
  unfold splitByLines. apply splitByLines_loop_spec; try done;
    unfold Buf.length; lia.
Qed.

Lemma splitByBytes_loop_spec fuel buffer size :
  1 ≤ size →
  ∀ begin splitted,
    0 ≤ begin → begin ≤ Buf.length buffer →
    Buf.length buffer - begin < Z.of_nat fuel →
    concat splitted = take (Z.to_nat begin) buffer →
    Forall (fun p => Buf.length p = size) splitted →
    begin = size * Z.of_nat (List.length splitted) →
    ∃ pieces,
      splitByBytes_loop fuel buffer size begin (begin + size) splitted
      = Some pieces ∧
      concat pieces = buffer ∧ chunked buffer size pieces.
Proof.
  intros Hsize.
  induction fuel as [| fuel IH]; intros begin splitted
    Hb Hbl Hfuel Hcat Hfull Hcount; [lia |].
  simpl.
  destruct (Z.eqb_spec begin (Buf.length buffer)) as [Heq | Hneq].
  { eexists; split; [reflexivity |]. split.
    - rewrite Hcat. apply take_ge. unfold Buf.length in *. lia.
    - exists splitted, []. rewrite app_nil_r. repeat split; auto.
      + rewrite <- Heq, Hcount. rewrite Z.mul_comm, Z.div_mul; lia.
      + left. split; [| done].
        rewrite <- Heq, Hcount, Z.mul_comm. apply Z.mod_mul. lia. }
  destruct (Z.ltb_spec (Buf.length buffer) (begin + size)) as [Hend | Hin].
  { assert (Hq : Buf.length buffer / size = Z.of_nat (List.length splitted)).
    { symmetry. apply Z.div_unique with (r := Buf.length buffer - begin);
        [lia | rewrite <- Hcount; ring]. }
    assert (Hr : Buf.length buffer mod size = Buf.length buffer - begin).
    { symmetry.
      apply Z.mod_unique with (q := Z.of_nat (List.length splitted));
        [lia | rewrite <- Hcount; ring]. }
    eexists; split; [reflexivity |]. split.
    - rewrite concat_app, Hcat. simpl. rewrite app_nil_r.
      apply take_app_slice_from; lia.
    - exists splitted, [Buf.slice_from buffer begin]. repeat split; auto.
      right. split; [lia |]. eexists; split; [reflexivity |].
      unfold Buf.slice_from. rewrite slice_length; lia. }
  apply IH; try lia.
  - rewrite concat_app, Hcat. simpl. rewrite app_nil_r.
    apply take_app_slice; lia.
  - apply Forall_app; split; [done |]. apply Forall_singleton.
    rewrite slice_length; lia.
  - rewrite length_app. simpl. lia.
Qed.

Lemma splitByBytes_spec buffer size :
  1 ≤ size →
  ∃ pieces,
    splitByBytes buffer size = Some pieces ∧
    concat pieces = buffer ∧ chunked buffer size pieces.
Proof.
  intros Hsize. unfold splitByBytes.
  apply (splitByBytes_loop_spec _ buffer size Hsize 0 []); try done;
    unfold Buf.length; simpl; lia.
Qed.

Lemma chunked_nonempty buffer size pieces :
  1 ≤ size → chunked buffer size pieces → Forall nonempty pieces.
Proof.
  intros Hsize (full & rest & -> & Hfull & _ & Hrest).
  apply Forall_app; split.
  - eapply Forall_impl; [exact Hfull |]. intros p Hp. simpl in Hp.
    apply nonempty_length. lia.
  - destruct Hrest as [[_ ->] | [Hmod (r & -> & Hr)]]; [done |].
    apply Forall_singleton, nonempty_length.
    pose proof (Z.mod_pos_bound (Buf.length buffer) size). lia.
Qed.

Lemma splitByBytes_partitions buffer size :
  1 ≤ size →
  ∃ pieces, splitByBytes buffer size = Some pieces ∧ partitions buffer pieces.
Proof.
  intros Hsize. destruct (splitByBytes_spec buffer size Hsize)
    as (pieces & Hrun & Hcat & Hshape).
  exists pieces. split; [done |]. split; [done |].
  by eapply chunked_nonempty.
Qed.

Lemma flat_map_opt_partitions (f : Buffer → option (list Buffer)) lines :
  (∀ line, ∃ pieces, f line = Some pieces ∧ partitions line pieces) →
  ∃ pieces,
    flat_map_opt f lines = Some pieces ∧ partitions (concat lines) pieces.
Proof.
  intros Hf. induction lines as [| line lines IH]; simpl.
  - exists []. split; [done |]. split; [done | constructor].
  - destruct (Hf line) as (ps & -> & Hcat & Hne).
    destruct IH as (pss & -> & Hcats & Hnes).
    exists (ps ++ pss). split; [done |]. split.
    + by rewrite concat_app, Hcat, Hcats.
    + by apply Forall_app.
Qed.

Lemma splitByLineBytes_partitions buffer line_bytes :
  1 ≤ line_bytes →
  ∃ pieces,
    splitByLineBytes buffer line_bytes = Some pieces ∧
    partitions buffer pieces.
Proof.
  intros Hsize. unfold splitByLineBytes.
  destruct (splitByLines_partitions buffer 1) as (lines & -> & Hcat & _).
  rewrite <- Hcat. apply flat_map_opt_partitions.
  intros line. by apply splitByBytes_partitions.
Qed.

(** ** Running computations on the store *)

Lemma run_bind {A B} (m : M A) (f : A → M B) (h : heap) :
  (m ≫= f) h =
  match m h with
  | (Return a, h') => f a h'
  | (Throw e, h') => (Throw e, h')
  | (Diverge, h') => (Diverge, h')
  end.
Proof. reflexivity. Qed.

Lemma run_ret {A} (a : A) (h : heap) : mret (M := M) a h = (Return a, h).
Proof. reflexivity. Qed.

Section keeps.
Context {A B : Type} (P : heap → Prop).

Lemma keeps_bind (m : M A) (f : A → M B) :
  keeps P m → (∀ a, keeps P (f a)) → keeps P (m ≫= f).
Proof.
  intros Hm Hf h Hh. rewrite run_bind. specialize (Hm h Hh).
  destruct (m h) as [[a | e |] h']; simpl in *; auto. by apply Hf.
Qed.

Lemma keeps_ret (a : A) : keeps P (mret a).
Proof. by intros h Hh. Qed.

Lemma keeps_throw (e : Error) : keeps P (throw (A := A) e).
Proof. by intros h Hh. Qed.

Lemma keeps_terminates (r : option A) : keeps P (terminates r).
Proof. intros h Hh. by destruct r. Qed.

Lemma keeps_get_property l k : keeps P (get_property l k).
Proof. by intros h Hh. Qed.

Lemma keeps_isDefined k l : keeps P (isDefined k l).
Proof. by intros h Hh. Qed.

Lemma keeps_catch (m : M A) : keeps P m → keeps P (catch m).
Proof.
  intros Hm h Hh. specialize (Hm h Hh). unfold catch.
  by destruct (m h) as [[a | e |] h'].
Qed.

Lemma keeps_replicate n v : keeps P (replicate n v).
Proof.
  intros h Hh. unfold replicate. destruct n; [done |]. by case_match.
Qed.
End keeps.

(** An assignment to a property of one object leaves the others alone. *)
Lemma keeps_set_property (l : loc) (o : gmap string prim) r k v :
  r ≠ l → keeps (fun h => h !! l = Some o) (set_property r k v).
Proof.
  intros Hne h Hh. simpl. by rewrite lookup_alter_ne.
Qed.

Ltac keeps_step :=
  first
    [ apply keeps_ret | apply keeps_throw | apply keeps_terminates
    | apply keeps_get_property | apply keeps_isDefined
    | apply keeps_replicate
    | apply keeps_set_property; assumption
    | apply keeps_catch
    | apply keeps_bind; [| intros ?]
    | match goal with
      | |- keeps _ (if ?b then _ else _) => destruct b
      | |- keeps _ (match ?x with _ => _ end) => destruct x
      | |- keeps _ (let (_, _) := ?x in _) => destruct x
      end ].

Section frame.
Context `{Coercions}.

Lemma checkOptions_body_keeps (l : loc) (o : gmap string prim) v (h : heap) :
  h !! l = Some o → (checkOptions v h).2 !! l = Some o.
Proof.
  intros Hl. unfold checkOptions. rewrite run_bind. simpl.
  set (options := fresh (dom h)).
  assert (Hfresh : options ≠ l).
  { intros Heq. apply (is_fresh (dom h)). fold options. rewrite Heq.
    apply elem_of_dom. eauto. }
  match goal with
  | |- (?m ?h1).2 !! _ = _ =>
      assert (Hk : keeps (fun h => h !! l = Some o) m)
  end.
  { destruct v; repeat keeps_step. }
  apply Hk. by rewrite lookup_insert_ne.
Qed.
End frame.

Lemma returns_only_bind {A B} (Q : B → Prop) (m : M A) (f : A → M B) :
  (∀ a, returns_only Q (f a)) → returns_only Q (m ≫= f).
Proof.
  intros Hf h b. rewrite run_bind.
  destruct (m h) as [[a | e |] h']; simpl; try discriminate. apply Hf.
Qed.

Lemma returns_only_ret {A} (Q : A → Prop) (a : A) :
  Q a → returns_only Q (mret a).
Proof. intros Ha h b [= <-]. exact Ha. Qed.

Lemma returns_only_throw {A} (Q : A → Prop) (e : Error) :
  returns_only Q (throw e).
Proof. intros h b [=]. Qed.

Section frame_results.
Context `{Coercions}.

Lemma checkOptions_returns_fresh v (h : heap) r :
  (checkOptions v h).1 = Return r → r = fresh (dom h).
Proof.
  unfold checkOptions. rewrite run_bind. simpl.
  set (options := fresh (dom h)).
  match goal with
  | |- (?m ?h1).1 = _ → _ =>
      assert (Hr : returns_only (fun r => r = options) m)
  end.
  { destruct v as [p | l]; [apply returns_only_throw |].
    repeat (first
      [ apply returns_only_throw
      | apply returns_only_ret; reflexivity
      | apply returns_only_bind; intros ?
      | match goal with
        | |- returns_only _ (if ?b then _ else _) => destruct b
        end ]). }
  apply Hr.
Qed.

Lemma createFilenames_heap size options (h : heap) :
  fills_suffix_length options h (createFilenames size options h).2.
Proof.
  unfold createFilenames. rewrite run_bind. simpl.
  destruct (defined (h !! options ≫= (.!! "numeric_suffixes"))).
  - rewrite run_bind. simpl. case_match; [by left |].
    rewrite run_bind. simpl.
    destruct (defined (h !! options ≫= (.!! "suffix_length"))) eqn:Hdef.
    + left.
      match goal with
      | |- (?m h).2 = h => assert (Hk : keeps (fun h' => h' = h) m)
      end.
      { repeat keeps_step. }
      by apply Hk.
    + rewrite !run_bind.
      destruct (getSuffixLength size 10) as [needed |]; simpl; [| by left].
      right. split; [done |]. eexists.
      match goal with
      | |- (?m ?h1).2 = _ => assert (Hk : keeps (fun h' => h' = h1) m)
      end.
      { repeat keeps_step. }
      by apply Hk.
  - rewrite run_bind. simpl.
    destruct (defined (h !! options ≫= (.!! "suffix_length"))) eqn:Hdef.
    + left.
      match goal with
      | |- (?m h).2 = h => assert (Hk : keeps (fun h' => h' = h) m)
      end.
      { repeat keeps_step. }
      by apply Hk.
    + rewrite !run_bind.
      destruct (getSuffixLength size _) as [needed |]; simpl; [| by left].
      right. split; [done |]. eexists.
      match goal with
      | |- (?m ?h1).2 = _ => assert (Hk : keeps (fun h' => h' = h1) m)
      end.
      { repeat keeps_step. }
      by apply Hk.
Qed.

Lemma _split_heap buffer options (h : heap) :
  (_split buffer options h).2 = h.
Proof.
  assert (Hk : keeps (fun h' => h' = h) (_split buffer options)).
  { unfold _split. repeat keeps_step. }
  by apply Hk.
Qed.
End frame_results.

(** ** Reading the options object *)

Lemma run_isDefined k l (h : heap) (o : gmap string prim) :
  h !! l = Some o → isDefined k l h = (Return (defined (o !! k)), h).
Proof. intros Hl. unfold isDefined. by rewrite Hl. Qed.

Lemma run_get_property k l (h : heap) (o : gmap string prim) :
  h !! l = Some o →
  get_property l k h = (Return (default Undefined (o !! k)), h).
Proof. intros Hl. unfold get_property. by rewrite Hl. Qed.

Lemma fresh_not_allocated (h : heap) l (o : gmap string prim) :
  h !! l = Some o → fresh (dom h) ≠ l.
Proof.
  intros Hl Heq. apply (is_fresh (dom h)). rewrite Heq.
  apply elem_of_dom. eauto.
Qed.

(** ** The size pattern *)

Lemma span_digits_app d u :
  all_digits d = true →
  (match u with String c _ => is_digit c | EmptyString => false end) = false →
  span_digits (d +:+ u) = (d, u).
Proof.
  intros Hd Hu. induction d as [| c d IH]; simpl in *.
  - destruct u as [| c u]; [done |]. simpl. by rewrite Hu.
  - apply andb_true_iff in Hd as [-> Hd]. by rewrite IH.
Qed.

Lemma size_pattern_exec_app d u :
  d ≠ EmptyString → all_digits d = true →
  (match u with String c _ => is_digit c | EmptyString => false end) = false →
  existsb (String.eqb (upper u)) ["KB"; "MB"; "K"; "M"] = true →
  size_pattern_exec (d +:+ u) = Some (d, u).
Proof.
  intros Hne Hd Hu Hunit. unfold size_pattern_exec.
  rewrite span_digits_app by done. rewrite Hunit.
  destruct (String.eqb_spec d EmptyString); [done |]. reflexivity.
Qed.

Lemma round_to_double_safe z :
  Num.MIN_SAFE_INTEGER ≤ z ≤ Num.MAX_SAFE_INTEGER → round_to_double z = z.
Proof.
  intros Hz. unfold round_to_double.
  destruct (Z.ltb_spec (Z.abs z) (2 ^ 53)); [done |].
  unfold Num.MIN_SAFE_INTEGER, Num.MAX_SAFE_INTEGER in Hz. lia.
Qed.

Lemma decimal_from_nonneg s :
  all_digits s = true → ∀ acc, 0 ≤ acc → 0 ≤ decimal_from acc s.
Proof.
  induction s as [| c s IH]; simpl; intros Hd acc Hacc; [done |].
  apply andb_true_iff in Hd as [Hc Hd]. apply IH; [done |].
  unfold is_digit in Hc. apply andb_true_iff in Hc as [Hlo _].
  apply Nat.leb_le in Hlo. unfold digit_value. lia.
Qed.

Lemma decimal_nonneg s : all_digits s = true → 0 ≤ decimal s.
Proof. intros Hd. by apply decimal_from_nonneg. Qed.

(** ** Numeric literals *)

Lemma all_literal_chars_app d u :
  all_literal_chars (d +:+ u) = all_literal_chars d && all_literal_chars u.
Proof.
  induction d as [| c d IH]; simpl; [done |].
  by rewrite IH, andb_assoc.
Qed.

Lemma all_digits_literal d : all_digits d = true → all_literal_chars d = true.
Proof.
  induction d as [| c d IH]; simpl; [done |].
  intros [Hc Hd]%andb_true_iff. rewrite IH by done.
  unfold is_literal_char. by rewrite Hc.
Qed.

Section literals.
Context `{Coercions}.

(** A string of digits converts to the number it denotes. *)
Lemma ToNumber_digits d :
  d ≠ EmptyString → all_digits d = true →
  ToNumber (Str d) = Int (round_to_double (decimal d)).
Proof.
  intros Hne Hd. simpl. rewrite all_digits_literal, Hd by done. simpl.
  by destruct (String.eqb_spec d EmptyString).
Qed.

(** A string with a character that no literal holds is not a number. *)
Lemma isNaN_not_literal s : all_literal_chars s = false → isNaN (Str s) = true.
Proof. intros Hs. unfold isNaN. simpl. by rewrite Hs. Qed.
End literals.

(** ** Symbolic execution *)

Section wp.
Context {A B : Type}.
Implicit Types (h : heap) (l : loc) (o : gmap string prim).

Lemma wp_bind (m : M A) (f : A → M B) Q h :
  wp m (fun res h' =>
          match res with
          | Return a => wp (f a) Q h'
          | Throw e => Q (Throw e) h'
          | Diverge => Q Diverge h'
          end) h →
  wp (m ≫= f) Q h.
Proof.
  unfold wp. rewrite run_bind. by destruct (m h) as [[a | e |] h'].
Qed.

Lemma wp_ret (a : A) (Q : outcome A → heap → Prop) h :
  Q (Return a) h → wp (mret a) Q h.
Proof. done. Qed.

Lemma wp_throw (e : Error) (Q : outcome A → heap → Prop) h :
  Q (Throw e) h → wp (throw e) Q h.
Proof. done. Qed.

Lemma wp_isDefined k l o (Q : outcome bool → heap → Prop) h :
  h !! l = Some o → Q (Return (defined (o !! k))) h → wp (isDefined k l) Q h.
Proof. intros Hl HQ. unfold wp. by rewrite (run_isDefined k l h o Hl). Qed.

Lemma wp_get_property k l o (Q : outcome prim → heap → Prop) h :
  h !! l = Some o →
  Q (Return (default Undefined (o !! k))) h → wp (get_property l k) Q h.
Proof. intros Hl HQ. unfold wp. by rewrite (run_get_property k l h o Hl). Qed.

Lemma wp_set_property l k v (Q : outcome unit → heap → Prop) h :
  Q (Return tt) (alter <[k := v]> l h) → wp (set_property l k v) Q h.
Proof. done. Qed.

Lemma wp_new_object (Q : outcome loc → heap → Prop) h :
  Q (Return (fresh (dom h))) (<[fresh (dom h) := ∅]> h) →
  wp new_object Q h.
Proof. done. Qed.

Lemma wp_run (m : M A) (Q : outcome A → heap → Prop) h :
  wp m Q h → ∃ res h', m h = (res, h') ∧ Q res h'.
Proof.
  unfold wp. intros Hwp. exists (m h).1, (m h).2.
  split; [by destruct (m h) | done].
Qed.
End wp.

(** The object at [l] as seen through the assignments made to another
    object since the call began. *)
Ltac solve_lookup :=
  rewrite ?lookup_alter_ne by assumption;
  first [ eassumption | rewrite lookup_insert_ne by assumption; eassumption ].

Ltac wp_simpl :=
  cbn [andb orb negb default from_option id ToString].

(** A test is settled by a hypothesis when there is one, and by case
    analysis otherwise. *)
Ltac settle x :=
  first
    [ match goal with H : x = _ |- _ => rewrite H end
    | let E := fresh "E" in destruct x eqn:E; try congruence ].

Ltac settle_test b :=
  lazymatch b with
  | true => fail
  | false => fail
  | ?x && ?y => first [ settle_test x | settle_test y ]
  | ?x || ?y => first [ settle_test x | settle_test y ]
  | negb ?x => settle_test x
  | _ => settle b
  end.

Ltac wp_step :=
  wp_simpl;
  lazymatch goal with
  | |- wp (_ ≫= _) _ _ => apply wp_bind
  | |- wp (mret _) _ _ => apply wp_ret
  | |- wp (throw _) _ _ => apply wp_throw
  | |- wp (isDefined _ _) _ _ => eapply wp_isDefined; [solve_lookup |]
  | |- wp (get_property _ ?k) _ _ =>
      eapply wp_get_property; [solve_lookup |];
      try match goal with
          | H : ?o !! k = _ |- context [?o !! k] => rewrite H
          end
  | |- wp (set_property _ _ _) _ _ => apply wp_set_property
  | |- wp (if ?b then _ else _) _ _ => settle_test b
  | |- wp (match ?x with _ => _ end) _ _ => settle x
  | |- wp (let (_, _) := ?x in _) _ _ => destruct x
  end.

Section size_strings.
Context `{Coercions}.

Lemma unit_spellings U m u :
  (U, m) ∈ size_units → u = U ∨ u = lower U →
  unit_of u = Some m ∧
  (match u with String c _ => is_digit c | EmptyString => false end) = false ∧
  existsb (String.eqb (upper u)) ["KB"; "MB"; "K"; "M"] = true ∧
  all_literal_chars u = false.
Proof.
  intros Hin Hu. unfold size_units in Hin.
  repeat (apply elem_of_cons in Hin as [[= -> ->] | Hin];
          [destruct Hu as [-> | ->]; repeat split; reflexivity |]).
  by apply elem_of_nil in Hin.
Qed.

Lemma size_units_positive U m : (U, m) ∈ size_units → 1 ≤ m.
Proof.
  intros Hin. unfold size_units in Hin.
  repeat (apply elem_of_cons in Hin as [[= -> ->] | Hin]; [lia |]).
  by apply elem_of_nil in Hin.
Qed.

(** A size of digits and a unit in one case is accepted as the
    product. *)
Lemma checkOptions_size_string (h : heap) l (o : gmap string prim)
    (key d U u : string) (m : Z) :
  h !! l = Some o →
  key = "bytes" ∨ key = "line_bytes" →
  o !! key = Some (Str (d +:+ u)) →
  sole_option key o →
  d ≠ EmptyString → all_digits d = true →
  (U, m) ∈ size_units → u = U ∨ u = lower U →
  decimal d * m ≤ Num.MAX_SAFE_INTEGER →
  ∃ r h',
    checkOptions (Ref l) h = (Return r, h') ∧
    h' !! r = Some {[ key := Number (Int (decimal d * m)) ]}.
Proof.
  intros Hl Hkey Hsize Hsole Hne Hd Hin Hu Hsafe.
  destruct (unit_spellings U m u Hin Hu)
    as (Hunit & Hfirst & Hupper & Hletters).
  pose proof (size_pattern_exec_app d u Hne Hd Hfirst Hupper) as Hexec.
  pose proof (fresh_not_allocated h l o Hl) as Hfresh.
  assert (Hnan : isNaN (Str (d +:+ u)) = true).
  { apply isNaN_not_literal. rewrite all_literal_chars_app, Hletters.
    apply andb_false_r. }
  pose proof (size_units_positive U m Hin) as Hm.
  pose proof (decimal_nonneg d Hd) as Hpos.
  assert (Hprod : Num.mul (ToNumber (Str d))
                    (ToNumber (unit_value (unit_of u)))
                  = Int (decimal d * m)).
  { rewrite Hunit, ToNumber_digits by done. simpl.
    assert (Hle : decimal d ≤ Num.MAX_SAFE_INTEGER) by nia.
    rewrite (round_to_double_safe (decimal d))
      by (unfold Num.MIN_SAFE_INTEGER; lia).
    rewrite round_to_double_safe; [done |].
    unfold Num.MIN_SAFE_INTEGER. nia. }
  assert (Hsafe' : isSafe (Number (Num.mul (ToNumber (Str d))
                                     (ToNumber (unit_value (unit_of u)))))
                   = true).
  { rewrite Hprod. unfold isSafe. simpl. unfold Num.MIN_SAFE_INTEGER.
    apply andb_true_iff. split; apply Z.leb_le; nia. }
  cut (wp (checkOptions (Ref l))
         (fun res h' => ∃ r, res = Return r ∧
            h' !! r = Some {[ key := Number (Int (decimal d * m)) ]}) h).
  { intros Hwp. apply wp_run in Hwp as (res & h' & Hrun & r & -> & Hr).
    eauto. }
  unfold checkOptions. apply wp_bind, wp_new_object.
  assert (Hother : ∀ k, k ≠ key → defined (o !! k) = false) by exact Hsole.
  assert (Hdef : defined (o !! key) = true) by (by rewrite Hsize).
  destruct Hkey as [-> | ->].
  - pose proof (Hother "lines" ltac:(done)) as Hlines.
    pose proof (Hother "line_bytes" ltac:(done)) as Hlb.
    pose proof (Hother "prefix" ltac:(done)) as Hprefix.
    repeat wp_step. eexists; split; [reflexivity |].
    rewrite lookup_alter_eq, lookup_insert_eq, Hprod. reflexivity.
  - pose proof (Hother "lines" ltac:(done)) as Hlines.
    pose proof (Hother "bytes" ltac:(done)) as Hbytes.
    pose proof (Hother "prefix" ltac:(done)) as Hprefix.
    repeat wp_step. eexists; split; [reflexivity |].
    rewrite lookup_alter_eq, lookup_insert_eq, Hprod. reflexivity.
Qed.

(** A size that is not a number and does not match the pattern is
    rejected, whatever else the options hold. *)
Lemma checkOptions_size_mismatch (h : heap) l (o : gmap string prim)
    (key s : string) :
  h !! l = Some o →
  key = "bytes" ∨ key = "line_bytes" →
  o !! key = Some (Str s) →
  isNaN (Str s) = true →
  size_pattern_exec s = None →
  ∃ e, (checkOptions (Ref l) h).1 = Throw e.
Proof.
  intros Hl Hkey Hsize Hnan Hexec.
  pose proof (fresh_not_allocated h l o Hl) as Hfresh.
  assert (Hdef : defined (o !! key) = true) by (by rewrite Hsize).
  cut (wp (checkOptions (Ref l)) (fun res h' => ∃ e, res = Throw e) h).
  { intros Hwp. exact Hwp. }
  unfold checkOptions. apply wp_bind, wp_new_object.
  destruct Hkey as [-> | ->]; repeat wp_step; eauto.
Qed.
End size_strings.

(** ** Counts that validation accepts *)

Section accepting.
Context `{Coercions}.

Lemma in_range_passes (v : option prim) (least : Z) :
  Num.MIN_SAFE_INTEGER ≤ least →
  in_range v least → defined v = true →
  isSafe (default Undefined v) = true ∧
  less (default Undefined v) least = false.
Proof.
  intros Hleast [Hundefined | (n & Hn & Hrange)] Hdefined; [congruence |].
  unfold isSafe, less. rewrite Hn. unfold Num.le, Num.lt.
  unfold Num.MAX_SAFE_INTEGER, Num.MIN_SAFE_INTEGER in *.
  split; [apply andb_true_iff; split; apply Z.leb_le; lia |].
  apply Z.ltb_ge. lia.
Qed.

Lemma accepts_of_wp (l : loc) (h : heap) (o : gmap string prim)
    (key : string) (count : Z) :
  wp (checkOptions (Ref l)) (accepting o key count) h →
  accepts l h o key count.
Proof.
  unfold wp. intros (Hreturns & Hrecord & Hthrows). split; [| split].
  - intros Hvalid. destruct (Hreturns Hvalid) as [record Hres].
    exists record, (checkOptions (Ref l) h).2.
    destruct (checkOptions (Ref l) h) as [res h']. simpl in *. by subst.
  - intros record h' Hrun. rewrite Hrun in Hrecord. by apply Hrecord.
  - exact Hthrows.
Qed.
End accepting.

(** The naming options do not pass when one of their tests fails. *)
Ltac refute_naming Hvalid :=
  match goal with
  | Hprefix : defined (?o !! "prefix") = true |- _ =>
      destruct (Hvalid Hprefix) as [Hlength Hstart];
      first
        [ apply in_range_passes in Hlength as [? ?];
          [congruence | unfold Num.MIN_SAFE_INTEGER; lia | assumption]
        | apply in_range_passes in Hstart as [? ?];
          [congruence | unfold Num.MIN_SAFE_INTEGER; lia | assumption] ]
  end.

(** The end of an execution that accepts the count stored as [Hcount]
    says. *)
Ltac accepted Hcount :=
  split; [| split];
  [ first [ intros _; eexists; reflexivity
          | let Hvalid := fresh "Hvalid" in
            intros Hvalid; exfalso; refute_naming Hvalid ]
  | first
      [ intros ? [=]; fail
      | intros ? [= <-]; eexists; split;
        [ rewrite !lookup_alter_eq, lookup_insert_eq; reflexivity |];
        rewrite Hcount; split;
        [ rewrite ?lookup_insert_ne by done; apply lookup_insert_eq
        | first [ intros; congruence | intros _; reflexivity ] ] ]
  | first [ intros ? [=]; fail | intros ? [= <-]; auto ] ].

Section accepted_counts.
Context `{Coercions}.

(** A value that converts to an integer in range is accepted as that
    integer. *)
Lemma checkOptions_accepts_number (h : heap) (l : loc)
    (o : gmap string prim) (key : string) (v : prim) (n : Z) :
  h !! l = Some o →
  only_mode key o →
  key ∈ ["lines"; "bytes"; "line_bytes"] →
  o !! key = Some v → defined (Some v) = true → ToNumber v = Int n →
  1 ≤ n ≤ Num.MAX_SAFE_INTEGER →
  accepts l h o key n.
Proof.
  intros Hl Hothers Hkey Hv Hdefined Hn Hrange.
  pose proof (fresh_not_allocated h l o Hl) as Hfresh.
  assert (defined (o !! key) = true) as Hdef by (by rewrite Hv).
  assert (isNaN v = false) as Hnan by (unfold isNaN; by rewrite Hn).
  assert (Math_floor v = Int n) as Hfloor by exact Hn.
  assert (isSafe v = true) as Hsafe.
  { unfold isSafe. rewrite Hn. unfold Num.le.
    unfold Num.MAX_SAFE_INTEGER, Num.MIN_SAFE_INTEGER in *.
    apply andb_true_iff. split; apply Z.leb_le; lia. }
  assert (less v 1 = false) as Hless.
  { unfold less. rewrite Hn. unfold Num.lt. apply Z.ltb_ge. lia. }
  apply accepts_of_wp.
  unfold checkOptions. apply wp_bind, wp_new_object.
  repeat (apply elem_of_cons in Hkey as [-> | Hkey]);
    [ | | | by apply elem_of_nil in Hkey].
  - pose proof (Hothers "bytes" ltac:(rewrite !elem_of_cons; auto)
                  ltac:(done)) as Hbytes.
    pose proof (Hothers "line_bytes" ltac:(rewrite !elem_of_cons; auto)
                  ltac:(done)) as Hlb.
    repeat wp_step. all: accepted Hfloor.
  - pose proof (Hothers "lines" ltac:(rewrite !elem_of_cons; auto)
                  ltac:(done)) as Hlines.
    pose proof (Hothers "line_bytes" ltac:(rewrite !elem_of_cons; auto)
                  ltac:(done)) as Hlb.
    repeat wp_step. all: accepted Hfloor.
  - pose proof (Hothers "lines" ltac:(rewrite !elem_of_cons; auto)
                  ltac:(done)) as Hlines.
    pose proof (Hothers "bytes" ltac:(rewrite !elem_of_cons; auto)
                  ltac:(done)) as Hbytes.
    repeat wp_step. all: accepted Hfloor.
Qed.
End accepted_counts.

Section accepted_sizes.
Context `{Coercions}.

(** A size of digits and a unit in one case is accepted as the
    product, whatever the naming options are. *)
Lemma checkOptions_accepts_unit (h : heap) (l : loc)
    (o : gmap string prim) (key d U u : string) (m : Z) :
  h !! l = Some o →
  key = "bytes" ∨ key = "line_bytes" →
  only_mode key o →
  o !! key = Some (Str (d +:+ u)) →
  d ≠ EmptyString → all_digits d = true →
  (U, m) ∈ size_units → u = U ∨ u = lower U →
  decimal d * m ≤ Num.MAX_SAFE_INTEGER →
  accepts l h o key (decimal d * m).
Proof.
  intros Hl Hkey Hothers Hsize Hne Hd Hin Hu Hsafe.
  destruct (unit_spellings U m u Hin Hu)
    as (Hunit & Hfirst & Hupper & Hletters).
  pose proof (size_pattern_exec_app d u Hne Hd Hfirst Hupper) as Hexec.
  pose proof (fresh_not_allocated h l o Hl) as Hfresh.
  assert (Hnan : isNaN (Str (d +:+ u)) = true).
  { apply isNaN_not_literal. rewrite all_literal_chars_app, Hletters.
    apply andb_false_r. }
  pose proof (size_units_positive U m Hin) as Hm.
  pose proof (decimal_nonneg d Hd) as Hpos.
  assert (Hprod : Num.mul (ToNumber (Str d))
                    (ToNumber (unit_value (unit_of u)))
                  = Int (decimal d * m)).
  { rewrite Hunit, ToNumber_digits by done. simpl.
    assert (Hle : decimal d ≤ Num.MAX_SAFE_INTEGER) by nia.
    rewrite (round_to_double_safe (decimal d))
      by (unfold Num.MIN_SAFE_INTEGER; lia).
    rewrite round_to_double_safe; [done |].
    unfold Num.MIN_SAFE_INTEGER. nia. }
  assert (Hsafe' : isSafe (Number (Num.mul (ToNumber (Str d))
                                     (ToNumber (unit_value (unit_of u)))))
                   = true).
  { rewrite Hprod. unfold isSafe. simpl. unfold Num.MIN_SAFE_INTEGER.
    apply andb_true_iff. split; apply Z.leb_le; nia. }
  assert (Hdef : defined (o !! key) = true) by (by rewrite Hsize).
  apply accepts_of_wp.
  unfold checkOptions. apply wp_bind, wp_new_object.
  destruct Hkey as [-> | ->].
  - pose proof (Hothers "lines" ltac:(rewrite !elem_of_cons; auto)
                  ltac:(done)) as Hlines.
    pose proof (Hothers "line_bytes" ltac:(rewrite !elem_of_cons; auto)
                  ltac:(done)) as Hlb.
    repeat wp_step. all: accepted Hprod.
  - pose proof (Hothers "lines" ltac:(rewrite !elem_of_cons; auto)
                  ltac:(done)) as Hlines.
    pose proof (Hothers "bytes" ltac:(rewrite !elem_of_cons; auto)
                  ltac:(done)) as Hbytes.
    repeat wp_step. all: accepted Hprod.
Qed.

(** A value that converts to an integer out of range is rejected,
    whatever the other options are. *)
Lemma checkOptions_rejects_number (h : heap) (l : loc)
    (o : gmap string prim) (key : string) (v : prim) (n : Z) :
  h !! l = Some o →
  only_mode key o →
  key ∈ ["lines"; "bytes"; "line_bytes"] →
  o !! key = Some v → defined (Some v) = true → ToNumber v = Int n →
  n < 1 ∨ Num.MAX_SAFE_INTEGER < n →
  (checkOptions (Ref l) h).1 = Throw (invalid_count key).
Proof.
  intros Hl Hothers Hkey Hv Hdefined Hn Hrange.
  pose proof (fresh_not_allocated h l o Hl) as Hfresh.
  assert (defined (o !! key) = true) as Hdef by (by rewrite Hv).
  assert (isNaN v = false) as Hnan by (unfold isNaN; by rewrite Hn).
  assert (isSafe v = false ∨ less v 1 = true) as Hbad.
  { unfold isSafe, less. rewrite Hn. unfold Num.le, Num.lt.
    unfold Num.MAX_SAFE_INTEGER, Num.MIN_SAFE_INTEGER in *.
    destruct Hrange as [Hlow | Hhigh].
    - right. apply Z.ltb_lt. lia.
    - left. apply andb_false_iff. right. apply Z.leb_gt. lia. }
  change (wp (checkOptions (Ref l))
            (fun res _ => res = Throw (invalid_count key)) h).
  unfold checkOptions. apply wp_bind, wp_new_object.
  repeat (apply elem_of_cons in Hkey as [-> | Hkey]);
    [ | | | by apply elem_of_nil in Hkey].
  - pose proof (Hothers "bytes" ltac:(rewrite !elem_of_cons; auto)
                  ltac:(done)) as Hbytes.
    pose proof (Hothers "line_bytes" ltac:(rewrite !elem_of_cons; auto)
                  ltac:(done)) as Hlb.
    destruct Hbad as [Hbad | Hbad]; by repeat wp_step.
  - pose proof (Hothers "lines" ltac:(rewrite !elem_of_cons; auto)
                  ltac:(done)) as Hlines.
    pose proof (Hothers "line_bytes" ltac:(rewrite !elem_of_cons; auto)
                  ltac:(done)) as Hlb.
    destruct Hbad as [Hbad | Hbad]; by repeat wp_step.
  - pose proof (Hothers "lines" ltac:(rewrite !elem_of_cons; auto)
                  ltac:(done)) as Hlines.
    pose proof (Hothers "bytes" ltac:(rewrite !elem_of_cons; auto)
                  ltac:(done)) as Hbytes.
    destruct Hbad as [Hbad | Hbad]; by repeat wp_step.
Qed.

(** A size that is not a number and does not match the pattern is
    rejected as a size when no other way of splitting is given. *)
Lemma checkOptions_size_mismatch_only (h : heap) l (o : gmap string prim)
    (key s : string) :
  h !! l = Some o →
  key = "bytes" ∨ key = "line_bytes" →
  only_mode key o →
  o !! key = Some (Str s) →
  isNaN (Str s) = true →
  size_pattern_exec s = None →
  (checkOptions (Ref l) h).1 = Throw invalid_bytes.
Proof.
  intros Hl Hkey Hothers Hsize Hnan Hexec.
  pose proof (fresh_not_allocated h l o Hl) as Hfresh.
  assert (Hdef : defined (o !! key) = true) by (by rewrite Hsize).
  change (wp (checkOptions (Ref l))
            (fun res _ => res = Throw invalid_bytes) h).
  unfold checkOptions. apply wp_bind, wp_new_object.
  destruct Hkey as [-> | ->].
  - pose proof (Hothers "lines" ltac:(rewrite !elem_of_cons; auto)
                  ltac:(done)) as Hlines.
    pose proof (Hothers "line_bytes" ltac:(rewrite !elem_of_cons; auto)
                  ltac:(done)) as Hlb.
    by repeat wp_step.
  - pose proof (Hothers "lines" ltac:(rewrite !elem_of_cons; auto)
                  ltac:(done)) as Hlines.
    pose proof (Hothers "bytes" ltac:(rewrite !elem_of_cons; auto)
                  ltac:(done)) as Hbytes.
    by repeat wp_step.
Qed.
End accepted_sizes.

(** ** [_split] on a validated record *)

Section split_record.
Context `{Coercions}.

Lemma run__split buffer options (h : heap) (o : gmap string prim) m :
  h !! options = Some o → selects o m →
  _split buffer options h =
  (match m with
   | ByLines n => terminates (splitByLines buffer n)
   | ByBytes n => terminates (splitByBytes buffer n)
   | ByLineBytes n => terminates (splitByLineBytes buffer n)
   end) h.
Proof.
  intros Ho [Hkey Hothers]. unfold _split.
  rewrite run_bind, (run_isDefined _ _ _ _ Ho).
  destruct m as [n | n | n]; simpl in Hkey, Hothers.
  - rewrite Hkey. simpl.
    rewrite run_bind, (run_get_property _ _ _ _ Ho), Hkey. reflexivity.
  - rewrite (Hothers "lines") by (set_solver || done). simpl.
    rewrite run_bind, (run_isDefined _ _ _ _ Ho), Hkey. simpl.
    rewrite run_bind, (run_get_property _ _ _ _ Ho), Hkey. reflexivity.
  - rewrite (Hothers "lines") by (set_solver || done). simpl.
    rewrite run_bind, (run_isDefined _ _ _ _ Ho).
    rewrite (Hothers "bytes") by (set_solver || done). simpl.
    rewrite run_bind, (run_get_property _ _ _ _ Ho), Hkey. reflexivity.
Qed.

Lemma _split_partitions buffer options (h : heap) (o : gmap string prim) m :
  h !! options = Some o → selects o m → 1 ≤ mode_count m →
  ∃ pieces,
    _split buffer options h = (Return pieces, h) ∧ partitions buffer pieces.
Proof.
  intros Ho Hm Hcount. rewrite (run__split buffer options h o m Ho Hm).
  destruct m as [n | n | n]; simpl in Hcount.
  - destruct (splitByLines_partitions buffer n) as (pieces & -> & Hp).
    by exists pieces.
  - destruct (splitByBytes_partitions buffer n Hcount) as (pieces & -> & Hp).
    by exists pieces.
  - destruct (splitByLineBytes_partitions buffer n Hcount)
      as (pieces & -> & Hp).
    by exists pieces.
Qed.
End split_record.

(** ** The write callbacks *)

Section deliver.
Variable splitted : list Buffer.

Lemma failures_deliver completions c :
  failures (deliver splitted completions c) = failed completions.
Proof.
  revert c. induction completions as [| err completions IH]; intros c.
  - reflexivity.
  - simpl. destruct err as [e |]; simpl.
    + unfold failures, failed in *. simpl. by rewrite IH.
    + unfold failures, failed in *. rewrite List.filter_app, length_app.
      rewrite IH. simpl. by case_match.
Qed.

(** Once [done] has reached the number of pieces no success follows. *)
Lemma successes_deliver_bound completions c :
  (successes (deliver splitted completions c)
   ≤ if (done c <? Z.of_nat (List.length splitted))%Z then 1 else 0)%nat.
Proof.
  revert c. induction completions as [| err completions IH]; intros c.
  - simpl. unfold successes. simpl. case_match; lia.
  - simpl. destruct err as [e |]; simpl.
    + unfold successes in *. simpl. apply (IH {| done := done c; errored := true |}).
    + unfold successes in *. rewrite List.filter_app, length_app.
      specialize (IH {| done := done c + 1; errored := errored c |}).
      simpl in IH.
      destruct (negb (errored c)
                && (done c + 1 =? Z.of_nat (List.length splitted))) eqn:E;
        simpl.
      * apply andb_true_iff in E as [_ E%Z.eqb_eq].
        destruct (Z.ltb_spec (done c + 1) (Z.of_nat (List.length splitted)));
          destruct (Z.ltb_spec (done c) (Z.of_nat (List.length splitted)));
          lia.
      * destruct (Z.ltb_spec (done c + 1) (Z.of_nat (List.length splitted)));
          destruct (Z.ltb_spec (done c) (Z.of_nat (List.length splitted)));
          lia.
Qed.

(** While writes are outstanding, a failure excludes success. *)
Lemma successes_deliver_failed completions c :
  done c + Z.of_nat (List.length completions)
    ≤ Z.of_nat (List.length splitted) →
  errored c = true ∨ (0 < failed completions)%nat →
  successes (deliver splitted completions c) = 0%nat.
Proof.
  revert c. induction completions as [| err completions IH];
    intros c Hlen Hfail.
  - reflexivity.
  - simpl in *. destruct err as [e |]; simpl.
    + unfold successes in *. simpl.
      apply (IH {| done := done c; errored := true |}); simpl; [lia | auto].
    + unfold successes in *. rewrite List.filter_app, length_app.
      rewrite (IH {| done := done c + 1; errored := errored c |});
        simpl; [| lia |].
      * destruct Hfail as [-> | Hfail]; [done |].
        unfold failed in Hfail. simpl in Hfail.
        destruct (Z.eqb_spec (done c + 1) (Z.of_nat (List.length splitted)));
          [| by rewrite andb_false_r].
        destruct completions; simpl in *; lia.
      * destruct Hfail as [-> | Hfail]; [by left | right].
        unfold failed in *. simpl in Hfail. exact Hfail.
Qed.
End deliver.

(** ** The synchronous part of [split] *)

Section split_sync.
Context `{Coercions}.

Lemma keeps_writeFiles (P : heap → Prop) requests :
  keeps P (writeFiles requests).
Proof.
  induction requests as [| [path piece] requests IH]; intros h Hh;
    [done |].
  simpl. destruct (valid_path path); [by apply IH | done].
Qed.

(** The stages after validation change the store as [createFilenames]
    does. *)
Lemma split_heap buffer v (h h1 : heap) r :
  checkOptions v h = (Return r, h1) →
  fills_suffix_length r h1 (split buffer v h).2.
Proof.
  intros Hcheck. unfold split. rewrite run_bind. unfold catch at 1.
  rewrite run_bind, Hcheck. rewrite run_bind.
  pose proof (_split_heap buffer r h1) as Hsplit.
  destruct (_split buffer r h1) as [[splitted | e |] h2];
    simpl in Hsplit; subst h2; simpl; try by left.
  rewrite run_bind. unfold isDefined at 1.
  destruct (defined (h1 !! r ≫= (.!! "prefix"))); simpl; [| by left].
  rewrite run_bind. unfold catch.
  pose proof (createFilenames_heap (Z.of_nat (List.length splitted)) r h1)
    as Hnames.
  destruct (createFilenames (Z.of_nat (List.length splitted)) r h1)
    as [[filenames | e |] h2]; simpl in *; try done.
  match goal with
  | |- fills_suffix_length _ _ (?m h2).2 =>
      assert (Hk : keeps (fun h' => h' = h2) m)
  end.
  { repeat first [ apply keeps_writeFiles | keeps_step ]. }
  by rewrite (Hk h2 eq_refl).
Qed.

Lemma keeps_writeFilesSync (P : heap → Prop) requests results :
  keeps P (writeFilesSync requests results).
Proof.
  revert results. induction requests as [| request requests IH];
    intros results h Hh; [done |].
  destruct results as [| [err |] results]; simpl; [by apply IH | done |].
  by apply IH.
Qed.

Lemma splitSync_heap buffer v results (h h1 : heap) r :
  checkOptions v h = (Return r, h1) →
  fills_suffix_length r h1 (splitSync buffer v results h).2.
Proof.
  intros Hcheck. unfold splitSync. rewrite run_bind, Hcheck.
  rewrite run_bind.
  pose proof (_split_heap buffer r h1) as Hsplit.
  destruct (_split buffer r h1) as [[splitted | e |] h2];
    simpl in Hsplit; subst h2; simpl; try by left.
  rewrite run_bind.
  pose proof (createFilenames_heap (Z.of_nat (List.length splitted)) r h1)
    as Hnames.
  destruct (createFilenames (Z.of_nat (List.length splitted)) r h1)
    as [[filenames | e |] h2]; simpl in *; try done.
  match goal with
  | |- fills_suffix_length _ _ (?m h2).2 =>
      assert (Hk : keeps (fun h' => h' = h2) m)
  end.
  { repeat first [ apply keeps_writeFilesSync | keeps_step ]. }
  by rewrite (Hk h2 eq_refl).
Qed.

Lemma fills_suffix_length_only r (h1 h2 : heap) :
  fills_suffix_length r h1 h2 → fills_only_suffix_length r h1 h2.
Proof.
  intros [-> | (Hundef & n & ->)]; [done |].
  split; [| split].
  - intros l Hl. by apply lookup_alter_ne.
  - intros k Hk. rewrite lookup_alter_eq.
    destruct (h1 !! r) as [o |]; [| done]. simpl.
    by apply lookup_insert_ne.
  - intros Hdef. congruence.
Qed.

(** Each write request pairs a piece with a file name. *)
Lemma split_requests buffer v (h : heap) requests splitted :
  (split buffer v h).1 = Return (WriteFiles requests splitted) →
  ∃ filenames, requests = zip filenames splitted.
Proof.
  pose (Q := fun s =>
          match s with
          | WriteFiles requests splitted =>
              ∃ filenames, requests = zip filenames splitted
          | NextTick _ => True
          end).
  assert (Hr : returns_only Q (split buffer v)).
  { unfold split. apply returns_only_bind. intros [err | [options pieces]].
    - by apply returns_only_ret.
    - apply returns_only_bind. intros [|].
      + apply returns_only_bind. intros [err | filenames];
          [by apply returns_only_ret |].
        apply returns_only_bind. intros _.
        apply returns_only_ret. simpl. eauto.
      + by apply returns_only_ret. }
  intros Hrun. exact (Hr h _ Hrun).
Qed.
(** An empty buffer has no pieces, whatever the record says. *)
Lemma _split_empty options (h : heap) pieces :
  (_split [] options h).1 = Return pieces → pieces = [].
Proof.
  assert (Hr : returns_only (fun pieces => pieces = []) (_split [] options)).
  { unfold _split.
    repeat first
      [ apply returns_only_bind; intros ?
      | match goal with
        | |- returns_only _ (if ?b then _ else _) => destruct b
        end ];
      intros ? ?; cbn; intros [= <-]; reflexivity. }
  apply Hr.
Qed.

(** With no piece, [split] defers one call of the callback or issues
    no write at all. *)
Lemma split_empty v (h : heap) s :
  (split [] v h).1 = Return s →
  (∃ n, s = NextTick n) ∨ s = WriteFiles [] [].
Proof.
  unfold split. rewrite run_bind. unfold catch at 1. rewrite run_bind.
  destruct (checkOptions v h) as [[r | e |] h1]; simpl;
    [| intros [= <-]; eauto | done].
  rewrite run_bind.
  pose proof (_split_empty r h1) as Hempty.
  destruct (_split [] r h1) as [[pieces | e |] h2]; simpl in *;
    [| intros [= <-]; eauto | done].
  rewrite (Hempty pieces eq_refl). rewrite run_bind. unfold isDefined at 1.
  destruct (defined (h2 !! r ≫= (.!! "prefix"))); simpl;
    [| intros [= <-]; eauto].
  rewrite run_bind. unfold catch.
  destruct (createFilenames _ r h2) as [[filenames | e |] h3]; simpl;
    [| intros [= <-]; eauto | done].
  destruct filenames; simpl; intros [= <-]; by right.
Qed.
End split_sync.

(** ** What [getSuffixLength] computes *)

Lemma getSuffixLength_loop_spec symbolLength :
  2 ≤ symbolLength →
  ∀ fuel length count,
    0 ≤ length → length < Z.of_nat fuel →
    ∃ digits,
      getSuffixLength_loop fuel length symbolLength count
      = Some (count + digits) ∧
      0 ≤ digits ∧
      (length = 0 → digits = 0) ∧
      (1 ≤ length →
       symbolLength ^ digits ≤ length < symbolLength ^ (digits + 1)).
Proof.
  intros Hsym. induction fuel as [| fuel IH]; intros length count Hlen Hfuel;
    [lia |].
  simpl.
  assert (Hq : 0 ≤ length / symbolLength) by (apply Z.div_pos; lia).
  assert (Hqlt : length = 0 ∨ length / symbolLength < length).
  { destruct (Z.eq_dec length 0); [by left | right].
    apply Z.div_lt; lia. }
  pose proof (Z.div_mod length symbolLength ltac:(lia)) as Hdm.
  pose proof (Z.mod_pos_bound length symbolLength ltac:(lia)) as Hmod.
  destruct (Z.eqb_spec (length / symbolLength) 0) as [Hz | Hnz].
  - exists 0. rewrite Z.add_0_r. split; [done |]. split; [done |].
    split; [done |]. intros Hone. simpl. rewrite Z.pow_1_r. nia.
  - destruct (IH (length / symbolLength) (count + 1)) as (digits & -> & Hd0 & _ & Hpow);
      [lia | lia |].
    exists (digits + 1). split; [f_equal; lia |].
    split; [lia |]. split; [intros ->; by rewrite Z.div_0_l in Hnz by lia |].
    intros _. specialize (Hpow ltac:(lia)).
    rewrite !Z.pow_add_r, !Z.pow_1_r in * by lia. nia.
Qed.

(** For a count [N ≥ 1] the result is the [L] with [R^L ≤ N < R^(L+1)]:
    one less than the number of digits of [N] in radix [R]. *)
Lemma getSuffixLength_spec length symbolLength :
  2 ≤ symbolLength → 0 ≤ length →
  ∃ digits,
    getSuffixLength length symbolLength = Some digits ∧
    0 ≤ digits ∧
    (length = 0 → digits = 0) ∧
    (1 ≤ length →
     symbolLength ^ digits ≤ length < symbolLength ^ (digits + 1)).
Proof.
  intros Hsym Hlen. unfold getSuffixLength.
  destruct (getSuffixLength_loop_spec symbolLength Hsym
              (Z.to_nat length + 1) length 0) as (digits & Hrun & Hspec);
    [lia | lia |].
  exists digits. by rewrite Hrun.
Qed.

(** ** The record that [checkOptions] returns *)

Lemma selects_of (record : gmap string prim) k n :
  k ∈ ["lines"; "bytes"; "line_bytes"] →
  record !! k = Some (Number n) →
  (∃ z, n = Int z) →
  (∀ k', k' ∈ ["lines"; "bytes"; "line_bytes"] → k' ≠ k →
         record !! k' = None) →
  ∃ m, selects record m.
Proof.
  intros Hk Hn [z ->] Hothers.
  repeat (apply elem_of_cons in Hk as [-> | Hk]);
    [ exists (ByLines z) | exists (ByBytes z) | exists (ByLineBytes z) | ];
    [by split .. |].
  by apply elem_of_nil in Hk.
Qed.

Section validated.
Context `{Coercions}.

Lemma isNaN_false v : isNaN v = false → ∃ z, ToNumber v = Int z.
Proof. unfold isNaN. destruct (ToNumber v); [done | eauto]. Qed.

Lemma isSafe_Int v : isSafe v = true → ∃ z, ToNumber v = Int z.
Proof. unfold isSafe. destruct (ToNumber v); [done | eauto]. Qed.

Ltac other_modes_absent :=
  let k := fresh "k" in
  let Hin := fresh "Hin" in
  let Hne := fresh "Hne" in
  intros k Hin Hne;
  repeat (apply elem_of_cons in Hin as [-> | Hin];
          [first [ done
                 | rewrite !lookup_insert_ne by done; apply lookup_empty ] |]);
  by apply elem_of_nil in Hin.

Ltac selects_mode k :=
  solve
    [ eapply (selects_of _ k);
      [ set_solver
      | rewrite ?lookup_insert_ne by done; apply lookup_insert_eq
      | first [ apply isNaN_false; assumption
              | apply (isSafe_Int (Number _)); assumption ]
      | other_modes_absent ] ].

(** Validation returns a record that selects one way of splitting,
    with an integer count. *)
Lemma checkOptions_selects (h : heap) l (o : gmap string prim) :
  h !! l = Some o →
  ∀ r h', checkOptions (Ref l) h = (Return r, h') →
    ∃ record, h' !! r = Some record ∧ ∃ m, selects record m.
Proof.
  intros Hl.
  pose proof (fresh_not_allocated h l o Hl) as Hfresh.
  cut (wp (checkOptions (Ref l))
         (fun res h' => ∀ r, res = Return r →
            ∃ record, h' !! r = Some record ∧ ∃ m, selects record m) h).
  { intros Hwp r h' Hrun. unfold wp in Hwp. rewrite Hrun in Hwp.
    by apply Hwp. }
  unfold checkOptions. apply wp_bind, wp_new_object.
  repeat wp_step.
  all: try (intros ? [=]; fail).
  all: intros ? [= <-]; eexists; split;
    [ rewrite !lookup_alter_eq, lookup_insert_eq; reflexivity |].
  all: first [ selects_mode "lines" | selects_mode "bytes"
             | selects_mode "line_bytes" ].
Qed.
End validated.

(** * Theorems *)

Lemma ceil_div_exact a b : 0 < b → a mod b = 0 → ceil_div a b = a / b.
Proof.
  intros Hb Hmod. unfold ceil_div. rewrite Z.div_opp_l_z by lia. lia.
Qed.

Lemma ceil_div_inexact a b : 0 < b → a mod b ≠ 0 → ceil_div a b = a / b + 1.
Proof.
  intros Hb Hmod. unfold ceil_div. rewrite Z.div_opp_l_nz by lia. lia.
Qed.

(** C1.  For every buffer and every validated record that selects one
    way of splitting with a count [n ≥ 1], [_split] returns pieces whose
    concatenation, in order, is the buffer. *)
Theorem split_concat `{Coercions} (buffer : Buffer) (options : loc)
    (h : heap) (o : gmap string prim) (m : mode) :
  h !! options = Some o → selects o m → 1 ≤ mode_count m →
  ∃ pieces,
    _split buffer options h = (Return pieces, h) ∧ concat pieces = buffer.
Proof.
  intros Ho Hm Hcount.
  destruct (_split_partitions buffer options h o m Ho Hm Hcount)
    as (pieces & Hrun & Hcat & _).
  by exists pieces.
Qed.

Lemma selects_singleton (m : mode) :
  selects {[ mode_key m := Number (Int (mode_count m)) ]} m.
Proof.
  split; [apply lookup_singleton_eq |].
  intros k _ Hk. by apply lookup_singleton_ne.
Qed.

Lemma split_concat_witness :
  ∃ pieces,
    _split [Byte.x61; LF; Byte.x62; LF; Byte.x63] caller
      {[ caller := {[ "line_bytes" := Number (Int 1) ]} ]}
    = (Return pieces, {[ caller := {[ "line_bytes" := Number (Int 1) ]} ]})
    ∧ concat pieces = [Byte.x61; LF; Byte.x62; LF; Byte.x63].
Proof.
  apply (split_concat _ caller _ {[ "line_bytes" := Number (Int 1) ]}
           (ByLineBytes 1)).
  - reflexivity.
  - apply (selects_singleton (ByLineBytes 1)).
  - simpl. lia.
Defined.

(** C9.  For every buffer and every validated record that selects one
    way of splitting with a count [n ≥ 1], no piece that [_split] returns
    is empty. *)
Theorem split_nonempty `{Coercions} (buffer : Buffer) (options : loc)
    (h : heap) (o : gmap string prim) (m : mode) :
  h !! options = Some o → selects o m → 1 ≤ mode_count m →
  ∃ pieces,
    _split buffer options h = (Return pieces, h) ∧ Forall nonempty pieces.
Proof.
  intros Ho Hm Hcount.
  destruct (_split_partitions buffer options h o m Ho Hm Hcount)
    as (pieces & Hrun & _ & Hne).
  by exists pieces.
Qed.

Lemma split_nonempty_witness :
  ∃ pieces,
    _split [Byte.x61; LF; LF; Byte.x62] caller
      {[ caller := {[ "lines" := Number (Int 1) ]} ]}
    = (Return pieces, {[ caller := {[ "lines" := Number (Int 1) ]} ]})
    ∧ Forall nonempty pieces.
Proof.
  apply (split_nonempty _ caller _ {[ "lines" := Number (Int 1) ]}
           (ByLines 1)).
  - reflexivity.
  - apply (selects_singleton (ByLines 1)).
  - simpl. lia.
Defined.

(** C7.  Splitting a buffer of length [L ≥ 1] by [k ≥ 1] bytes returns
    [ceil (L / k)] pieces; every piece but the last has length [k]; the
    last is not empty, and has length [k] when [k] divides [L] and
    [L - k * floor (L / k)] otherwise. *)
Theorem splitByBytes_chunks (buffer : Buffer) (k : Z) :
  1 ≤ Buf.length buffer → 1 ≤ k →
  ∃ pieces,
    splitByBytes buffer k = Some pieces ∧
    Z.of_nat (List.length pieces) = ceil_div (Buf.length buffer) k ∧
    (∀ i piece, pieces !! i = Some piece →
                (i + 1 < List.length pieces)%nat → Buf.length piece = k) ∧
    ∃ final,
      last pieces = Some final ∧
      0 < Buf.length final ∧
      (Buf.length buffer mod k = 0 → Buf.length final = k) ∧
      (Buf.length buffer mod k ≠ 0 →
       Buf.length final = Buf.length buffer - k * (Buf.length buffer / k)).
Proof.
  intros HL Hk.
  destruct (splitByBytes_spec buffer k Hk)
    as (pieces & Hrun & Hcat & full & rest & -> & Hfull & Hcount & Hrest).
  exists (full ++ rest). split; [done |].
  pose proof (Z.div_mod (Buf.length buffer) k ltac:(lia)) as Hdm.
  pose proof (Z.mod_pos_bound (Buf.length buffer) k ltac:(lia)) as Hmod.
  destruct Hrest as [[Hz ->] | [Hnz (r & -> & Hr)]].
  - rewrite app_nil_r in *.
    assert (Hpos : (0 < List.length full)%nat) by nia.
    split; [rewrite ceil_div_exact by lia; done |].
    split.
    { intros i piece Hi _. apply list_elem_of_lookup_2 in Hi.
      exact (proj1 (Forall_forall _ _) Hfull piece Hi). }
    destruct (last full) as [final |] eqn:Hlast.
    + exists final. apply last_Some in Hlast as [front ->].
      destruct (proj1 (Forall_app _ _ _) Hfull) as [_ Hfinal].
      pose proof (proj1 (Forall_singleton _ _) Hfinal) as Hlen.
      cbv beta in Hlen.
      split; [done |]. split; [lia |]. split; [done | lia].
    + apply last_None in Hlast. subst full. simpl in Hpos. lia.
  - split.
    { rewrite length_app, ceil_div_inexact by lia. simpl. lia. }
    split.
    { intros i piece Hi Hlt. rewrite length_app in Hlt. simpl in Hlt.
      rewrite lookup_app_l in Hi by lia.
      apply list_elem_of_lookup_2 in Hi.
      exact (proj1 (Forall_forall _ _) Hfull piece Hi). }
    exists r. rewrite last_snoc. split; [done |].
    split; [lia |]. split; [lia |]. intros _. lia.
Qed.

Lemma splitByBytes_chunks_witness :
  ∃ pieces,
    splitByBytes (repeat Byte.x00 25) 10 = Some pieces ∧
    Z.of_nat (List.length pieces) = 3.
Proof.
  destruct (splitByBytes_chunks (repeat Byte.x00 25) 10)
    as (pieces & Hrun & Hcount & _).
  - vm_compute. discriminate.
  - lia.
  - exists pieces. split; [exact Hrun |]. rewrite Hcount. reflexivity.
Defined.

(** C10.  [checkOptions] never assigns to the object it is given:
    whether it returns or throws, every object of the store before the
    call, the caller's options among them, is the same after it, and the
    record it returns was not in the store before. *)
Theorem checkOptions_keeps_input `{Coercions} (v : value) (h : heap)
    (l : loc) (o : gmap string prim) :
  h !! l = Some o →
  (checkOptions v h).2 !! l = Some o ∧
  ∀ r, (checkOptions v h).1 = Return r → h !! r = None.
Proof.
  intros Hl. split; [by apply checkOptions_body_keeps |].
  intros r Hr. apply checkOptions_returns_fresh in Hr as ->.
  apply not_elem_of_dom, is_fresh.
Qed.

Lemma checkOptions_keeps_input_witness :
  (checkOptions (Ref caller)
     (options_heap [("bytes", Str "2K"); ("prefix", Number (Int 7))])).2
  !! caller
  = Some (list_to_map [("bytes", Str "2K"); ("prefix", Number (Int 7))]).
Proof.
  apply (checkOptions_keeps_input (Ref caller)
           (options_heap [("bytes", Str "2K"); ("prefix", Number (Int 7))])
           caller).
  reflexivity.
Defined.

(** C8, as stated, fails: the record that validation returned for
    [{lines: 1, prefix: 'x'}] has no [suffix_length]; after the call has
    named its two pieces it has one. *)
Lemma record_changed_after_validation :
  ∃ record,
    (checkOptions (Ref caller)
       (options_heap [("lines", Number (Int 1)); ("prefix", Str "x")])).1
    = Return record ∧
    (checkOptions (Ref caller)
       (options_heap [("lines", Number (Int 1)); ("prefix", Str "x")])).2
    !! record ≫= (.!! "suffix_length") = None ∧
    (split [Byte.x61; LF; Byte.x62] (Ref caller)
       (options_heap [("lines", Number (Int 1)); ("prefix", Str "x")])).2
    !! record ≫= (.!! "suffix_length") = Some (Number (Int 2)).
Proof.
  exists 2%positive. repeat split; vm_compute; reflexivity.
Qed.

(** C8, amended.  After validation has returned the record, the rest of
    the call (splitting, naming the files, scheduling or making the
    writes) leaves every other object alone and changes no field of the
    record except [suffix_length], and that one only when the record has
    none; this holds of [split] and of [splitSync], whatever the results
    of its writes. *)
Theorem record_changes_suffix_length_only `{Coercions} (buffer : Buffer)
    (v : value) (h h1 : heap) (record : loc) :
  checkOptions v h = (Return record, h1) →
  fills_only_suffix_length record h1 (split buffer v h).2 ∧
  ∀ results,
    fills_only_suffix_length record h1 (splitSync buffer v results h).2.
Proof.
  intros Hcheck. split.
  - by apply fills_suffix_length_only, split_heap.
  - intros results. by apply fills_suffix_length_only, splitSync_heap.
Qed.

Lemma record_changes_suffix_length_only_witness :
  (split [Byte.x61; LF; Byte.x62] (Ref caller)
     (options_heap [("lines", Number (Int 1)); ("prefix", Str "x")])).2
  !! caller
  = (checkOptions (Ref caller)
       (options_heap [("lines", Number (Int 1)); ("prefix", Str "x")])).2
    !! caller.
Proof.
  assert (Hcheck :
    checkOptions (Ref caller)
      (options_heap [("lines", Number (Int 1)); ("prefix", Str "x")])
    = (Return 2%positive,
       (checkOptions (Ref caller)
          (options_heap [("lines", Number (Int 1)); ("prefix", Str "x")])).2)).
  { assert (Hrecord :
      (checkOptions (Ref caller)
         (options_heap [("lines", Number (Int 1)); ("prefix", Str "x")])).1
      = Return 2%positive) by (vm_compute; reflexivity).
    destruct (checkOptions _ _) as [res h1]. simpl in *. by subst res. }
  destruct (record_changes_suffix_length_only [Byte.x61; LF; Byte.x62]
              _ _ _ _ Hcheck) as [(Hothers & _ & _) _].
  apply Hothers. discriminate.
Defined.

(** C6, as stated, fails.  The string ["12"] does not match the
    pattern and is accepted, as the number 12; the string ["1Kb"] matches
    the pattern and is rejected, because the [switch] on the unit knows
    only the spellings in one case; and a size that matches does not make
    validation succeed when another option is at fault: a
    [suffix_length] of 0, or a second way of splitting. *)
Lemma size_string_counterexample :
  (size_pattern_exec "12" = None ∧
   ∃ record,
     (checkOptions (Ref caller) (options_heap [("bytes", Str "12")])).1
     = Return record ∧
     (checkOptions (Ref caller) (options_heap [("bytes", Str "12")])).2
     !! record = Some {[ "bytes" := Number (Int 12) ]}) ∧
  (size_pattern_exec "1Kb" = Some ("1", "Kb") ∧
   (checkOptions (Ref caller) (options_heap [("bytes", Str "1Kb")])).1
   = Throw invalid_bytes) ∧
  (size_pattern_exec "1K" = Some ("1", "K") ∧
   (checkOptions (Ref caller)
      (options_heap [("bytes", Str "1K"); ("prefix", Str "x");
                     ("suffix_length", Number (Int 0))])).1
   = Throw (PlainError "Invalid suffix length") ∧
   (checkOptions (Ref caller)
      (options_heap [("bytes", Str "1K"); ("lines", Number (Int 1))])).1
   = Throw (PlainError "Cannot split in more than one way")).
Proof.
  split; [split; [reflexivity |] | split; [split; [reflexivity |] |]].
  - exists 2%positive. split; vm_compute; reflexivity.
  - vm_compute. reflexivity.
  - split; [reflexivity |]. split; vm_compute; reflexivity.
Qed.

(** C6, amended.  Let [bytes] or [line_bytes] hold a string.
    If the string is a non-empty string of digits [d] followed by a unit
    written entirely in upper case or entirely in lower case, [d] times
    the unit's multiplier (1024 for K, 1048576 for M, 1000 for KB, 1000000
    for MB) is a safe integer, and no other way of splitting is defined,
    then validation accepts that product as the count: it returns
    whenever the naming options are valid, a record it returns holds the
    product, and nothing else when there is no [prefix], and it throws no
    error but those of the naming options.
    If the string does not convert to a number and does not match the
    pattern, validation throws, and what it throws is
    [Invalid number of bytes] when no other way of splitting is defined.
    If the string converts to the integer [n], as ["12"] does to 12, and
    no other way of splitting is defined, it is validated as that number:
    [n] is accepted as the count when [1 ≤ n ≤ 2^53 - 1], and rejected with
    [Invalid number of bytes] otherwise. *)
Theorem size_strings `{Coercions} (h : heap) (l : loc) (o : gmap string prim)
    (key : string) :
  h !! l = Some o →
  key = "bytes" ∨ key = "line_bytes" →
  (∀ d U u m,
     o !! key = Some (Str (d +:+ u)) →
     d ≠ EmptyString → all_digits d = true →
     (U, m) ∈ size_units → u = U ∨ u = lower U →
     decimal d * m ≤ Num.MAX_SAFE_INTEGER →
     only_mode key o →
     accepts l h o key (decimal d * m)) ∧
  (∀ s,
     o !! key = Some (Str s) →
     isNaN (Str s) = true → size_pattern_exec s = None →
     (∃ e, (checkOptions (Ref l) h).1 = Throw e) ∧
     (only_mode key o → (checkOptions (Ref l) h).1 = Throw invalid_bytes)) ∧
  (∀ s n,
     o !! key = Some (Str s) → ToNumber (Str s) = Int n →
     only_mode key o →
     (1 ≤ n ≤ Num.MAX_SAFE_INTEGER → accepts l h o key n) ∧
     (n < 1 ∨ Num.MAX_SAFE_INTEGER < n →
      (checkOptions (Ref l) h).1 = Throw invalid_bytes)).
Proof.
  intros Hl Hkey.
  assert (key ∈ ["lines"; "bytes"; "line_bytes"]) as Hmode
    by (rewrite !elem_of_cons; tauto).
  split; [| split].
  - intros d U u m Hsize Hne Hd Hin Hu Hsafe Honly.
    by eapply checkOptions_accepts_unit.
  - intros s Hsize Hnan Hexec. split.
    + by eapply checkOptions_size_mismatch.
    + intros Honly. by eapply checkOptions_size_mismatch_only.
  - intros s n Hsize Hn Honly. split.
    + intros Hrange.
      by apply (checkOptions_accepts_number h l o key (Str s) n).
    + intros Hrange.
      rewrite (checkOptions_rejects_number h l o key (Str s) n) by done.
      by destruct Hkey as [-> | ->].
Qed.

Lemma size_strings_witness :
  (∃ record h' fields,
     checkOptions (Ref caller)
       (options_heap
          [("bytes", Str "20M"); ("prefix", Str "./out.");
           ("suffix_length", Number (Int 3));
           ("additional_suffix", Str ".bin")])
     = (Return record, h') ∧
     h' !! record = Some fields ∧
     fields !! "bytes" = Some (Number (Int 20971520))) ∧
  (checkOptions (Ref caller) (options_heap [("line_bytes", Str "1GB")])).1
  = Throw invalid_bytes ∧
  (∃ record h',
     checkOptions (Ref caller) (options_heap [("bytes", Str "12")])
     = (Return record, h') ∧
     h' !! record = Some {[ "bytes" := Number (Int 12) ]}).
Proof.
  assert (∀ key (o : gmap string prim),
            (∀ k, k ∈ ["lines"; "bytes"; "line_bytes"] → k ≠ key →
                  o !! k = None) →
            only_mode key o) as Honly.
  { intros key o Hnone k Hk Hne. by rewrite Hnone. }
  split; [| split].
  - destruct (size_strings
                (options_heap
                   [("bytes", Str "20M"); ("prefix", Str "./out.");
                    ("suffix_length", Number (Int 3));
                    ("additional_suffix", Str ".bin")])
                caller
                (list_to_map
                   [("bytes", Str "20M"); ("prefix", Str "./out.");
                    ("suffix_length", Number (Int 3));
                    ("additional_suffix", Str ".bin")])
                "bytes")
      as (Hunit & _ & _); [reflexivity | by left |].
    destruct (Hunit "20" "M" "M" 1048576) as (Hreturns & Hrecord & _).
    + reflexivity.
    + discriminate.
    + reflexivity.
    + unfold size_units. rewrite !elem_of_cons. auto.
    + by left.
    + vm_compute. discriminate.
    + apply Honly. intros k Hk Hne.
      repeat (apply elem_of_cons in Hk as [-> | Hk]); try done.
      by apply elem_of_nil in Hk.
    + destruct Hreturns as (record & h' & Hrun).
      { intros _. split; [right; exists 3 | left]; [| reflexivity].
        split; [reflexivity |]. unfold Num.MAX_SAFE_INTEGER. lia. }
      destruct (Hrecord record h' Hrun) as (fields & Hfields & Hcount & _).
      by exists record, h', fields.
  - destruct (size_strings (options_heap [("line_bytes", Str "1GB")])
                caller (list_to_map [("line_bytes", Str "1GB")]) "line_bytes")
      as (_ & Hmismatch & _); [reflexivity | by right |].
    destruct (Hmismatch "1GB") as [_ Hrejected]; [reflexivity .. |].
    apply Hrejected, Honly. intros k Hk Hne.
    repeat (apply elem_of_cons in Hk as [-> | Hk]); try done.
    by apply elem_of_nil in Hk.
  - destruct (size_strings (options_heap [("bytes", Str "12")])
                caller (list_to_map [("bytes", Str "12")]) "bytes")
      as (_ & _ & Hnumber); [reflexivity | by left |].
    destruct (Hnumber "12" 12) as [Haccepted _]; [reflexivity .. | |].
    { apply Honly. intros k Hk Hne.
      repeat (apply elem_of_cons in Hk as [-> | Hk]); try done.
      by apply elem_of_nil in Hk. }
    destruct Haccepted as (Hreturns & Hrecord & _);
      [unfold Num.MAX_SAFE_INTEGER; lia |].
    destruct Hreturns as (record & h' & Hrun);
      [intros Hprefix; vm_compute in Hprefix; discriminate |].
    destruct (Hrecord record h' Hrun) as (fields & Hfields & _ & Hsole).
    exists record, h'. split; [done |]. by rewrite Hfields, Hsole.
Defined.

(** C4, as stated, fails: when both writes of a two-piece call fail, the
    caller's callback is called twice with an error. *)
Lemma two_failures_two_notifications :
  (split [Byte.x61; LF; Byte.x62] (Ref caller)
     (options_heap [("lines", Number (Int 1)); ("prefix", Str "x")])).1
  = Return (WriteFiles [("xaa", [Byte.x61; LF]); ("xab", [Byte.x62])]
              [[Byte.x61; LF]; [Byte.x62]]) ∧
  notifications
    (WriteFiles [("xaa", [Byte.x61; LF]); ("xab", [Byte.x62])]
       [[Byte.x61; LF]; [Byte.x62]])
    [Some EIO; Some EIO]
  = [Failure EIO; Failure EIO].
Proof. split; vm_compute; reflexivity.
Qed.

(** C4, amended.  In every call of [split], as long as no more writes
    have completed than were issued, the callback has received at most one
    success, no success if it has received an error, and, when the files
    are written, one error for each failed write. *)
Theorem one_success_and_not_with_failure `{Coercions} (buffer : Buffer)
    (v : value) (h : heap) (s : scheduled)
    (completions : list (option Error)) :
  (split buffer v h).1 = Return s →
  (List.length completions ≤ writes s)%nat →
  (successes (notifications s completions) ≤ 1)%nat ∧
  ((0 < failures (notifications s completions))%nat →
   successes (notifications s completions) = 0%nat) ∧
  (∀ requests splitted,
     s = WriteFiles requests splitted →
     failures (notifications s completions) = failed completions).
Proof.
  intros Hrun Hlen. destruct s as [n | requests splitted]; simpl in *.
  - split; [| split].
    + unfold successes. simpl. case_match; simpl; lia.
    + unfold failures, successes. destruct n; simpl; lia.
    + intros ?? [=].
  - apply split_requests in Hrun as [filenames ->].
    rewrite length_zip in Hlen.
    split; [| split].
    + etrans; [apply successes_deliver_bound |]. simpl. case_match; lia.
    + rewrite failures_deliver. intros Hfailed.
      apply successes_deliver_failed; simpl; [lia | by right].
    + intros ?? _. apply failures_deliver.
Qed.

Lemma one_success_and_not_with_failure_witness :
  successes
    (notifications
       (WriteFiles [("xaa", [Byte.x61; LF]); ("xab", [Byte.x62])]
          [[Byte.x61; LF]; [Byte.x62]])
       [None; Some EIO])
  = 0%nat.
Proof.
  apply (one_success_and_not_with_failure [Byte.x61; LF; Byte.x62]
           (Ref caller)
           (options_heap [("lines", Number (Int 1)); ("prefix", Str "x")])
           (WriteFiles [("xaa", [Byte.x61; LF]); ("xab", [Byte.x62])]
              [[Byte.x61; LF]; [Byte.x62]])
           [None; Some EIO]).
  - vm_compute. reflexivity.
  - simpl. lia.
  - vm_compute. lia.
Defined.

(** C2.  The code at the failing input: a buffer of 677 lines, split by
    lines with the prefix ['x'] and no [suffix_length], gets a suffix
    length of 2, and the last piece is written to the file of the first. *)
Theorem filenames_collide :
  getSuffixLength 677 26 = Some 2 ∧
  (let s :=
     (split (repeat LF 677) (Ref caller)
        (options_heap [("lines", Number (Int 1)); ("prefix", Str "x")])).1 in
   (written_to s 0, written_to s 676))
  = (Some "xaa", Some "xaa").
Proof. repeat split; vm_compute; reflexivity. Qed.

(** C3.  The code at the failing input: for an empty buffer and options
    with a prefix, [split] issues no write, and with no write to complete
    the callback is never called. *)
Theorem empty_prefixed_split_never_notifies :
  (split [] (Ref caller)
     (options_heap [("lines", Number (Int 1)); ("prefix", Str "x")])).1
  = Return (WriteFiles [] []) ∧
  ∀ completions,
    (List.length completions ≤ writes (WriteFiles [] []))%nat →
    notifications (WriteFiles [] []) completions = [].
Proof.
  split; [vm_compute; reflexivity |].
  intros [| err completions] Hlen; [reflexivity | simpl in Hlen; lia].
Qed.

(** C5.  The code at the failing inputs: for 2 and for 11 items in radix
    10 the calculator returns 0 and 1, and neither [10^0 ≥ 2] nor
    [10^1 ≥ 11]; it does return 0 for 0 and for 1 items. *)
Theorem getSuffixLength_too_short :
  getSuffixLength 2 10 = Some 0 ∧ 10 ^ 0 < 2 ∧
  getSuffixLength 11 10 = Some 1 ∧ 10 ^ 1 < 11 ∧
  getSuffixLength 27 26 = Some 1 ∧ 26 ^ 1 < 27 ∧
  getSuffixLength 0 10 = Some 0 ∧ getSuffixLength 1 10 = Some 0 ∧
  getSuffixLength 0 26 = Some 0 ∧ getSuffixLength 1 26 = Some 0.
Proof. repeat split; reflexivity. Qed.

(** The same without a prefix: the record is changed by [splitSync],
    which names the pieces although it writes none. *)
Example splitSync_fills_suffix_length :
  (splitSync [Byte.x61] (Ref caller) []
     (options_heap [("lines", Number (Int 1))])).2
  !! 2%positive
  = Some {[ "lines" := Number (Int 1); "suffix_length" := Number (Int 2) ]}.
Proof. vm_compute. reflexivity. Qed.

(** A size string with the digits of zero validates to the count 0, for
    which [split] does not come back on a buffer that is not empty: the
    count [n ≥ 1] in the statements about the splitter cannot be
    dropped. *)
Example zero_size_diverges :
  (checkOptions (Ref caller) (options_heap [("bytes", Str "0K")])).2
  !! 2%positive = Some {[ "bytes" := Number (Int 0) ]} ∧
  (split [Byte.x61] (Ref caller) (options_heap [("bytes", Str "0K")])).1
  = Diverge.
Proof. split; vm_compute; reflexivity. Qed.

(** ** The scenarios of the specification *)

Example splitByLines_abc :
  splitByLines [Byte.x61; LF; Byte.x62; LF; Byte.x63; LF] 1
  = Some [[Byte.x61; LF]; [Byte.x62; LF]; [Byte.x63; LF]].
Proof. reflexivity. Qed.

Example splitByBytes_25 :
  fmap (map List.length) (splitByBytes (repeat Byte.x00 25) 10)
  = Some [10; 10; 5]%nat.
Proof. reflexivity. Qed.

Example alphabetic_names :
  ((options ← checkOptions (Ref caller); createFilenames 3 options)
     (options_heap [("lines", Number (Int 1)); ("prefix", Str "x")])).1
  = Return ["xaa"; "xab"; "xac"].
Proof. vm_compute. reflexivity. Qed.

Example numeric_names :
  ((options ← checkOptions (Ref caller); createFilenames 3 options)
     (options_heap [("bytes", Str "2KB"); ("prefix", Str "x");
                    ("numeric_suffixes", Number (Int 5))])).1
  = Return ["x05"; "x06"; "x07"].
Proof. vm_compute. reflexivity. Qed.

(** * Further properties *)

(** ** The splitter *)

Lemma is_LF_true c : Byte.eqb c LF = true → c = LF.
Proof. apply Byte.byte_dec_bl. Qed.

Lemma count_LF_snoc b c :
  count_LF (b ++ [c]) = count_LF b + (if Byte.eqb c LF then 1 else 0).
Proof.
  unfold count_LF. rewrite List.filter_app, length_app. simpl.
  destruct (Byte.eqb c LF); simpl; lia.
Qed.

Lemma count_LF_nonneg b : 0 ≤ count_LF b.
Proof. unfold count_LF. lia. Qed.

(** The bytes between [begin] and [index], as the loop of [splitByLines]
    has scanned them. *)
Lemma scanned_next (buffer : Buffer) (begin index : nat) :
  (begin ≤ index)%nat →
  take (S index - begin) (drop begin buffer)
  = take (index - begin) (drop begin buffer)
    ++ match buffer !! index with Some c => [c] | None => [] end.
Proof.
  intros Hle. replace (S index - begin)%nat with (S (index - begin)) by lia.
  destruct (buffer !! index) as [c |] eqn:Hc.
  - apply take_S_r. rewrite lookup_drop. rewrite <- Hc. f_equal. lia.
  - rewrite app_nil_r. apply lookup_ge_None in Hc.
    rewrite !take_ge; [done | |]; rewrite length_drop; lia.
Qed.

Lemma splitByLines_loop_lines fuel buffer lines :
  ∀ begin index lineCount splitted,
    0 ≤ begin → begin ≤ index → begin ≤ Buf.length buffer →
    index ≤ Buf.length buffer + 1 →
    Buf.length buffer + 2 - index ≤ Z.of_nat fuel →
    1 ≤ lineCount → lineCount ≤ lines →
    count_LF (take (Z.to_nat index - Z.to_nat begin)
                (drop (Z.to_nat begin) buffer)) = lineCount - 1 →
    Forall (full_piece lines) splitted →
    ∃ full rest,
      splitByLines_loop fuel buffer lines begin index lineCount splitted
      = Some (full ++ rest) ∧
      Forall (full_piece lines) full ∧
      (rest = [] ∨ ∃ p, rest = [p] ∧ count_LF p < lines).
Proof.
  induction fuel as [| fuel IH]; intros begin index lineCount splitted
    Hb Hbi Hbl Hil Hfuel Hc1 Hcn Hscan Hfull; [lia |].
  simpl.
  destruct (Z.eqb_spec begin (Buf.length buffer)) as [-> | Hneq].
  { exists splitted, []. rewrite app_nil_r. auto. }
  destruct (Z.ltb_spec (Buf.length buffer) index) as [Hend | Hin].
  { exists splitted, [Buf.slice_from buffer begin]. split; [done |].
    split; [done |]. right. eexists; split; [done |].
    rewrite slice_from_drop by lia.
    rewrite take_ge in Hscan; [lia |].
    rewrite length_drop. unfold Buf.length in *. lia. }
  assert (Hnext :
    take (Z.to_nat (index + 1) - Z.to_nat begin) (drop (Z.to_nat begin) buffer)
    = take (Z.to_nat index - Z.to_nat begin) (drop (Z.to_nat begin) buffer)
      ++ match Buf.get buffer index with Some c => [c] | None => [] end).
  { replace (Z.to_nat (index + 1)) with (S (Z.to_nat index)) by lia.
    rewrite scanned_next by lia. unfold Buf.get.
    by destruct (Z.ltb_spec index 0); [lia |]. }
  destruct (is_LF (Buf.get buffer index)) eqn:Hlf.
  - pose proof (is_LF_in_range buffer index ltac:(lia) Hlf) as Hrange.
    destruct (Buf.get buffer index) as [c |] eqn:Hget; [| discriminate].
    simpl in Hlf. pose proof (is_LF_true c Hlf) as ->.
    destruct (Z.eqb_spec lineCount lines) as [Heq | Hlt].
    + apply IH; try lia.
      * replace (Z.to_nat (index + 1) - Z.to_nat (index + 1))%nat
          with 0%nat by lia.
        reflexivity.
      * apply Forall_app; split; [done |]. apply Forall_singleton.
        rewrite slice_take_drop by lia.
        replace (Z.to_nat (index + 1 - begin))
          with (Z.to_nat (index + 1) - Z.to_nat begin)%nat by lia.
        rewrite Hnext. split; [| apply last_snoc].
        rewrite count_LF_snoc, Hscan. simpl. lia.
    + apply IH; try lia; [| done].
      rewrite Hnext, count_LF_snoc, Hscan. simpl. lia.
  - apply IH; try lia; [| done].
    rewrite Hnext.
    destruct (Buf.get buffer index) as [c |]; [| by rewrite app_nil_r].
    simpl in Hlf. rewrite count_LF_snoc, Hlf. lia.
Qed.

(** X1.  Split by [lines ≥ 1] lines, every piece holds [lines] line feeds
    and ends in one, except that the last piece may hold fewer. *)
Theorem splitByLines_line_count (buffer : Buffer) (lines : Z) :
  1 ≤ lines →
  ∃ pieces,
    splitByLines buffer lines = Some pieces ∧
    ∀ i p, pieces !! i = Some p →
      (count_LF p = lines ∧ last p = Some LF) ∨
      (count_LF p < lines ∧ S i = List.length pieces).
Proof.
  intros Hlines. unfold splitByLines.
  destruct (splitByLines_loop_lines (List.length buffer + 2) buffer lines
              0 0 1 []) as (full & rest & -> & Hfull & Hrest);
    try done; try (unfold Buf.length; lia).
  exists (full ++ rest). split; [done |]. intros i p Hp.
  apply lookup_app_Some in Hp as [Hp | [Hi Hp]].
  - left. apply list_elem_of_lookup_2 in Hp.
    exact (proj1 (Forall_forall _ _) Hfull p Hp).
  - destruct Hrest as [-> | (q & -> & Hq)]; [done |].
    destruct (i - List.length full)%nat eqn:Hd; [| done].
    simpl in Hp. injection Hp as <-. right. split; [done |].
    rewrite length_app. simpl. lia.
Qed.

Lemma splitByLines_line_count_witness :
  ∃ pieces,
    splitByLines [Byte.x61; LF; Byte.x62; LF; Byte.x63] 2 = Some pieces ∧
    ∀ i p, pieces !! i = Some p →
      (count_LF p = 2 ∧ last p = Some LF) ∨
      (count_LF p < 2 ∧ S i = List.length pieces).
Proof. apply splitByLines_line_count. lia. Defined.

(** ** The number of pieces *)

Lemma count_LF_app (a b : Buffer) : count_LF (a ++ b) = count_LF a + count_LF b.
Proof. unfold count_LF. rewrite List.filter_app, length_app. lia. Qed.

Lemma count_LF_full (lines : Z) (full : list Buffer) :
  Forall (full_piece lines) full →
  count_LF (concat full) = lines * Z.of_nat (List.length full).
Proof.
  induction 1 as [| p full [Hp _] _ IH]; simpl; [unfold count_LF; simpl; lia |].
  rewrite count_LF_app, IH, Hp. lia.
Qed.

Lemma last_full (lines : Z) (full : list Buffer) :
  Forall (full_piece lines) full → full ≠ [] →
  last (concat full) = Some LF.
Proof.
  induction 1 as [| p full [_ Hp] Hfull IH]; [done |]. intros _. simpl.
  rewrite last_app. destruct full as [| q full]; simpl.
  - by rewrite Hp.
  - simpl in IH. by rewrite IH.
Qed.

Lemma count_LF_last (p : Buffer) : last p = Some LF → 1 ≤ count_LF p.
Proof.
  intros Hlast. apply last_Some in Hlast as [q ->].
  rewrite count_LF_snoc. simpl. pose proof (count_LF_nonneg q). lia.
Qed.

Lemma ceil_div_next (n r b : Z) :
  1 ≤ r ≤ b → ceil_div (b * n + r) b = n + 1.
Proof.
  intros Hr. unfold ceil_div.
  rewrite <- (Z.div_unique (- (b * n + r)) b (- n - 1) (b - r)); lia.
Qed.

(** X2.  Split by [lines ≥ 1] lines, a buffer gives as many pieces as
    its number of lines divided by [lines], rounded up, where the bytes
    after the last line feed count as a line. *)
Theorem splitByLines_piece_count (buffer : Buffer) (lines : Z) :
  1 ≤ lines →
  ∃ pieces,
    splitByLines buffer lines = Some pieces ∧
    Z.of_nat (List.length pieces) = ceil_div (line_count buffer) lines.
Proof.
  intros Hlines.
  destruct (splitByLines_partitions buffer lines)
    as (pieces & Hrun & Hcat & Hne).
  exists pieces. split; [done |]. unfold splitByLines in Hrun.
  destruct (splitByLines_loop_lines (List.length buffer + 2) buffer lines
              0 0 1 []) as (full & rest & Hrun' & Hfull & Hrest);
    try done; try (unfold Buf.length; lia).
  rewrite Hrun in Hrun'. injection Hrun' as ->.
  pose proof (count_LF_full lines full Hfull) as Hcount.
  unfold line_count. rewrite <- Hcat, concat_app, count_LF_app, Hcount.
  rewrite length_app, Nat2Z.inj_add.
  destruct Hrest as [-> | (p & -> & Hp)].
  - change (count_LF (concat [])) with 0. rewrite app_nil_r, !Z.add_0_r.
    destruct full as [| q full].
    + simpl. rewrite Z.mul_0_r. unfold ceil_div. simpl.
      by rewrite Z.div_0_l by lia.
    + rewrite (last_full lines (q :: full) Hfull) by done.
      change (Byte.eqb LF LF) with true. cbv iota.
      change (Z.of_nat (List.length (@nil Buffer))) with 0.
      rewrite !Z.add_0_r, ceil_div_exact; [| lia |].
      * by rewrite (Z.mul_comm lines), Z.div_mul by lia.
      * rewrite (Z.mul_comm lines). apply Z.mod_mul. lia.
  - apply Forall_app in Hne as [_ Hne]. apply Forall_inv in Hne.
    simpl concat. rewrite app_nil_r, last_app.
    destruct (last p) as [c |] eqn:Hlast;
      [| apply last_None in Hlast; by destruct Hne].
    pose proof (count_LF_nonneg p). simpl List.length.
    destruct (Byte.eqb c LF) eqn:Hc.
    + apply is_LF_true in Hc as ->. apply count_LF_last in Hlast.
      rewrite Z.add_0_r, ceil_div_next; lia.
    + rewrite <- Z.add_assoc, ceil_div_next; lia.
Qed.

Lemma splitByLines_piece_count_witness :
  ∃ pieces,
    splitByLines [Byte.x61; LF; Byte.x62; LF; Byte.x63] 2 = Some pieces ∧
    Z.of_nat (List.length pieces)
    = ceil_div (line_count [Byte.x61; LF; Byte.x62; LF; Byte.x63]) 2.
Proof. apply splitByLines_piece_count. lia. Defined.

(** ** Splitting by bytes *)

Lemma splitByBytes_loop_stuck (buffer : Buffer) (size : Z) (fuel : nat)
    (begin stop : Z) (splitted : list Buffer) :
  buffer ≠ [] → size ≤ 0 → begin ≤ 0 → stop ≤ 0 →
  splitByBytes_loop fuel buffer size begin stop splitted = None.
Proof.
  intros Hne Hsize.
  assert (Hlen : 0 < Buf.length buffer).
  { unfold Buf.length. destruct buffer; [done | simpl; lia]. }
  revert begin stop splitted.
  induction fuel as [| fuel IH]; intros begin stop splitted Hb Hs; [done |].
  simpl.
  destruct (Z.eqb_spec begin (Buf.length buffer)); [lia |].
  destruct (Z.ltb_spec (Buf.length buffer) stop); [lia |].
  apply IH; lia.
Qed.

(** X3.  With a size of zero or less, the loop of [splitByBytes] never
    ends on a buffer that is not empty: no amount of fuel gives a
    result. *)
Theorem splitByBytes_never_returns (buffer : Buffer) (size : Z) (fuel : nat) :
  buffer ≠ [] → size ≤ 0 →
  splitByBytes_loop fuel buffer size 0 size [] = None.
Proof. intros Hne Hsize. by apply splitByBytes_loop_stuck. Qed.

Lemma splitByBytes_never_returns_witness :
  splitByBytes_loop 1000 [Byte.x61; Byte.x62] 0 0 0 [] = None.
Proof. apply splitByBytes_never_returns; [discriminate | lia]. Defined.

(** Pieces cut out of a line hold its line feed, if at all, at their
    end. *)
Lemma LF_only_last_concat (pieces : list Buffer) :
  LF_only_last (concat pieces) → Forall LF_only_last pieces.
Proof.
  induction pieces as [| p pieces IH]; [constructor |].
  simpl. intros Hline. constructor.
  - intros i Hi.
    pose proof (lookup_lt_Some _ _ _ Hi) as Hlt.
    specialize (Hline i). rewrite lookup_app_l in Hline by done.
    specialize (Hline Hi). rewrite length_app in Hline. lia.
  - apply IH. intros i Hi. specialize (Hline (List.length p + i)%nat).
    rewrite lookup_app_r in Hline by lia.
    replace (List.length p + i - List.length p)%nat with i in Hline by lia.
    specialize (Hline Hi). rewrite length_app in Hline. lia.
Qed.

Lemma count_LF_zero b i : count_LF b = 0 → b !! i ≠ Some LF.
Proof.
  unfold count_LF. revert i. induction b as [| c b IH]; intros i; [done |].
  simpl. destruct (Byte.eqb c LF) eqn:Hc; simpl; [lia |].
  intros Hcount. destruct i as [| i]; simpl.
  - intros [= ->]. vm_compute in Hc. discriminate.
  - apply IH. lia.
Qed.

Lemma full_piece_LF_only_last p : full_piece 1 p → LF_only_last p.
Proof.
  intros [Hcount Hlast]. apply last_Some in Hlast as [q ->].
  rewrite count_LF_snoc in Hcount. simpl in Hcount.
  intros i Hi. rewrite length_app. simpl.
  destruct (decide (i < List.length q)%nat) as [Hlt | Hge].
  - rewrite lookup_app_l in Hi by done.
    exfalso. eapply count_LF_zero; [| exact Hi]. lia.
  - apply lookup_lt_Some in Hi. rewrite length_app in Hi. simpl in Hi. lia.
Qed.

Lemma splitByLines_1_LF_only_last buffer :
  ∃ lines,
    splitByLines buffer 1 = Some lines ∧ concat lines = buffer ∧
    Forall LF_only_last lines.
Proof.
  destruct (splitByLines_partitions buffer 1) as (lines & Hrun & Hcat & _).
  exists lines. split; [done |]. split; [done |].
  unfold splitByLines in Hrun.
  destruct (splitByLines_loop_lines (List.length buffer + 2) buffer 1
              0 0 1 []) as (full & rest & Hrun' & Hfull & Hrest);
    try done; try (unfold Buf.length; lia).
  rewrite Hrun in Hrun'. injection Hrun' as ->.
  apply Forall_app. split.
  - eapply Forall_impl; [exact Hfull |]. apply full_piece_LF_only_last.
  - destruct Hrest as [-> | (p & -> & Hp)]; [constructor |].
    apply Forall_singleton. intros i Hi. exfalso.
    eapply count_LF_zero; [| exact Hi]. pose proof (count_LF_nonneg p). lia.
Qed.

Lemma chunked_bounded buffer size pieces :
  1 ≤ size → chunked buffer size pieces →
  Forall (fun p => Buf.length p ≤ size) pieces.
Proof.
  intros Hsize (full & rest & -> & Hfull & _ & Hrest).
  apply Forall_app; split.
  - eapply Forall_impl; [exact Hfull |]. intros p Hp. simpl in Hp. lia.
  - destruct Hrest as [[_ ->] | [Hmod (r & -> & Hr)]]; [constructor |].
    apply Forall_singleton.
    pose proof (Z.mod_pos_bound (Buf.length buffer) size). lia.
Qed.

Lemma flat_map_opt_Forall {A B} (f : A → option (list B)) (P : A → Prop)
    (Q : B → Prop) l :
  (∀ x, P x → ∃ ys, f x = Some ys ∧ Forall Q ys) →
  Forall P l → ∃ ys, flat_map_opt f l = Some ys ∧ Forall Q ys.
Proof.
  intros Hf. induction 1 as [| x l Hx Hl IH]; simpl.
  - exists []. by split.
  - destruct (Hf x Hx) as (ys & -> & Hys). destruct IH as (yss & -> & Hyss).
    exists (ys ++ yss). split; [done |]. by apply Forall_app.
Qed.

(** X4.  Split by [k ≥ 1] bytes per line, no piece is longer than [k]
    bytes and no piece runs over the end of a line: a line feed is the last
    byte of the piece that holds it. *)
Theorem splitByLineBytes_pieces (buffer : Buffer) (k : Z) :
  1 ≤ k →
  ∃ pieces,
    splitByLineBytes buffer k = Some pieces ∧
    Forall (fun p => Buf.length p ≤ k ∧ LF_only_last p) pieces.
Proof.
  intros Hk. unfold splitByLineBytes.
  destruct (splitByLines_1_LF_only_last buffer) as (lines & -> & _ & Hlines).
  eapply flat_map_opt_Forall; [| exact Hlines].
  intros line Hline. simpl in Hline.
  destruct (splitByBytes_spec line k Hk) as (pieces & -> & Hcat & Hshape).
  exists pieces. split; [done |].
  apply Forall_and. split; [by eapply chunked_bounded |].
  apply LF_only_last_concat. by rewrite Hcat.
Qed.

Lemma splitByLineBytes_pieces_witness :
  ∃ pieces,
    splitByLineBytes [Byte.x61; Byte.x62; Byte.x63; LF; Byte.x64] 2
    = Some pieces ∧
    Forall (fun p => Buf.length p ≤ 2 ∧ LF_only_last p) pieces.
Proof. apply splitByLineBytes_pieces. lia. Defined.

(** ** The option validator *)

Section validator.
Context `{Coercions}.

(** X5.  [checkOptions] throws a [TypeError] for options that are not an
    object, the error [Splitting way is not specified] when none of
    [lines], [bytes] and [line_bytes] is defined, and the error
    [Cannot split in more than one way] when two of them are, whatever
    their values and the other options. *)
Theorem checkOptions_mode_errors (h : heap) (l : loc) (o : gmap string prim) :
  h !! l = Some o →
  (∀ p, (checkOptions (Prim p) h).1
        = Throw (TypeError "Options must be an object")) ∧
  ((∀ k, k ∈ mode_keys → defined (o !! k) = false) →
   (checkOptions (Ref l) h).1
   = Throw (PlainError "Splitting way is not specified")) ∧
  (∀ k1 k2, k1 ∈ mode_keys → k2 ∈ mode_keys → k1 ≠ k2 →
     defined (o !! k1) = true → defined (o !! k2) = true →
     (checkOptions (Ref l) h).1
     = Throw (PlainError "Cannot split in more than one way")).
Proof.
  intros Hl. pose proof (fresh_not_allocated h l o Hl) as Hfresh.
  split; [done |]. split.
  - intros Hnone.
    pose proof (Hnone "lines" ltac:(set_solver)) as Hlines.
    pose proof (Hnone "bytes" ltac:(set_solver)) as Hbytes.
    pose proof (Hnone "line_bytes" ltac:(set_solver)) as Hlb.
    change (wp (checkOptions (Ref l))
              (fun res _ =>
                 res = Throw (PlainError "Splitting way is not specified")) h).
    unfold checkOptions. apply wp_bind, wp_new_object.
    by repeat wp_step.
  - intros k1 k2 Hk1 Hk2 Hne H1 H2.
    change (wp (checkOptions (Ref l))
              (fun res _ =>
                 res = Throw (PlainError "Cannot split in more than one way"))
              h).
    unfold checkOptions. apply wp_bind, wp_new_object.
    unfold mode_keys in Hk1, Hk2.
    repeat (apply elem_of_cons in Hk1 as [-> | Hk1]);
      [ | | | by apply elem_of_nil in Hk1];
      (repeat (apply elem_of_cons in Hk2 as [-> | Hk2]);
       [ | | | by apply elem_of_nil in Hk2]);
      try done; by repeat wp_step.
Qed.
End validator.

Lemma checkOptions_mode_errors_witness :
  (checkOptions (Ref caller)
     (options_heap [("lines", Str "x"); ("bytes", Number (Int 5))])).1
  = Throw (PlainError "Cannot split in more than one way").
Proof.
  destruct (checkOptions_mode_errors
              (options_heap [("lines", Str "x"); ("bytes", Number (Int 5))])
              caller
              (list_to_map [("lines", Str "x"); ("bytes", Number (Int 5))]))
    as (_ & _ & Hconflict); [reflexivity |].
  apply (Hconflict "lines" "bytes"); [set_solver | set_solver | done | | ];
    reflexivity.
Defined.

Lemma round_to_double_nonneg z : 0 ≤ z → 0 ≤ round_to_double z.
Proof.
  intros Hz. unfold round_to_double.
  destruct (Z.ltb_spec (Z.abs z) (2 ^ 53)); [done |].
  cbv zeta.
  set (e := Z.log2 (Z.abs z) - 52).
  assert (0 ≤ Z.abs z / 2 ^ e) by (apply Z.div_pos; [lia | apply Z.pow_pos_nonneg; [lia |]];
    unfold e; assert (53 ≤ Z.log2 (Z.abs z)) by (apply Z.log2_le_pow2; lia); lia).
  assert (0 ≤ 2 ^ e) by (apply Z.pow_nonneg; lia).
  destruct (_ || _); nia.
Qed.

Lemma span_digits_all_digits s d u :
  span_digits s = (d, u) → all_digits d = true.
Proof.
  revert d u. induction s as [| c s IH]; simpl; intros d u.
  - by intros [= <- <-].
  - destruct (is_digit c) eqn:Hc.
    + destruct (span_digits s) as [d' rest]. intros [= <- <-].
      simpl. by rewrite Hc, (IH d' rest).
    + by intros [= <- <-].
Qed.

Lemma selects_of_bounded (record : gmap string prim) k n least :
  k ∈ mode_keys →
  record !! k = Some (Number n) →
  (∃ z, n = Int z ∧ least ≤ z ≤ Num.MAX_SAFE_INTEGER) →
  0 ≤ least → (k = "lines" → 1 ≤ least) →
  (∀ k', k' ∈ mode_keys → k' ≠ k → record !! k' = None) →
  ∃ m, selects record m ∧ 0 ≤ mode_count m ≤ Num.MAX_SAFE_INTEGER ∧
       (mode_key m = "lines" → 1 ≤ mode_count m).
Proof.
  intros Hk Hn (z & -> & Hz) Hleast Hlines Hothers. unfold mode_keys in Hk.
  repeat (apply elem_of_cons in Hk as [-> | Hk]);
    [ exists (ByLines z) | exists (ByBytes z) | exists (ByLineBytes z) | ];
    [ (split; [by split |]; simpl; split; [lia |]; intros Heq;
       first [ specialize (Hlines Heq); lia | discriminate ]) .. |].
  by apply elem_of_nil in Hk.
Qed.

Section record.
Context `{Coercions}.

Lemma validated_number v least :
  isSafe v = true → less v least = false →
  ∃ z, Math_floor v = Int z ∧ least ≤ z ≤ Num.MAX_SAFE_INTEGER.
Proof.
  unfold isSafe, less, Math_floor. destruct (ToNumber v) as [| z]; [done |].
  simpl. intros Hsafe Hless. exists z. split; [done |]. lia.
Qed.

Lemma validated_product s d u :
  size_pattern_exec s = Some (d, u) →
  isSafe (Number (Num.mul (ToNumber (Str d))
                          (ToNumber (unit_value (unit_of u))))) = true →
  ∃ z, Num.mul (ToNumber (Str d)) (ToNumber (unit_value (unit_of u))) = Int z
       ∧ 0 ≤ z ≤ Num.MAX_SAFE_INTEGER.
Proof.
  unfold size_pattern_exec. destruct (span_digits s) as [d' u'] eqn:Hspan.
  destruct (_ && _) eqn:Hok; [| done]. intros [= -> ->].
  apply andb_true_iff in Hok as [Hne _].
  assert (d ≠ EmptyString) as Hd
    by (by destruct (String.eqb_spec d EmptyString)).
  rewrite (ToNumber_digits d Hd (span_digits_all_digits _ _ _ Hspan)).
  pose proof (decimal_nonneg d (span_digits_all_digits _ _ _ Hspan)) as Hdec.
  apply round_to_double_nonneg in Hdec.
  assert (∀ m, unit_of u = Some m → 0 ≤ m) as Hunit.
  { unfold unit_of. intros m. repeat destruct (_ || _); intros [= <-]; lia. }
  destruct (unit_of u) as [m |]; [| done]. specialize (Hunit m eq_refl).
  unfold isSafe. simpl. intros Hsafe. eexists. split; [done |].
  split; [apply round_to_double_nonneg; nia | lia].
Qed.

Ltac other_keys_absent :=
  let k := fresh "k" in
  let Hin := fresh "Hin" in
  let Hne := fresh "Hne" in
  intros k Hin Hne; unfold mode_keys in Hin;
  repeat (apply elem_of_cons in Hin as [-> | Hin];
          [first [ done
                 | rewrite !lookup_insert_ne by done; apply lookup_empty ] |]);
  by apply elem_of_nil in Hin.

Ltac selects_bounded k :=
  solve
    [ eapply (selects_of_bounded _ k);
      [ unfold mode_keys; set_solver
      | rewrite ?lookup_insert_ne by done; apply lookup_insert_eq
      | first [ eapply validated_number; eassumption
              | eapply validated_product; eassumption ]
      | lia
      | first [ discriminate | lia ]
      | other_keys_absent ] ].

Ltac optional_field :=
  first
    [ left; rewrite !lookup_insert_ne by done; apply lookup_empty
    | right; rewrite ?lookup_insert_ne by done; rewrite lookup_insert_eq;
      lazymatch goal with
      | |- ∃ n, Some (Number (Math_floor ?v)) = _ ∧ ?least ≤ _ ≤ _ =>
          let z := fresh "z" in
          destruct (validated_number v least) as (z & -> & ?);
          [assumption .. |]; by exists z
      end ].

Ltac names :=
  lazymatch goal with
  | |- names_no_files _ =>
      let k := fresh "k" in
      let Hin := fresh "Hin" in
      intros k Hin; unfold naming_keys in Hin;
      repeat (apply elem_of_cons in Hin as [-> | Hin];
              [rewrite !lookup_insert_ne by done; apply lookup_empty |]);
      by apply elem_of_nil in Hin
  | |- names_files _ =>
      split; [| split; [| split]];
      [ eexists; rewrite ?lookup_insert_ne by done; apply lookup_insert_eq
      | eexists; rewrite ?lookup_insert_ne by done; apply lookup_insert_eq
      | optional_field
      | optional_field ]
  end.

(** The record that validation leaves. *)
Lemma checkOptions_validated (h : heap) (l : loc) (o : gmap string prim) :
  h !! l = Some o →
  wp (checkOptions (Ref l))
    (fun res h' => ∀ r, res = Return r →
       ∃ record,
         h' !! r = Some record ∧
         (∃ m, selects record m ∧
            0 ≤ mode_count m ≤ Num.MAX_SAFE_INTEGER ∧
            (mode_key m = "lines" → 1 ≤ mode_count m)) ∧
         if defined (o !! "prefix") then names_files record
         else names_no_files record) h.
Proof.
  intros Hl.
  pose proof (fresh_not_allocated h l o Hl) as Hfresh.
  unfold checkOptions. apply wp_bind, wp_new_object.
  repeat wp_step.
  all: try (intros ? [=]; fail).
  all: intros ? [= <-]; eexists; split;
    [ rewrite !lookup_alter_eq, lookup_insert_eq; reflexivity |].
  all: split;
    [ first [ selects_bounded "lines" | selects_bounded "bytes"
            | selects_bounded "line_bytes" ]
    | names ].
Qed.

(** X6.  The record that [checkOptions] returns selects one way of
    splitting with a safe integer count that is not negative, and at
    least 1 for [lines].  When the caller defines no [prefix] the record
    holds none of the naming fields; when it does, [prefix] and
    [additional_suffix] are strings, [suffix_length] is absent or a safe
    integer of at least 1, and [numeric_suffixes] is absent or a safe
    integer of at least 0. *)
Theorem checkOptions_record (h : heap) (l : loc) (o : gmap string prim)
    (r : loc) (h' : heap) :
  h !! l = Some o →
  checkOptions (Ref l) h = (Return r, h') →
  ∃ record m,
    h' !! r = Some record ∧ selects record m ∧
    0 ≤ mode_count m ≤ Num.MAX_SAFE_INTEGER ∧
    (mode_key m = "lines" → 1 ≤ mode_count m) ∧
    if defined (o !! "prefix") then names_files record
    else names_no_files record.
Proof.
  intros Hl Hrun.
  pose proof (checkOptions_validated h l o Hl) as Hwp.
  unfold wp in Hwp. rewrite Hrun in Hwp.
  destruct (Hwp r eq_refl) as (record & Hr & (m & Hm) & Hnames).
  exists record, m. tauto.
Qed.
End record.

Lemma checkOptions_record_witness :
  ∃ record m,
    (checkOptions (Ref caller)
       (options_heap [("bytes", Str "2K"); ("prefix", Number (Int 7))])).2
    !! 2%positive = Some record ∧
    selects record m ∧
    0 ≤ mode_count m ≤ Num.MAX_SAFE_INTEGER ∧
    (mode_key m = "lines" → 1 ≤ mode_count m) ∧
    names_files record.
Proof.
  assert ((checkOptions (Ref caller)
             (options_heap
                [("bytes", Str "2K"); ("prefix", Number (Int 7))])).1
          = Return 2%positive) as Hrun by (vm_compute; reflexivity).
  destruct (checkOptions (Ref caller) _) as [res h'] eqn:Hcall.
  simpl in Hrun. rewrite Hrun in Hcall.
  destruct (checkOptions_record
              (options_heap [("bytes", Str "2K"); ("prefix", Number (Int 7))])
              caller
              (list_to_map [("bytes", Str "2K"); ("prefix", Number (Int 7))])
              2%positive h' eq_refl Hcall)
    as (record & m & Hrecord & Hm & Hcount & Hlines & Hnames).
  exists record, m. split; [exact Hrecord |]. split; [exact Hm |].
  split; [exact Hcount |]. split; [exact Hlines |]. exact Hnames.
Defined.

(** ** The counts *)

Section counts.
Context `{Coercions}.

(** X7.  A count that converts to the integer [n], given for one way
    of splitting and none of the others, is accepted when
    [1 ≤ n ≤ 2^53 - 1]: validation returns whenever the naming options
    are valid, a record it returns holds [n] as the count, and nothing
    else when there is no [prefix], and it throws no error but those of
    the naming options.  Otherwise the count is rejected with
    [Invalid number of lines] or [Invalid number of bytes], whatever the
    other options are. *)
Theorem checkOptions_count (h : heap) (l : loc) (o : gmap string prim)
    (key : string) (v : prim) (n : Z) :
  h !! l = Some o →
  key ∈ mode_keys →
  (∀ k, k ∈ mode_keys → k ≠ key → defined (o !! k) = false) →
  o !! key = Some v → defined (Some v) = true → ToNumber v = Int n →
  (1 ≤ n ≤ Num.MAX_SAFE_INTEGER → accepts l h o key n) ∧
  (n < 1 ∨ Num.MAX_SAFE_INTEGER < n →
   (checkOptions (Ref l) h).1 = Throw (invalid_count key)).
Proof.
  intros Hl Hkey Hothers Hv Hdefined Hn. split; intros Hrange.
  - by apply (checkOptions_accepts_number h l o key v n).
  - by apply (checkOptions_rejects_number h l o key v n).
Qed.
End counts.

Lemma checkOptions_count_witness :
  (∃ record h' fields,
     checkOptions (Ref caller)
       (options_heap [("lines", Str "3"); ("prefix", Str "x")])
     = (Return record, h') ∧
     h' !! record = Some fields ∧
     fields !! "lines" = Some (Number (Int 3))) ∧
  (checkOptions (Ref caller)
     (options_heap [("lines", Number (Int 0)); ("prefix", Str "x")])).1
  = Throw (PlainError "Invalid number of lines").
Proof.
  assert (∀ (o : gmap string prim),
            o !! "bytes" = None → o !! "line_bytes" = None →
            ∀ k, k ∈ mode_keys → k ≠ "lines" → defined (o !! k) = false)
    as Honly.
  { intros o Hbytes Hlb k Hk Hne. unfold mode_keys in Hk.
    repeat (apply elem_of_cons in Hk as [-> | Hk]); try done;
      [by rewrite Hbytes | by rewrite Hlb | by apply elem_of_nil in Hk]. }
  split.
  - destruct (checkOptions_count
                (options_heap [("lines", Str "3"); ("prefix", Str "x")])
                caller
                (list_to_map [("lines", Str "3"); ("prefix", Str "x")])
                "lines" (Str "3") 3) as [Haccepted _].
    + reflexivity.
    + unfold mode_keys. rewrite !elem_of_cons. auto.
    + by apply Honly.
    + reflexivity.
    + reflexivity.
    + reflexivity.
    + destruct Haccepted as (Hreturns & Hrecord & _);
        [unfold Num.MAX_SAFE_INTEGER; lia |].
      destruct Hreturns as (record & h' & Hrun);
        [intros _; split; left; reflexivity |].
      destruct (Hrecord record h' Hrun) as (fields & Hfields & Hcount & _).
      by exists record, h', fields.
  - destruct (checkOptions_count
                (options_heap [("lines", Number (Int 0)); ("prefix", Str "x")])
                caller
                (list_to_map [("lines", Number (Int 0)); ("prefix", Str "x")])
                "lines" (Number (Int 0)) 0) as [_ Hrejected].
    + reflexivity.
    + unfold mode_keys. rewrite !elem_of_cons. auto.
    + by apply Honly.
    + reflexivity.
    + reflexivity.
    + reflexivity.
    + apply Hrejected. lia.
Defined.

Section naming.
Context `{Coercions}.

Lemma out_of_range_test (v : prim) (least : Z) :
  Num.MIN_SAFE_INTEGER ≤ least →
  (out_of_range v least ↔ isSafe v = false ∨ less v least = true).
Proof.
  intros Hleast. unfold out_of_range, isSafe, less.
  destruct (ToNumber v) as [| n]; simpl; [tauto |].
  unfold Num.MAX_SAFE_INTEGER, Num.MIN_SAFE_INTEGER in *.
  rewrite andb_false_iff, !Z.leb_gt, Z.ltb_lt. lia.
Qed.

(** X8.  With a valid count and a [prefix], a [suffix_length] that
    does not convert to a safe integer of at least 1 is rejected with
    [Invalid suffix length], and after a [suffix_length] that is absent
    or valid, a [numeric_suffixes] that does not convert to a safe
    integer of at least 0 is rejected with the error of the empty
    message. *)
Theorem checkOptions_naming_errors (h : heap) (l : loc)
    (o : gmap string prim) (key : string) (v : prim) (n : Z) :
  h !! l = Some o →
  key ∈ mode_keys →
  (∀ k, k ∈ mode_keys → k ≠ key → defined (o !! k) = false) →
  o !! key = Some v → defined (Some v) = true → ToNumber v = Int n →
  1 ≤ n ≤ Num.MAX_SAFE_INTEGER →
  defined (o !! "prefix") = true →
  (∀ length,
     o !! "suffix_length" = Some length → defined (Some length) = true →
     out_of_range length 1 →
     (checkOptions (Ref l) h).1
     = Throw (PlainError "Invalid suffix length")) ∧
  (∀ start,
     o !! "numeric_suffixes" = Some start → defined (Some start) = true →
     out_of_range start 0 →
     (defined (o !! "suffix_length") = false ∨
      ∃ length, o !! "suffix_length" = Some length ∧
                ¬ out_of_range length 1) →
     (checkOptions (Ref l) h).1 = Throw (PlainError EmptyString)).
Proof.
  intros Hl Hkey Hothers Hv Hdefined Hn Hrange Hprefix.
  pose proof (fresh_not_allocated h l o Hl) as Hfresh.
  assert (defined (o !! key) = true) as Hdef by (by rewrite Hv).
  assert (isNaN v = false) as Hnan by (unfold isNaN; by rewrite Hn).
  assert (isSafe v = true) as Hsafe.
  { unfold isSafe. rewrite Hn. unfold Num.le.
    unfold Num.MAX_SAFE_INTEGER, Num.MIN_SAFE_INTEGER in *.
    apply andb_true_iff. split; apply Z.leb_le; lia. }
  assert (less v 1 = false) as Hless.
  { unfold less. rewrite Hn. unfold Num.lt. apply Z.ltb_ge. lia. }
  assert (∀ k, k ≠ key →
            k = "lines" ∨ k = "bytes" ∨ k = "line_bytes" →
            defined (o !! k) = false) as Hother.
  { intros k Hne Hk. apply Hothers; [| done].
    unfold mode_keys. rewrite !elem_of_cons. tauto. }
  unfold mode_keys in Hkey. split.
  - intros length Hlength Hdl Hbad.
    assert (defined (o !! "suffix_length") = true) as Hdl'
      by (by rewrite Hlength).
    apply out_of_range_test in Hbad;
      [| unfold Num.MIN_SAFE_INTEGER; lia].
    change (wp (checkOptions (Ref l))
              (fun res _ => res = Throw (PlainError "Invalid suffix length"))
              h).
    unfold checkOptions. apply wp_bind, wp_new_object.
    repeat (apply elem_of_cons in Hkey as [-> | Hkey]);
      [ | | | by apply elem_of_nil in Hkey].
    + pose proof (Hother "bytes" ltac:(done) ltac:(auto)) as Hbytes.
      pose proof (Hother "line_bytes" ltac:(done) ltac:(auto)) as Hlb.
      destruct Hbad as [Hbad | Hbad]; by repeat wp_step.
    + pose proof (Hother "lines" ltac:(done) ltac:(auto)) as Hlines.
      pose proof (Hother "line_bytes" ltac:(done) ltac:(auto)) as Hlb.
      destruct Hbad as [Hbad | Hbad]; by repeat wp_step.
    + pose proof (Hother "lines" ltac:(done) ltac:(auto)) as Hlines.
      pose proof (Hother "bytes" ltac:(done) ltac:(auto)) as Hbytes.
      destruct Hbad as [Hbad | Hbad]; by repeat wp_step.
  - intros start Hstart Hds Hbad Hlength.
    assert (defined (o !! "numeric_suffixes") = true) as Hds'
      by (by rewrite Hstart).
    apply out_of_range_test in Hbad;
      [| unfold Num.MIN_SAFE_INTEGER; lia].
    assert (defined (o !! "suffix_length") = false ∨
            ∃ length, o !! "suffix_length" = Some length ∧
                      isSafe length = true ∧ less length 1 = false)
      as Hlength'.
    { destruct Hlength as [Hdl | (length & Hlength & Hgood)]; [by left |].
      right. exists length. split; [done |].
      rewrite out_of_range_test in Hgood
        by (unfold Num.MIN_SAFE_INTEGER; lia).
      destruct (isSafe length), (less length 1); tauto. }
    change (wp (checkOptions (Ref l))
              (fun res _ => res = Throw (PlainError EmptyString)) h).
    unfold checkOptions. apply wp_bind, wp_new_object.
    repeat (apply elem_of_cons in Hkey as [-> | Hkey]);
      [ | | | by apply elem_of_nil in Hkey].
    + pose proof (Hother "bytes" ltac:(done) ltac:(auto)) as Hbytes.
      pose proof (Hother "line_bytes" ltac:(done) ltac:(auto)) as Hlb.
      destruct Hlength' as [Hdl | (length & Hlength' & Hsl & Hll)],
               Hbad as [Hbad | Hbad]; by repeat wp_step.
    + pose proof (Hother "lines" ltac:(done) ltac:(auto)) as Hlines.
      pose proof (Hother "line_bytes" ltac:(done) ltac:(auto)) as Hlb.
      destruct Hlength' as [Hdl | (length & Hlength' & Hsl & Hll)],
               Hbad as [Hbad | Hbad]; by repeat wp_step.
    + pose proof (Hother "lines" ltac:(done) ltac:(auto)) as Hlines.
      pose proof (Hother "bytes" ltac:(done) ltac:(auto)) as Hbytes.
      destruct Hlength' as [Hdl | (length & Hlength' & Hsl & Hll)],
               Hbad as [Hbad | Hbad]; by repeat wp_step.
Qed.
End naming.

Lemma checkOptions_naming_errors_witness :
  (checkOptions (Ref caller)
     (options_heap
        [("lines", Number (Int 1)); ("prefix", Str "x");
         ("suffix_length", Number (Int 0))])).1
  = Throw (PlainError "Invalid suffix length").
Proof.
  destruct (checkOptions_naming_errors
              (options_heap
                 [("lines", Number (Int 1)); ("prefix", Str "x");
                  ("suffix_length", Number (Int 0))])
              caller
              (list_to_map
                 [("lines", Number (Int 1)); ("prefix", Str "x");
                  ("suffix_length", Number (Int 0))])
              "lines" (Number (Int 1)) 1) as [Hlength _].
  - reflexivity.
  - unfold mode_keys. rewrite !elem_of_cons. auto.
  - intros k Hk Hne. unfold mode_keys in Hk.
    repeat (apply elem_of_cons in Hk as [-> | Hk]); try done.
    by apply elem_of_nil in Hk.
  - reflexivity.
  - reflexivity.
  - reflexivity.
  - unfold Num.MAX_SAFE_INTEGER. lia.
  - reflexivity.
  - apply (Hlength (Number (Int 0))); [reflexivity | reflexivity |].
    unfold out_of_range. simpl. lia.
Defined.

(** ** The suffix length *)

(** X9.  For a radix of at least 2, [getSuffixLength] returns, for a
    count [N ≥ 1], the [L] with [R^L ≤ N < R^(L+1)], which is one less
    than the number of digits of [N], and 0 for the count 0. *)
Theorem getSuffixLength_floor_log (length symbolLength : Z) :
  2 ≤ symbolLength → 0 ≤ length →
  ∃ digits,
    getSuffixLength length symbolLength = Some digits ∧
    0 ≤ digits ∧
    (length = 0 → digits = 0) ∧
    (1 ≤ length →
     symbolLength ^ digits ≤ length < symbolLength ^ (digits + 1)).
Proof. apply getSuffixLength_spec. Qed.

Lemma getSuffixLength_floor_log_witness :
  ∃ digits,
    getSuffixLength 676 26 = Some digits ∧
    0 ≤ digits ∧
    (676 = 0 → digits = 0) ∧
    (1 ≤ 676 → 26 ^ digits ≤ 676 < 26 ^ (digits + 1)).
Proof. apply getSuffixLength_floor_log; lia. Defined.

(** ** The file names *)

Lemma String_length_append (s1 s2 : string) :
  String.length (s1 +:+ s2) = (String.length s1 + String.length s2)%nat.
Proof. induction s1 as [| c s1 IH]; simpl; [done | by rewrite IH]. Qed.

Lemma String_length_substring (n m : nat) (s : string) :
  (n + m ≤ String.length s)%nat → String.length (String.substring n m s) = m.
Proof.
  revert n m. induction s as [| c s IH]; intros n m Hlen; simpl in *.
  - destruct n, m; simpl in *; lia.
  - destruct n as [| n].
    + destruct m as [| m]; [done |]. simpl. rewrite IH; [done | lia].
    + apply IH. lia.
Qed.

Lemma String_append_empty (s : string) : s +:+ EmptyString = s.
Proof.
  induction s as [| c s IH]; [done |].
  change (String c (s +:+ EmptyString) = String c s). by rewrite IH.
Qed.

Lemma join_cons (x : string) (xs : list string) :
  join (x :: xs) = x +:+ join xs.
Proof.
  unfold join. destruct xs as [| y xs]; simpl.
  - by rewrite String_append_empty.
  - reflexivity.
Qed.

Lemma String_length_join_repeat (c : string) (n : nat) :
  String.length (join (repeat c n)) = (n * String.length c)%nat.
Proof.
  induction n as [| n IH]; [done |].
  simpl repeat. rewrite join_cons, String_length_append, IH. lia.
Qed.

(** [slice(-L)] of a string of at least [L ≥ 1] characters has [L]
    characters. *)
Lemma String_slice_length (s : string) (L : Z) :
  1 ≤ L ≤ Z.of_nat (String.length s) →
  Z.of_nat (String.length (String_slice s (Num.neg (Int L)))) = L.
Proof.
  intros HL. unfold String_slice. simpl.
  destruct (Z.ltb_spec (- L) 0); [| lia].
  rewrite String_length_substring; lia.
Qed.

Lemma wp_terminates {A} (r : option A) (Q : outcome A → heap → Prop) h :
  match r with Some a => Q (Return a) h | None => Q Diverge h end →
  wp (terminates r) Q h.
Proof. by destruct r. Qed.

Lemma wp_replicate (length : number) (value : string)
    (Q : outcome (list string) → heap → Prop) h :
  (∀ n, length = Int n → 0 ≤ n →
        Q (Return (repeat value (Z.to_nat n))) h) →
  Q (Throw (RangeError "Invalid array length")) h →
  wp (replicate length value) Q h.
Proof.
  intros Hret Hthrow. unfold wp, replicate.
  destruct length as [| n]; [apply Hthrow |].
  destruct (_ && _) eqn:Hn; [| apply Hthrow].
  apply Hret; [done |]. apply andb_true_iff in Hn as [Hn _]. lia.
Qed.

Lemma lookup_alter_object (h : heap) (l : loc) (o : gmap string prim) f :
  h !! l = Some o → alter f l h !! l = Some (f o).
Proof. intros Hl. by rewrite lookup_alter_eq, Hl. Qed.

(** Steps through [createFilenames], which reads the record it has
    assigned to. *)
Ltac names_step :=
  first
    [ wp_step
    | lazymatch goal with
      | |- wp (terminates ?r) _ _ => apply wp_terminates; destruct r eqn:?
      | |- wp (replicate _ _) _ _ => apply wp_replicate; [intros ? ? ? |]
      | |- wp (get_property _ _) _ (alter _ _ _) =>
          eapply wp_get_property;
          [ apply lookup_alter_object; eassumption |];
          rewrite ?lookup_insert_eq, ?lookup_insert_ne by done;
          try match goal with
              | H : ?o !! ?k = _ |- context [?o !! ?k] => rewrite H
              end
      end ].

Section names.
Context `{Coercions}.

Lemma slice_of_padded (c text : string) (L n : Z) :
  String.length c = 1%nat → 1 ≤ L → Int L = Int n →
  Z.of_nat (String.length
              (String_slice (join (repeat c (Z.to_nat n)) +:+ text)
                 (Num.neg (Int L)))) = L.
Proof.
  intros Hc HL [= <-]. apply String_slice_length.
  rewrite String_length_append, String_length_join_repeat, Hc. lia.
Qed.

(** One name for each piece, each with a suffix of the recorded
    length. *)
Lemma createFilenames_named (size : Z) (options : loc) (h : heap)
    (o : gmap string prim) (p a : string) :
  h !! options = Some o →
  o !! "prefix" = Some (Str p) → o !! "additional_suffix" = Some (Str a) →
  optional_count (o !! "suffix_length") 1 →
  optional_count (o !! "numeric_suffixes") 0 →
  0 ≤ size →
  wp (createFilenames size options)
    (fun res h' => ∀ names, res = Return names →
       ∃ length,
         h' !! options ≫= (.!! "suffix_length")
         = Some (Number (Int length)) ∧
         1 ≤ length ∧ named_with p a length size names) h.
Proof.
  intros Hl Hp Ha Hlen Hnum Hsize.
  unfold createFilenames.
  destruct Hnum as [Hnum | (s & Hnum & Hs)],
           Hlen as [Hlen | (L & Hlen & HL)].
  all: pose proof (f_equal defined Hnum) as Hdn; simpl in Hdn.
  all: pose proof (f_equal defined Hlen) as Hdl; simpl in Hdl.
  all: repeat names_step.
  all: try (intros ? [=]; fail).
  all: intros ? [= <-].
  all: simpl in *.
  all: eexists; split;
    [ first [ rewrite Hl; simpl; eassumption
            | rewrite (lookup_alter_object _ _ _ _ Hl); simpl;
              apply lookup_insert_eq ] |].
  all: split; [lia |].
  all: split;
    [ rewrite length_map;
      repeat match goal with
             | Hm : mapM _ _ = Some _ |- _ =>
                 apply length_mapM in Hm; rewrite <- Hm; clear Hm
             end;
      rewrite length_seqZ; lia
    | intros name Hin;
      apply list_elem_of_In, in_map_iff in Hin as (x & <- & _);
      eexists; split; [reflexivity |];
      apply slice_of_padded; [done | lia | done] ].
Qed.

(** X10.  When [createFilenames] returns for a record with the naming
    fields that [checkOptions] leaves, it returns one name for each
    piece, and every name is the prefix, a suffix of exactly
    [suffix_length] characters, and the additional suffix, where
    [suffix_length] is the one the record holds afterwards. *)
Theorem createFilenames_names (size : Z) (options : loc) (h h' : heap)
    (o : gmap string prim) (names : list string) :
  h !! options = Some o → names_files o → 0 ≤ size →
  createFilenames size options h = (Return names, h') →
  ∃ prefix additional length,
    o !! "prefix" = Some (Str prefix) ∧
    o !! "additional_suffix" = Some (Str additional) ∧
    h' !! options ≫= (.!! "suffix_length") = Some (Number (Int length)) ∧
    named_with prefix additional length size names.
Proof.
  intros Hl ([p Hp] & [a Ha] & Hlen & Hnum) Hsize Hrun.
  pose proof (createFilenames_named size options h o p a
                Hl Hp Ha Hlen Hnum Hsize) as Hwp.
  unfold wp in Hwp. rewrite Hrun in Hwp.
  destruct (Hwp names eq_refl) as (L & HL & _ & Hnames).
  by exists p, a, L.
Qed.
End names.

Lemma createFilenames_names_witness :
  ∃ prefix additional length,
    (list_to_map [("prefix", Str "x"); ("additional_suffix", Str ".txt")]
       : gmap string prim) !! "prefix" = Some (Str prefix) ∧
    (list_to_map [("prefix", Str "x"); ("additional_suffix", Str ".txt")]
       : gmap string prim) !! "additional_suffix" = Some (Str additional) ∧
    (createFilenames 3 caller
       (options_heap [("prefix", Str "x"); ("additional_suffix", Str ".txt")])).2
    !! caller ≫= (.!! "suffix_length") = Some (Number (Int length)) ∧
    named_with prefix additional length 3 ["xaa.txt"; "xab.txt"; "xac.txt"].
Proof.
  assert ((createFilenames 3 caller
             (options_heap
                [("prefix", Str "x"); ("additional_suffix", Str ".txt")])).1
          = Return ["xaa.txt"; "xab.txt"; "xac.txt"]) as Hrun
    by (vm_compute; reflexivity).
  destruct (createFilenames 3 caller _) as [res h'] eqn:Hcall.
  simpl in Hrun. rewrite Hrun in Hcall.
  apply (createFilenames_names 3 caller
           (options_heap
              [("prefix", Str "x"); ("additional_suffix", Str ".txt")])
           h' _ _ eq_refl).
  - split; [by exists "x" |]. split; [by exists ".txt" |].
    split; left; reflexivity.
  - lia.
  - exact Hcall.
Defined.

(** Rounding keeps a number at or above [2^53] there. *)
Lemma round_to_double_above z : 2 ^ 53 ≤ z → 2 ^ 53 ≤ round_to_double z.
Proof.
  intros Hz. unfold round_to_double.
  destruct (Z.ltb_spec (Z.abs z) (2 ^ 53)); [lia |].
  cbv zeta. rewrite (Z.abs_eq z) by lia. rewrite Z.sgn_pos by lia.
  set (e := Z.log2 z - 52).
  assert (53 ≤ Z.log2 z) as Hlog by (apply Z.log2_le_pow2; lia).
  assert (0 < 2 ^ e) by (apply Z.pow_pos_nonneg; lia).
  assert (2 ^ 52 ≤ z / 2 ^ e) as Hq.
  { apply Z.div_le_lower_bound; [lia |].
    rewrite Z.mul_comm, <- Z.pow_add_r by lia.
    replace (52 + e) with (Z.log2 z) by lia.
    apply Z.log2_spec. lia. }
  assert (2 ≤ 2 ^ e)
    by (change 2 with (2 ^ 1) at 1; apply Z.pow_le_mono_r; lia).
  assert (2 ^ 53 ≤ z / 2 ^ e * 2 ^ e) by nia.
  destruct (_ || _); nia.
Qed.

Lemma round_to_double_above_next z :
  2 ^ 53 + 2 ≤ z → 2 ^ 53 + 2 ≤ round_to_double z.
Proof.
  intros Hz. unfold round_to_double.
  destruct (Z.ltb_spec (Z.abs z) (2 ^ 53)); [lia |].
  cbv zeta. rewrite (Z.abs_eq z) by lia. rewrite Z.sgn_pos by lia.
  set (e := Z.log2 z - 52).
  assert (53 ≤ Z.log2 z) as Hlog by (apply Z.log2_le_pow2; lia).
  assert (0 < 2 ^ e) by (apply Z.pow_pos_nonneg; lia).
  assert (2 ^ 52 ≤ z / 2 ^ e) as Hq.
  { apply Z.div_le_lower_bound; [lia |].
    rewrite Z.mul_comm, <- Z.pow_add_r by lia.
    replace (52 + e) with (Z.log2 z) by lia.
    apply Z.log2_spec. lia. }
  destruct (Z.eq_dec e 1) as [He | He].
  - rewrite He in *. change (2 ^ 1) with 2 in *.
    assert (2 ^ 52 + 1 ≤ z / 2) by (apply Z.div_le_lower_bound; lia).
    destruct (_ || _); lia.
  - assert (4 ≤ 2 ^ e)
      by (change 4 with (2 ^ 2); apply Z.pow_le_mono_r; lia).
    assert (2 ^ 54 ≤ z / 2 ^ e * 2 ^ e) by nia.
    destruct (_ || _); nia.
Qed.

Section exhausted.
Context `{Coercions}.

Lemma needs_more (radix size L needed : Z) :
  2 ≤ radix → 0 ≤ size → 0 ≤ L →
  getSuffixLength size radix = Some needed →
  L < needed ↔ radix ^ (L + 1) ≤ size.
Proof.
  intros Hr Hsize HL Hrun.
  destruct (getSuffixLength_spec size radix Hr Hsize)
    as (digits & Hrun' & Hpos & Hzero & Hspec).
  rewrite Hrun in Hrun'. injection Hrun' as ->.
  assert (0 < radix ^ (L + 1)) by (apply Z.pow_pos_nonneg; lia).
  destruct (Z.eq_dec size 0) as [-> | Hne]; [specialize (Hzero eq_refl); lia |].
  specialize (Hspec ltac:(lia)). split.
  - intros Hlt. transitivity (radix ^ digits); [| lia].
    apply Z.pow_le_mono_r; lia.
  - intros Hle. destruct (Z.lt_ge_cases L digits) as [| Hge]; [done |].
    assert (radix ^ (digits + 1) ≤ radix ^ (L + 1))
      by (apply Z.pow_le_mono_r; lia).
    lia.
Qed.

(** X11.  With letters for suffixes and a given [suffix_length] of [L],
    [createFilenames] throws [output file suffixes exhausted] exactly
    when the number of pieces is at least [26^(L+1)]. *)
Theorem createFilenames_exhausted (size : Z) (options : loc) (h : heap)
    (o : gmap string prim) (L : Z) :
  h !! options = Some o →
  defined (o !! "numeric_suffixes") = false →
  o !! "suffix_length" = Some (Number (Int L)) →
  0 ≤ size → 0 ≤ L →
  (createFilenames size options h).1
  = Throw (PlainError "output file suffixes exhausted")
  ↔ 26 ^ (L + 1) ≤ size.
Proof.
  intros Hl Hnum Hlen Hsize HL.
  pose proof (f_equal defined Hlen) as Hdl; simpl in Hdl.
  change (wp (createFilenames size options)
            (fun res _ =>
               res = Throw (PlainError "output file suffixes exhausted")
               ↔ 26 ^ (L + 1) ≤ size) h).
  unfold createFilenames.
  repeat names_step.
  all: try (destruct (getSuffixLength_spec size alphabet_length) as (? & ? & _);
            [done | done | congruence]).
  all: match goal with
       | Hrun : getSuffixLength _ ?r = Some ?z |- _ =>
           pose proof (needs_more r size L z ltac:(by vm_compute)
                         Hsize HL Hrun) as Hneeds
       end.
  all: match goal with
       | Hless : less _ _ = _ |- _ =>
           unfold less in Hless; simpl in Hless
       end.
  all: split; [| intros Hle; apply Hneeds in Hle]; try done; try lia.
  all: try (intros _; apply Hneeds; lia).
Qed.

(** X12.  With numbers for suffixes, from a start [s] that leaves every
    number a safe integer, and a given [suffix_length] of [L],
    [createFilenames] throws the error with the empty message exactly
    when the number of pieces is at least [10^(L+1)]; it throws it as
    well when [s] plus the number of pieces is [2^53 + 2] or more. *)
Theorem createFilenames_numeric_exhausted (size : Z) (options : loc)
    (h : heap) (o : gmap string prim) (s L : Z) :
  h !! options = Some o →
  o !! "numeric_suffixes" = Some (Number (Int s)) →
  o !! "suffix_length" = Some (Number (Int L)) →
  0 ≤ size → 0 ≤ L → 0 ≤ s →
  (s + size ≤ Num.MAX_SAFE_INTEGER →
   (createFilenames size options h).1 = Throw (PlainError EmptyString)
   ↔ 10 ^ (L + 1) ≤ size) ∧
  (2 ^ 53 + 2 ≤ s + size →
   (createFilenames size options h).1 = Throw (PlainError EmptyString)).
Proof.
  intros Hl Hnum Hlen Hsize HL Hs.
  pose proof (f_equal defined Hlen) as Hdl; simpl in Hdl.
  pose proof (f_equal defined Hnum) as Hdn; simpl in Hdn.
  split.
  - intros Hsafe.
    assert (isSafe (Number (Num.sub (Num.add (ToNumber (Number (Int s)))
                                       (Int size)) (Int 1))) = true) as Hok.
    { simpl. unfold Num.MAX_SAFE_INTEGER, Num.MIN_SAFE_INTEGER in *.
      rewrite (round_to_double_safe (s + size))
        by (unfold Num.MAX_SAFE_INTEGER, Num.MIN_SAFE_INTEGER; lia).
      rewrite round_to_double_safe
        by (unfold Num.MAX_SAFE_INTEGER, Num.MIN_SAFE_INTEGER; lia).
      unfold isSafe, ToNumber, Num.le. apply andb_true_iff.
      unfold Num.MAX_SAFE_INTEGER, Num.MIN_SAFE_INTEGER.
      split; apply Z.leb_le; lia. }
    change (wp (createFilenames size options)
              (fun res _ =>
                 res = Throw (PlainError EmptyString) ↔ 10 ^ (L + 1) ≤ size) h).
    unfold createFilenames.
    repeat names_step.
    all: try (destruct (getSuffixLength_spec size 10) as (? & ? & _);
              [done | done | congruence]).
    all: match goal with
         | Hrun : getSuffixLength _ ?r = Some ?z |- _ =>
             pose proof (needs_more r size L z ltac:(by vm_compute)
                           Hsize HL Hrun) as Hneeds
         end.
    all: match goal with
         | Hless : less _ _ = _ |- _ =>
             unfold less in Hless; simpl in Hless
         end.
    all: split; [| intros Hle; apply Hneeds in Hle]; try done; try lia.
    all: try (intros _; apply Hneeds; lia).
  - intros Hbig.
    assert (isSafe (Number (Num.sub (Num.add (ToNumber (Number (Int s)))
                                       (Int size)) (Int 1))) = false) as Hno.
    { simpl. pose proof (round_to_double_above_next (s + size) Hbig) as Hup.
      pose proof (round_to_double_above
                    (round_to_double (s + size) - 1) ltac:(lia)) as Hup'.
      unfold isSafe, ToNumber, Num.le. apply andb_false_iff. right.
      apply Z.leb_gt. unfold Num.MAX_SAFE_INTEGER. lia. }
    change (wp (createFilenames size options)
              (fun res _ => res = Throw (PlainError EmptyString)) h).
    unfold createFilenames. by repeat names_step.
Qed.
End exhausted.

Lemma createFilenames_exhausted_witness :
  (createFilenames 676 caller
     (options_heap [("prefix", Str "x"); ("suffix_length", Number (Int 1))])).1
  = Throw (PlainError "output file suffixes exhausted").
Proof.
  apply (createFilenames_exhausted 676 caller _
           (list_to_map
              [("prefix", Str "x"); ("suffix_length", Number (Int 1))]) 1);
    [reflexivity | reflexivity | reflexivity | lia | lia | lia].
Defined.

Lemma createFilenames_numeric_exhausted_witness :
  (createFilenames 100 caller
     (options_heap
        [("prefix", Str "x"); ("numeric_suffixes", Number (Int 0));
         ("suffix_length", Number (Int 1))])).1
  = Throw (PlainError EmptyString).
Proof.
  destruct (createFilenames_numeric_exhausted 100 caller
              (options_heap
                 [("prefix", Str "x"); ("numeric_suffixes", Number (Int 0));
                  ("suffix_length", Number (Int 1))])
              (list_to_map
                 [("prefix", Str "x"); ("numeric_suffixes", Number (Int 0));
                  ("suffix_length", Number (Int 1))]) 0 1)
    as [Hsmall _]; [reflexivity | reflexivity | reflexivity | lia .. |].
  apply Hsmall; [unfold Num.MAX_SAFE_INTEGER; lia | lia].
Defined.

(** ** The alphabetic suffixes *)

Lemma String_append_assoc (s1 s2 s3 : string) :
  (s1 +:+ s2) +:+ s3 = s1 +:+ s2 +:+ s3.
Proof.
  induction s1 as [| c s1 IH]; [done |].
  change (String c ((s1 +:+ s2) +:+ s3) = String c (s1 +:+ s2 +:+ s3)).
  by rewrite IH.
Qed.

Lemma String_append_inj (s1 s2 t1 t2 : string) :
  String.length s1 = String.length s2 →
  s1 +:+ t1 = s2 +:+ t2 → s1 = s2 ∧ t1 = t2.
Proof.
  revert s2. induction s1 as [| c s1 IH]; intros [| c' s2] Hlen Heq;
    try discriminate; [done |].
  change (String c (s1 +:+ t1) = String c' (s2 +:+ t2)) in Heq.
  injection Heq as -> Heq. injection Hlen as Hlen.
  destruct (IH s2 Hlen Heq) as [-> ->]. done.
Qed.

Lemma String_append_inj_r (s1 s2 t1 t2 : string) :
  String.length t1 = String.length t2 →
  s1 +:+ t1 = s2 +:+ t2 → s1 = s2 ∧ t1 = t2.
Proof.
  intros Hlen Heq. apply String_append_inj; [| done].
  apply (f_equal String.length) in Heq.
  rewrite !String_length_append in Heq. lia.
Qed.

Lemma join_app (l1 l2 : list string) : join (l1 ++ l2) = join l1 +:+ join l2.
Proof.
  induction l1 as [| x l1 IH]; [done |].
  simpl app. by rewrite !join_cons, IH, String_append_assoc.
Qed.

Lemma substring_all (t : string) : String.substring 0 (String.length t) t = t.
Proof. induction t as [| c t IH]; simpl; [done | by rewrite IH]. Qed.

Lemma substring_append (u t : string) :
  String.substring (String.length u) (String.length t) (u +:+ t) = t.
Proof.
  induction u as [| c u IH]; [apply substring_all |].
  change (String c u +:+ t) with (String c (u +:+ t)). simpl. exact IH.
Qed.

(** [slice(-L)] gives the last [L] characters. *)
Lemma String_slice_last (u t : string) (L : Z) :
  1 ≤ L → Z.of_nat (String.length t) = L →
  String_slice (u +:+ t) (Num.neg (Int L)) = t.
Proof.
  intros HL Ht. unfold String_slice. simpl.
  destruct (Z.ltb_spec (- L) 0); [| lia].
  rewrite String_length_append.
  replace (Z.to_nat (Z.max (Z.of_nat (String.length u + String.length t) + - L) 0))
    with (String.length u) by lia.
  replace (Z.to_nat (Z.of_nat (String.length u + String.length t)
                     - Z.max (Z.of_nat (String.length u + String.length t) + - L) 0))
    with (String.length t) by lia.
  apply substring_append.
Qed.

Lemma alphabet_length_26 : alphabet_length = 26.
Proof. reflexivity. Qed.

Lemma suffix_loop_app (fuel : nat) (n : Z) (acc : list string) :
  suffix_loop fuel n acc = (acc ++.) <$> suffix_loop fuel n [].
Proof.
  revert n acc. induction fuel as [| fuel IH]; intros n acc; [done |].
  simpl. destruct (0 <? n); [| simpl; by rewrite app_nil_r].
  rewrite (IH _ (acc ++ _)), (IH _ [_]).
  destruct (suffix_loop fuel _ []) as [r |]; simpl; [| done].
  by rewrite <- app_assoc.
Qed.

Lemma suffix_loop_enough (fuel : nat) (n : Z) (acc : list string) :
  (Z.to_nat n < fuel)%nat →
  ∃ r, ∀ fuel', (Z.to_nat n < fuel')%nat → suffix_loop fuel' n acc = Some r.
Proof.
  revert n acc. induction fuel as [| fuel IH]; intros n acc Hfuel; [lia |].
  destruct (Z.ltb_spec 0 n) as [Hn | Hn].
  - assert (n / alphabet_length < n)
      by (rewrite alphabet_length_26; apply Z.div_lt; lia).
    assert (0 ≤ n / alphabet_length)
      by (rewrite alphabet_length_26; apply Z.div_pos; lia).
    destruct (IH (n / alphabet_length)
                (acc ++ [alphabet_at (n mod alphabet_length)]))
      as [r Hr]; [lia |].
    exists r. intros [| fuel'] Hfuel'; [lia |]. simpl.
    destruct (Z.ltb_spec 0 n); [| lia]. apply Hr. lia.
  - exists acc. intros [| fuel'] Hfuel'; [lia |]. simpl.
    by destruct (Z.ltb_spec 0 n); [lia |].
Qed.

Lemma alphabetic_suffix_zero : alphabetic_suffix 0 = Some EmptyString.
Proof. reflexivity. Qed.

Lemma alphabetic_suffix_pos (i : Z) :
  0 < i →
  ∃ t, alphabetic_suffix (i / alphabet_length) = Some t ∧
       alphabetic_suffix i
       = Some (t +:+ alphabet_at (i mod alphabet_length)).
Proof.
  intros Hi.
  assert (i / alphabet_length < i)
    by (rewrite alphabet_length_26; apply Z.div_lt; lia).
  assert (0 ≤ i / alphabet_length)
    by (rewrite alphabet_length_26; apply Z.div_pos; lia).
  destruct (suffix_loop_enough (Z.to_nat (i / alphabet_length) + 1)
              (i / alphabet_length) []) as [r Hr]; [lia |].
  exists (join (rev r)). unfold alphabetic_suffix. split.
  - rewrite Hr by lia. reflexivity.
  - replace (Z.to_nat i + 1)%nat with (S (Z.to_nat i)) by lia.
    simpl suffix_loop. destruct (Z.ltb_spec 0 i); [| lia].
    rewrite suffix_loop_app, Hr by lia. simpl.
    by rewrite join_app.
Qed.

Lemma padding_snoc (n : nat) :
  join (repeat "a" n) +:+ "a" = join (repeat "a" (S n)).
Proof.
  change (repeat "a" (S n)) with ("a" :: repeat "a" n). rewrite join_cons.
  induction n as [| n IH]; [done |].
  change (repeat "a" (S n)) with ("a" :: repeat "a" n).
  by rewrite join_cons, String_append_assoc, IH.
Qed.

Lemma word_zero (L : nat) : word L 0 = join (repeat "a" L).
Proof.
  induction L as [| L IH]; [done |].
  change (word (S L) 0) with (word L 0 +:+ "a"). rewrite IH.
  apply padding_snoc.
Qed.

Lemma alphabet_at_length (x : Z) :
  0 ≤ x < alphabet_length → String.length (alphabet_at x) = 1%nat.
Proof.
  rewrite alphabet_length_26. intros Hx.
  assert (x ∈ seqZ 0 26) as Hin by (apply elem_of_seqZ; lia).
  vm_compute seqZ in Hin.
  repeat (apply elem_of_cons in Hin as [-> | Hin]; [reflexivity |]).
  by apply elem_of_nil in Hin.
Qed.

(** The place of a letter in the alphabet. *)
Lemma alphabet_at_inj (x y : Z) :
  0 ≤ x < alphabet_length → 0 ≤ y < alphabet_length →
  alphabet_at x = alphabet_at y → x = y.
Proof.
  rewrite alphabet_length_26. intros Hx Hy Heq.
  assert (∀ z, 0 ≤ z < 26 →
            match alphabet_at z with
            | String c _ => Z.of_nat (nat_of_ascii c) - 97
            | EmptyString => -1
            end = z) as Hcode.
  { intros z Hz.
    assert (z ∈ seqZ 0 26) as Hin by (apply elem_of_seqZ; lia).
    vm_compute seqZ in Hin.
    repeat (apply elem_of_cons in Hin as [-> | Hin]; [reflexivity |]).
    by apply elem_of_nil in Hin. }
  rewrite <- (Hcode x Hx), <- (Hcode y Hy). by rewrite Heq.
Qed.

Lemma word_length (L : nat) (i : Z) : String.length (word L i) = L.
Proof.
  revert i. induction L as [| L IH]; intros i; [done |].
  simpl word. rewrite String_length_append, IH, alphabet_at_length; [lia |].
  rewrite alphabet_length_26. apply Z.mod_pos_bound. lia.
Qed.

(** The padded numeral ends in the word. *)
Lemma padded_suffix_word (L : nat) (i : Z) :
  0 ≤ i →
  ∃ t u, alphabetic_suffix i = Some t ∧
         join (repeat "a" L) +:+ t = u +:+ word L i.
Proof.
  revert i. induction L as [| L IH]; intros i Hi.
  - destruct (Z.eq_dec i 0) as [-> | Hne].
    + by exists EmptyString, EmptyString.
    + destruct (alphabetic_suffix_pos i) as (t & _ & Ht); [lia |].
      eexists _, _. split; [exact Ht |]. simpl.
      by rewrite String_append_empty.
  - destruct (Z.eq_dec i 0) as [-> | Hne].
    + exists EmptyString, EmptyString. split; [done |].
      by rewrite word_zero, String_append_empty.
    + destruct (alphabetic_suffix_pos i) as (t & Ht' & Ht); [lia |].
      destruct (IH (i / alphabet_length)) as (t' & u & Hrun & Heq).
      { rewrite alphabet_length_26. apply Z.div_pos; lia. }
      rewrite Ht' in Hrun. injection Hrun as <-.
      exists (t +:+ alphabet_at (i mod alphabet_length)), ("a" +:+ u).
      split; [exact Ht |].
      simpl repeat. rewrite join_cons. simpl word.
      rewrite !String_append_assoc. f_equal.
      by rewrite <- !String_append_assoc, Heq.
Qed.

(** Two words are equal exactly when the numbers are congruent. *)
Lemma word_eq_iff (L : nat) (i j : Z) :
  word L i = word L j ↔ i mod 26 ^ Z.of_nat L = j mod 26 ^ Z.of_nat L.
Proof.
  revert i j. induction L as [| L IH]; intros i j.
  - simpl. by rewrite !Z.mod_1_r.
  - rewrite Nat2Z.inj_succ, Z.pow_succ_r by lia.
    rewrite !(Z.rem_mul_r _ 26) by lia.
    pose proof (Z.mod_pos_bound i 26 ltac:(lia)).
    pose proof (Z.mod_pos_bound j 26 ltac:(lia)).
    simpl word. rewrite alphabet_length_26. split.
    + intros Heq. apply String_append_inj in Heq as [Hw Hd];
        [| by rewrite !word_length].
      apply IH in Hw. apply alphabet_at_inj in Hd;
        [| by rewrite alphabet_length_26 ..].
      lia.
    + intros Heq.
      assert (i mod 26 = j mod 26) as Hd by lia.
      assert ((i / 26) mod 26 ^ Z.of_nat L = (j / 26) mod 26 ^ Z.of_nat L)
        as Hw by lia.
      apply IH in Hw. by rewrite Hw, Hd.
Qed.

Lemma map_mapM {A B C : Type} (f : A → option B) (g : B → C) (g' : A → C)
    (l : list A) (k : list B) :
  mapM f l = Some k →
  (∀ x y, x ∈ l → f x = Some y → g y = g' x) →
  map g k = map g' l.
Proof.
  intros Hrun. apply mapM_Some in Hrun.
  induction Hrun as [| x y l k Hxy _ IH]; intros Hg; [done |].
  simpl. rewrite (Hg x y), IH; [done | | set_solver | done].
  intros x' y' Hin. apply Hg. set_solver.
Qed.

Section alphabetic.
Context `{Coercions}.

(** The names that [createFilenames] gives with letters for suffixes. *)
Lemma createFilenames_words (size : Z) (options : loc) (h : heap)
    (o : gmap string prim) (p a : string) :
  h !! options = Some o →
  o !! "prefix" = Some (Str p) → o !! "additional_suffix" = Some (Str a) →
  optional_count (o !! "suffix_length") 1 →
  defined (o !! "numeric_suffixes") = false →
  wp (createFilenames size options)
    (fun res h' => ∀ names, res = Return names →
       ∃ length,
         h' !! options ≫= (.!! "suffix_length") = Some (Number (Int length))
         ∧ 1 ≤ length ∧
         names = map (fun i => p +:+ word (Z.to_nat length) i +:+ a)
                   (seqZ 0 size)) h.
Proof.
  intros Hl Hp Ha Hlen Hdn.
  unfold createFilenames.
  destruct Hlen as [Hlen | (L & Hlen & HL)].
  all: pose proof (f_equal defined Hlen) as Hdl; simpl in Hdl.
  all: repeat names_step.
  all: try (intros ? [=]; fail).
  all: intros ? [= <-].
  all: simpl in *.
  all: eexists; split;
    [ first [ rewrite Hl; simpl; eassumption
            | rewrite (lookup_alter_object _ _ _ _ Hl); simpl;
              apply lookup_insert_eq ] |].
  all: split; [lia |].
  all: match goal with
       | Hm : mapM _ _ = Some _ |- _ => apply (map_mapM _ _ _ _ _ Hm)
       end.
  all: intros i t Hi Ht; apply elem_of_seqZ in Hi.
  all: match goal with
       | Hn : Int ?L = Int ?n |- _ => injection Hn as <-
       end.
  all: match goal with
       | |- context [String_slice _ (Int (- ?L))] =>
           destruct (padded_suffix_word (Z.to_nat L) i ltac:(lia))
             as (t' & u & Ht' & Heq);
           rewrite Ht in Ht'; injection Ht' as <-;
           rewrite Heq;
           change (Int (- L)) with (Num.neg (Int L));
           rewrite (String_slice_last u (word (Z.to_nat L) i) L);
           [reflexivity | lia | rewrite word_length; lia]
       end.
Qed.

(** X13.  With letters for suffixes, the names that [createFilenames]
    returns are, in order, the prefix, the last [suffix_length] digits
    of the piece's index written in radix 26 with [a] for 0, and the
    additional suffix. *)
Theorem createFilenames_alphabetic (size : Z) (options : loc) (h h' : heap)
    (o : gmap string prim) (names : list string) :
  h !! options = Some o → names_files o →
  defined (o !! "numeric_suffixes") = false →
  createFilenames size options h = (Return names, h') →
  ∃ prefix additional length,
    o !! "prefix" = Some (Str prefix) ∧
    o !! "additional_suffix" = Some (Str additional) ∧
    h' !! options ≫= (.!! "suffix_length") = Some (Number (Int length)) ∧
    1 ≤ length ∧
    names = map (fun i => prefix +:+ word (Z.to_nat length) i +:+ additional)
              (seqZ 0 size).
Proof.
  intros Hl ([p Hp] & [a Ha] & Hlen & _) Hdn Hrun.
  pose proof (createFilenames_words size options h o p a Hl Hp Ha Hlen Hdn)
    as Hwp.
  unfold wp in Hwp. rewrite Hrun in Hwp.
  destruct (Hwp names eq_refl) as (L & HL & Hpos & Hnames).
  by exists p, a, L.
Qed.

(** Names are equal exactly when the indices are congruent. *)
Lemma alphabetic_collisions (size : Z) (options : loc) (h h' : heap)
    (o : gmap string prim) (names : list string) (length : Z)
    (i j : nat) (name_i name_j : string) :
  h !! options = Some o → names_files o →
  defined (o !! "numeric_suffixes") = false →
  createFilenames size options h = (Return names, h') →
  h' !! options ≫= (.!! "suffix_length") = Some (Number (Int length)) →
  names !! i = Some name_i → names !! j = Some name_j →
  name_i = name_j ↔ Z.of_nat i mod 26 ^ length = Z.of_nat j mod 26 ^ length.
Proof.
  intros Hl ([p Hp] & [a Ha] & Hlen & _) Hdn Hrun Hlength Hi Hj.
  pose proof (createFilenames_words size options h o p a Hl Hp Ha Hlen Hdn)
    as Hwp.
  unfold wp in Hwp. rewrite Hrun in Hwp.
  destruct (Hwp names eq_refl) as (L & HL & Hpos & ->).
  simpl in HL, Hlength. rewrite Hlength in HL. injection HL as <-.
  change (map ?f ?l) with (f <$> l) in Hi, Hj.
  rewrite list_lookup_fmap in Hi, Hj.
  destruct (seqZ 0 size !! i) as [x |] eqn:Hx; [| done].
  destruct (seqZ 0 size !! j) as [y |] eqn:Hy; [| done].
  apply lookup_seqZ in Hx as [-> _]. apply lookup_seqZ in Hy as [-> _].
  simpl in Hi, Hj. injection Hi as <-. injection Hj as <-.
  rewrite !Z.add_0_l.
  pose proof (word_eq_iff (Z.to_nat length) (Z.of_nat i) (Z.of_nat j)) as Hw.
  rewrite Z2Nat.id in Hw by lia.
  rewrite <- Hw. split; [| by intros ->].
  intros Heq. apply String_append_inj in Heq as [_ Heq]; [| done].
  apply String_append_inj in Heq as [Heq _]; [done |].
  by rewrite !word_length.
Qed.

(** X14.  With letters for suffixes, two pieces get the same name
    exactly when their indices are congruent modulo
    [26^suffix_length]. *)
Theorem createFilenames_collisions (size : Z) (options : loc) (h h' : heap)
    (o : gmap string prim) (names : list string) (length : Z)
    (i j : nat) (name_i name_j : string) :
  h !! options = Some o → names_files o →
  defined (o !! "numeric_suffixes") = false →
  createFilenames size options h = (Return names, h') →
  h' !! options ≫= (.!! "suffix_length") = Some (Number (Int length)) →
  names !! i = Some name_i → names !! j = Some name_j →
  name_i = name_j ↔ Z.of_nat i mod 26 ^ length = Z.of_nat j mod 26 ^ length.
Proof. apply alphabetic_collisions. Qed.
End alphabetic.

Lemma createFilenames_alphabetic_witness :
  ∃ prefix additional length,
    (list_to_map [("prefix", Str "x"); ("additional_suffix", Str ".txt")]
       : gmap string prim) !! "prefix" = Some (Str prefix) ∧
    (list_to_map [("prefix", Str "x"); ("additional_suffix", Str ".txt")]
       : gmap string prim) !! "additional_suffix" = Some (Str additional) ∧
    (createFilenames 3 caller
       (options_heap [("prefix", Str "x"); ("additional_suffix", Str ".txt")])).2
    !! caller ≫= (.!! "suffix_length") = Some (Number (Int length)) ∧
    1 ≤ length ∧
    ["xaa.txt"; "xab.txt"; "xac.txt"]
    = map (fun i => prefix +:+ word (Z.to_nat length) i +:+ additional)
        (seqZ 0 3).
Proof.
  assert ((createFilenames 3 caller
             (options_heap
                [("prefix", Str "x"); ("additional_suffix", Str ".txt")])).1
          = Return ["xaa.txt"; "xab.txt"; "xac.txt"]) as Hrun
    by (vm_compute; reflexivity).
  destruct (createFilenames 3 caller _) as [res h'] eqn:Hcall.
  simpl in Hrun. rewrite Hrun in Hcall.
  apply (createFilenames_alphabetic 3 caller
           (options_heap
              [("prefix", Str "x"); ("additional_suffix", Str ".txt")])
           h' _ _ eq_refl).
  - split; [by exists "x" |]. split; [by exists ".txt" |].
    split; left; reflexivity.
  - reflexivity.
  - exact Hcall.
Defined.

Lemma createFilenames_collisions_witness :
  "xa" = "xa" ↔ Z.of_nat 0 mod 26 ^ 1 = Z.of_nat 26 mod 26 ^ 1.
Proof.
  assert ((createFilenames 27 caller
             (options_heap
                [("prefix", Str "x"); ("suffix_length", Number (Int 1));
                 ("additional_suffix", Str EmptyString)])).1
          = Return (map (fun i => "x" +:+ word 1 i) (seqZ 0 27))) as Hrun
    by (vm_compute; reflexivity).
  assert ((createFilenames 27 caller
             (options_heap
                [("prefix", Str "x"); ("suffix_length", Number (Int 1));
                 ("additional_suffix", Str EmptyString)])).2
          !! caller ≫= (.!! "suffix_length") = Some (Number (Int 1)))
    as Hlength by (vm_compute; reflexivity).
  destruct (createFilenames 27 caller _) as [res h'] eqn:Hcall.
  simpl in Hrun, Hlength. rewrite Hrun in Hcall.
  apply (createFilenames_collisions 27 caller
           (options_heap
              [("prefix", Str "x"); ("suffix_length", Number (Int 1));
               ("additional_suffix", Str EmptyString)])
           h' _ (map (fun i => "x" +:+ word 1 i) (seqZ 0 27)) 1 0 26
           "xa" "xa" eq_refl).
  - split; [by exists "x" |]. split; [by exists EmptyString |].
    split; [right; exists 1; split; [reflexivity |];
            unfold Num.MAX_SAFE_INTEGER; lia | left; reflexivity].
  - reflexivity.
  - exact Hcall.
  - exact Hlength.
  - reflexivity.
  - reflexivity.
Defined.

(** ** The numeric suffixes *)

Lemma digit_value_digit (c : ascii) :
  is_digit c = true → 0 ≤ digit_value c ≤ 9.
Proof.
  unfold is_digit, digit_value. intros Hc.
  apply andb_true_iff in Hc as [Hlow Hhigh].
  apply Nat.leb_le in Hlow, Hhigh. lia.
Qed.

Lemma digit_value_inj (c1 c2 : ascii) :
  digit_value c1 = digit_value c2 → c1 = c2.
Proof.
  unfold digit_value. intros Heq.
  rewrite <- (ascii_nat_embedding c1), <- (ascii_nat_embedding c2).
  f_equal. lia.
Qed.

Lemma decimal_from_shift (t : string) (acc : Z) :
  decimal_from acc t = acc * 10 ^ Z.of_nat (String.length t) + decimal t.
Proof.
  unfold decimal. revert acc. induction t as [| c t IH]; intros acc.
  - simpl. lia.
  - cbn [decimal_from String.length]. rewrite (IH (10 * acc + _)), (IH (10 * 0 + _)).
    rewrite Nat2Z.inj_succ, Z.pow_succ_r by lia. ring.
Qed.

Lemma decimal_app (u t : string) :
  decimal (u +:+ t) = decimal u * 10 ^ Z.of_nat (String.length t) + decimal t.
Proof.
  rewrite <- decimal_from_shift. unfold decimal. generalize 0.
  induction u as [| c u IH]; intros acc; [done |].
  change (String c u +:+ t) with (String c (u +:+ t)). simpl. apply IH.
Qed.

Lemma decimal_bound (t : string) :
  all_digits t = true → 0 ≤ decimal t < 10 ^ Z.of_nat (String.length t).
Proof.
  induction t as [| c t IH]; [done |]. cbn [all_digits String.length].
  intros Hd. apply andb_true_iff in Hd as [Hc Ht].
  apply digit_value_digit in Hc. specialize (IH Ht).
  unfold decimal in *. cbn [decimal_from]. rewrite decimal_from_shift.
  unfold decimal. rewrite Nat2Z.inj_succ, Z.pow_succ_r by lia. nia.
Qed.

Lemma all_digits_app (u t : string) :
  all_digits (u +:+ t) = all_digits u && all_digits t.
Proof.
  induction u as [| c u IH]; [done |].
  change (String c u +:+ t) with (String c (u +:+ t)). simpl.
  by rewrite IH, andb_assoc.
Qed.

(** Numerals of the same length with the same value are equal. *)
Lemma decimal_inj (t1 t2 : string) :
  all_digits t1 = true → all_digits t2 = true →
  String.length t1 = String.length t2 →
  decimal t1 = decimal t2 → t1 = t2.
Proof.
  revert t2. induction t1 as [| c1 t1 IH]; intros [| c2 t2]; try done.
  cbn [all_digits String.length]. intros Hd1 Hd2 Hlen Heq.
  apply andb_true_iff in Hd1 as [Hc1 Ht1].
  apply andb_true_iff in Hd2 as [Hc2 Ht2]. injection Hlen as Hlen.
  unfold decimal in Heq. cbn [decimal_from] in Heq.
  rewrite !decimal_from_shift, Hlen in Heq.
  pose proof (decimal_bound t1 Ht1) as Hb1.
  pose proof (decimal_bound t2 Ht2) as Hb2. rewrite Hlen in Hb1.
  apply digit_value_digit in Hc1, Hc2.
  set (P := 10 ^ Z.of_nat (String.length t2)) in *.
  assert (digit_value c1 = digit_value c2) as Hc.
  { destruct (Z.lt_trichotomy (digit_value c1) (digit_value c2))
      as [Hlt | [Heq' | Hgt]]; [| done |].
    - assert ((digit_value c1 + 1) * P ≤ digit_value c2 * P)
        by (apply Z.mul_le_mono_nonneg_r; lia).
      lia.
    - assert ((digit_value c2 + 1) * P ≤ digit_value c1 * P)
        by (apply Z.mul_le_mono_nonneg_r; lia).
      lia. }
  assert (decimal t1 = decimal t2) as Ht by (rewrite Hc in Heq; lia).
  apply digit_value_inj in Hc as ->. by rewrite (IH t2).
Qed.

Lemma String_split_last (s : string) (L : nat) :
  (L ≤ String.length s)%nat →
  ∃ u t, s = u +:+ t ∧ String.length t = L.
Proof.
  induction s as [| c s IH]; intros HL.
  - exists EmptyString, EmptyString. simpl in *. split; [done | lia].
  - destruct (decide (L = String.length (String c s))) as [-> | Hne].
    + by exists EmptyString, (String c s).
    + destruct IH as (u & t & -> & Ht); [simpl in *; lia |].
      by exists (String c u), t.
Qed.

Lemma zeros_digits (n : nat) :
  all_digits (join (repeat "0" n)) = true ∧ decimal (join (repeat "0" n)) = 0.
Proof.
  induction n as [| n [IHd IHv]]; [done |].
  change (repeat "0" (S n)) with ("0" :: repeat "0" n).
  rewrite join_cons, all_digits_app, decimal_app, IHd, IHv. done.
Qed.

Lemma digits_of_uint_acc (d : Decimal.uint) (acc : positive) :
  decimal_from (Z.pos acc) (NilEmpty.string_of_uint d)
  = Z.pos (Pos.of_uint_acc d acc).
Proof.
  revert acc.
  induction d as [| d IH | d IH | d IH | d IH | d IH | d IH | d IH | d IH
                  | d IH | d IH]; intros acc;
    cbn [decimal_from NilEmpty.string_of_uint Pos.of_uint_acc];
    [done | rewrite <- IH; f_equal; unfold digit_value;
            cbn [nat_of_ascii]; vm_compute (Z.of_nat _); lia ..].
Qed.

Lemma digits_of_uint (d : Decimal.uint) :
  all_digits (NilEmpty.string_of_uint d) = true ∧
  decimal (NilEmpty.string_of_uint d) = Z.of_N (Pos.of_uint d).
Proof.
  unfold decimal.
  induction d as [| d [IHd IHv] | d [IHd IHv] | d [IHd IHv] | d [IHd IHv]
                  | d [IHd IHv] | d [IHd IHv] | d [IHd IHv] | d [IHd IHv]
                  | d [IHd IHv] | d [IHd IHv]];
    cbn [all_digits decimal_from NilEmpty.string_of_uint Pos.of_uint];
    [done | split; [exact IHd | exact IHv]
     | split; [exact IHd | apply (digits_of_uint_acc d)] ..].
Qed.

(** The decimal numeral that a safe integer prints as. *)
Lemma ToString_digits `{Coercions} (z : Z) :
  0 ≤ z ≤ Num.MAX_SAFE_INTEGER →
  all_digits (ToString (Number (Int z))) = true ∧
  decimal (ToString (Number (Int z))) = z.
Proof.
  intros Hz. unfold ToString.
  destruct (Z.ltb_spec (Z.abs z) (2 ^ 53));
    [| unfold Num.MAX_SAFE_INTEGER in Hz; lia].
  destruct z as [| p | p]; [done | | lia].
  cbn [Z.to_int NilZero.string_of_int]. unfold NilZero.string_of_uint.
  pose proof (DecimalPos.Unsigned.to_uint_nonnil p) as Hnil.
  pose proof (digits_of_uint (Pos.to_uint p)) as [Hd Hv].
  rewrite DecimalPos.Unsigned.of_to in Hv.
  by destruct (Pos.to_uint p).
Qed.

(** The suffix cut out of the padded numeral. *)
Lemma numeric_suffix `{Coercions} (L z : Z) :
  1 ≤ L → 0 ≤ z ≤ Num.MAX_SAFE_INTEGER →
  ∃ t, String_slice (join (repeat "0" (Z.to_nat L))
                     +:+ ToString (Number (Int z))) (Num.neg (Int L)) = t ∧
       numeral_of L z t.
Proof.
  intros HL Hz.
  destruct (ToString_digits z Hz) as [Hd Hv].
  destruct (zeros_digits (Z.to_nat L)) as [Hzd Hzv].
  set (s := join (repeat "0" (Z.to_nat L)) +:+ ToString (Number (Int z))).
  assert (all_digits s = true) as Hsd
    by (unfold s; by rewrite all_digits_app, Hzd, Hd).
  assert (decimal s = z) as Hsv.
  { unfold s. rewrite decimal_app, Hzv, Hv. lia. }
  destruct (String_split_last s (Z.to_nat L)) as (u & t & Hs & Ht).
  { unfold s. rewrite String_length_append, String_length_join_repeat.
    simpl. lia. }
  exists t. rewrite Hs in *. split.
  - apply String_slice_last; lia.
  - rewrite all_digits_app in Hsd. apply andb_true_iff in Hsd as [Hud Htd].
    split; [lia |]. split; [done |].
    rewrite decimal_app, Ht, Z2Nat.id in Hsv by lia.
    pose proof (decimal_bound t Htd) as Hb. rewrite Ht, Z2Nat.id in Hb by lia.
    apply (Z.mod_unique_pos _ _ (decimal u)); lia.
Qed.

Lemma mod_add_cancel (s i j m : Z) :
  (s + i) mod m = (s + j) mod m ↔ i mod m = j mod m.
Proof.
  split; intros Heq.
  - replace i with ((s + i) - s) by lia. replace j with ((s + j) - s) by lia.
    by rewrite Zminus_mod, Heq, <- Zminus_mod.
  - by rewrite Zplus_mod, Heq, <- Zplus_mod.
Qed.

Section numeric.
Context `{Coercions}.

(** The names that [createFilenames] gives with numbers for suffixes,
    all of them safe integers. *)
Lemma createFilenames_numerals (size : Z) (options : loc) (h : heap)
    (o : gmap string prim) (p a : string) (s : Z) :
  h !! options = Some o →
  o !! "prefix" = Some (Str p) → o !! "additional_suffix" = Some (Str a) →
  optional_count (o !! "suffix_length") 1 →
  o !! "numeric_suffixes" = Some (Number (Int s)) →
  0 ≤ s → s + size ≤ 2 ^ 53 →
  wp (createFilenames size options)
    (fun res h' => ∀ names, res = Return names →
       ∃ length,
         h' !! options ≫= (.!! "suffix_length") = Some (Number (Int length))
         ∧ 1 ≤ length ∧
         ∀ i name, names !! i = Some name →
           ∃ t, name = p +:+ t +:+ a ∧
                numeral_of length (s + Z.of_nat i) t) h.
Proof.
  intros Hl Hp Ha Hlen Hnum Hs Hsafe.
  pose proof (f_equal defined Hnum) as Hdn; simpl in Hdn.
  unfold createFilenames.
  destruct Hlen as [Hlen | (L & Hlen & HL)].
  all: pose proof (f_equal defined Hlen) as Hdl; simpl in Hdl.
  all: repeat names_step.
  all: try (intros ? [=]; fail).
  all: intros ? [= <-].
  all: eexists; split;
    [ first [ rewrite Hl; simpl; eassumption
            | rewrite (lookup_alter_object _ _ _ _ Hl); simpl;
              apply lookup_insert_eq ] |].
  all: split; [lia |].
  all: intros i name Hname.
  all: change (map ?f ?l) with (f <$> l) in Hname.
  all: rewrite list_lookup_fmap in Hname.
  all: destruct (seqZ 0 size !! i) as [x |] eqn:Hx; [| done].
  all: apply lookup_seqZ in Hx as [-> Hi].
  all: simpl in Hname; injection Hname as <-.
  all: rewrite Z.add_0_l.
  all: match goal with
       | Hn : ToNumber (Number ?l) = Int ?n |- _ =>
           change (Num.neg (ToNumber (Number l))) with (Num.neg (Int (match l with Int z => z | NaN => 0 end)));
           simpl in Hn; injection Hn as <-
       end.
  all: unfold Num.add; rewrite round_to_double_safe
    by (unfold Num.MAX_SAFE_INTEGER, Num.MIN_SAFE_INTEGER; lia).
  all: match goal with
       | |- context [String_slice (join (repeat "0" (Z.to_nat ?L)) +:+ _) _] =>
           destruct (numeric_suffix L (s + Z.of_nat i)) as (t & Ht & Hnumeral);
           [lia | unfold Num.MAX_SAFE_INTEGER; lia |];
           exists t; split; [| exact Hnumeral]
       end.
  all: cbn [ToString] in *; cbn [Num.max Num.neg] in *; by rewrite Ht.
Qed.

(** X15.  With numbers for suffixes, from a start [s] with
    [s + size ≤ 2^53], the name of the piece with index [i] is the
    prefix, the last [suffix_length] digits of the decimal numeral of
    [s + i], padded with zeros, and the additional suffix. *)
Theorem createFilenames_numeric (size : Z) (options : loc) (h h' : heap)
    (o : gmap string prim) (names : list string) (s : Z) :
  h !! options = Some o → names_files o →
  o !! "numeric_suffixes" = Some (Number (Int s)) →
  0 ≤ s → s + size ≤ 2 ^ 53 →
  createFilenames size options h = (Return names, h') →
  ∃ prefix additional length,
    o !! "prefix" = Some (Str prefix) ∧
    o !! "additional_suffix" = Some (Str additional) ∧
    h' !! options ≫= (.!! "suffix_length") = Some (Number (Int length)) ∧
    ∀ i name, names !! i = Some name →
      ∃ t, name = prefix +:+ t +:+ additional ∧
           numeral_of length (s + Z.of_nat i) t.
Proof.
  intros Hl ([p Hp] & [a Ha] & Hlen & _) Hnum Hs Hsafe Hrun.
  pose proof (createFilenames_numerals size options h o p a s
                Hl Hp Ha Hlen Hnum Hs Hsafe) as Hwp.
  unfold wp in Hwp. rewrite Hrun in Hwp.
  destruct (Hwp names eq_refl) as (L & HL & _ & Hnames).
  by exists p, a, L.
Qed.

(** Names are equal exactly when the indices are congruent. *)
Lemma numeric_collisions (size : Z) (options : loc)
    (h h' : heap) (o : gmap string prim) (names : list string) (s length : Z)
    (i j : nat) (name_i name_j : string) :
  h !! options = Some o → names_files o →
  o !! "numeric_suffixes" = Some (Number (Int s)) →
  0 ≤ s → s + size ≤ 2 ^ 53 →
  createFilenames size options h = (Return names, h') →
  h' !! options ≫= (.!! "suffix_length") = Some (Number (Int length)) →
  names !! i = Some name_i → names !! j = Some name_j →
  name_i = name_j ↔ Z.of_nat i mod 10 ^ length = Z.of_nat j mod 10 ^ length.
Proof.
  intros Hl ([p Hp] & [a Ha] & Hlen & _) Hnum Hs Hsafe Hrun Hlength Hi Hj.
  pose proof (createFilenames_numerals size options h o p a s
                Hl Hp Ha Hlen Hnum Hs Hsafe) as Hwp.
  unfold wp in Hwp. rewrite Hrun in Hwp.
  destruct (Hwp names eq_refl) as (L & HL & _ & Hnames).
  simpl in HL, Hlength. rewrite Hlength in HL. injection HL as <-.
  destruct (Hnames i name_i Hi) as (ti & -> & Hli & Hdi & Hvi).
  destruct (Hnames j name_j Hj) as (tj & -> & Hlj & Hdj & Hvj).
  rewrite <- (mod_add_cancel s), <- Hvi, <- Hvj. split.
  - intros Heq. apply String_append_inj in Heq as [_ Heq]; [| done].
    apply String_append_inj in Heq as [-> _]; [done | lia].
  - intros Heq. by rewrite (decimal_inj ti tj) by (done || lia).
Qed.

(** X16.  With numbers for suffixes, from a start [s] with
    [s + size ≤ 2^53], two pieces get the same name exactly when their
    indices are congruent modulo [10^suffix_length]. *)
Theorem createFilenames_numeric_collisions (size : Z) (options : loc)
    (h h' : heap) (o : gmap string prim) (names : list string) (s length : Z)
    (i j : nat) (name_i name_j : string) :
  h !! options = Some o → names_files o →
  o !! "numeric_suffixes" = Some (Number (Int s)) →
  0 ≤ s → s + size ≤ 2 ^ 53 →
  createFilenames size options h = (Return names, h') →
  h' !! options ≫= (.!! "suffix_length") = Some (Number (Int length)) →
  names !! i = Some name_i → names !! j = Some name_j →
  name_i = name_j ↔ Z.of_nat i mod 10 ^ length = Z.of_nat j mod 10 ^ length.
Proof. apply numeric_collisions. Qed.
End numeric.

Lemma createFilenames_numeric_witness :
  ∃ prefix additional length,
    (list_to_map
       [("prefix", Str "x"); ("additional_suffix", Str EmptyString);
        ("numeric_suffixes", Number (Int 8))] : gmap string prim)
    !! "prefix" = Some (Str prefix) ∧
    (list_to_map
       [("prefix", Str "x"); ("additional_suffix", Str EmptyString);
        ("numeric_suffixes", Number (Int 8))] : gmap string prim)
    !! "additional_suffix" = Some (Str additional) ∧
    (createFilenames 3 caller
       (options_heap
          [("prefix", Str "x"); ("additional_suffix", Str EmptyString);
           ("numeric_suffixes", Number (Int 8))])).2
    !! caller ≫= (.!! "suffix_length") = Some (Number (Int length)) ∧
    ∀ i name, ["x08"; "x09"; "x10"] !! i = Some name →
      ∃ t, name = prefix +:+ t +:+ additional ∧
           numeral_of length (8 + Z.of_nat i) t.
Proof.
  assert ((createFilenames 3 caller
             (options_heap
                [("prefix", Str "x"); ("additional_suffix", Str EmptyString);
                 ("numeric_suffixes", Number (Int 8))])).1
          = Return ["x08"; "x09"; "x10"]) as Hrun
    by (vm_compute; reflexivity).
  destruct (createFilenames 3 caller _) as [res h'] eqn:Hcall.
  simpl in Hrun. rewrite Hrun in Hcall.
  apply (createFilenames_numeric 3 caller
           (options_heap
              [("prefix", Str "x"); ("additional_suffix", Str EmptyString);
               ("numeric_suffixes", Number (Int 8))])
           h' _ _ 8 eq_refl).
  - split; [by exists "x" |]. split; [by exists EmptyString |].
    split; [left; reflexivity |].
    right. exists 8. split; [reflexivity |]. unfold Num.MAX_SAFE_INTEGER. lia.
  - reflexivity.
  - lia.
  - lia.
  - exact Hcall.
Defined.

Lemma createFilenames_numeric_collisions_witness :
  "x0" = "x0" ↔ Z.of_nat 0 mod 10 ^ 1 = Z.of_nat 10 mod 10 ^ 1.
Proof.
  assert ((createFilenames 11 caller
             (options_heap
                [("prefix", Str "x"); ("suffix_length", Number (Int 1));
                 ("additional_suffix", Str EmptyString);
                 ("numeric_suffixes", Number (Int 0))])).1
          = Return ["x0"; "x1"; "x2"; "x3"; "x4"; "x5"; "x6"; "x7"; "x8";
                    "x9"; "x0"]) as Hrun
    by (vm_compute; reflexivity).
  assert ((createFilenames 11 caller
             (options_heap
                [("prefix", Str "x"); ("suffix_length", Number (Int 1));
                 ("additional_suffix", Str EmptyString);
                 ("numeric_suffixes", Number (Int 0))])).2
          !! caller ≫= (.!! "suffix_length") = Some (Number (Int 1)))
    as Hlength by (vm_compute; reflexivity).
  destruct (createFilenames 11 caller _) as [res h'] eqn:Hcall.
  simpl in Hrun, Hlength. rewrite Hrun in Hcall.
  apply (createFilenames_numeric_collisions 11 caller
           (options_heap
              [("prefix", Str "x"); ("suffix_length", Number (Int 1));
               ("additional_suffix", Str EmptyString);
               ("numeric_suffixes", Number (Int 0))])
           h' _
           ["x0"; "x1"; "x2"; "x3"; "x4"; "x5"; "x6"; "x7"; "x8"; "x9"; "x0"]
           0 1 0 10 "x0" "x0" eq_refl).
  - split; [by exists "x" |]. split; [by exists EmptyString |].
    split; right; [exists 1 | exists 0];
      (split; [reflexivity | unfold Num.MAX_SAFE_INTEGER; lia]).
  - reflexivity.
  - lia.
  - lia.
  - exact Hcall.
  - exact Hlength.
  - reflexivity.
  - reflexivity.
Defined.

(** ** Distinct names *)

Lemma NoDup_congruent (names : list string) (m : Z) :
  0 < m →
  (∀ i j name_i name_j,
     names !! i = Some name_i → names !! j = Some name_j →
     name_i = name_j ↔ Z.of_nat i mod m = Z.of_nat j mod m) →
  NoDup names ↔ Z.of_nat (List.length names) ≤ m.
Proof.
  intros Hm Hiff. split.
  - intros Hdistinct.
    destruct (Z.le_gt_cases (Z.of_nat (List.length names)) m) as [| Hgt];
      [done |].
    destruct (lookup_lt_is_Some_2 names 0) as [first Hfirst]; [lia |].
    destruct (lookup_lt_is_Some_2 names (Z.to_nat m)) as [other Hother];
      [lia |].
    assert (first = other) as ->.
    { apply (Hiff _ _ _ _ Hfirst Hother).
      rewrite Z2Nat.id by lia. by rewrite Z.mod_same, Z.mod_0_l by lia. }
    pose proof (proj1 (NoDup_alt names) Hdistinct _ _ _ Hfirst Hother). lia.
  - intros Hle. apply NoDup_alt. intros i j name Hi Hj.
    pose proof (proj1 (Hiff _ _ _ _ Hi Hj) eq_refl) as Heq.
    apply lookup_lt_Some in Hi, Hj.
    rewrite !Z.mod_small in Heq by lia. lia.
Qed.

Section distinct.
Context `{Coercions}.

(** X17.  The names that [createFilenames] returns are pairwise
    distinct exactly when there are at most [26^suffix_length] pieces
    with letters for suffixes, and at most [10^suffix_length] with
    numbers that are all safe integers, where [suffix_length] is the one
    the record holds afterwards. *)
Theorem createFilenames_distinct (size : Z) (options : loc) (h h' : heap)
    (o : gmap string prim) (names : list string) (length : Z) :
  h !! options = Some o → names_files o → 0 ≤ size →
  (∀ s, o !! "numeric_suffixes" = Some (Number (Int s)) →
        s + size ≤ 2 ^ 53) →
  createFilenames size options h = (Return names, h') →
  h' !! options ≫= (.!! "suffix_length") = Some (Number (Int length)) →
  NoDup names
  ↔ size ≤ (if defined (o !! "numeric_suffixes") then 10 else 26) ^ length.
Proof.
  intros Hl Hnames Hsize Hsafe Hrun Hlength.
  pose proof Hnames as ([p Hp] & [a Ha] & Hlen & Hnum).
  pose proof (createFilenames_named size options h o p a
                Hl Hp Ha Hlen Hnum Hsize) as Hnamed.
  unfold wp in Hnamed. rewrite Hrun in Hnamed.
  destruct (Hnamed names eq_refl) as (L & HL & Hpos & Hcount & _).
  simpl in HL, Hlength. rewrite Hlength in HL. injection HL as <-.
  rewrite <- Hcount.
  destruct Hnum as [Hnum | (s & Hnum & Hs)]; rewrite Hnum; simpl.
  - apply NoDup_congruent; [apply Z.pow_pos_nonneg; lia |].
    intros i j name_i name_j.
    apply (alphabetic_collisions size options h h' o); try done.
    by rewrite Hnum.
  - apply NoDup_congruent; [apply Z.pow_pos_nonneg; lia |].
    intros i j name_i name_j.
    apply (numeric_collisions size options h h' o names s); try done;
      [lia | by apply Hsafe].
Qed.
End distinct.

Lemma createFilenames_distinct_witness :
  NoDup (map (fun i => "x" +:+ word 1 i) (seqZ 0 27)) ↔ 27 ≤ 26 ^ 1.
Proof.
  assert ((createFilenames 27 caller
             (options_heap
                [("prefix", Str "x"); ("suffix_length", Number (Int 1));
                 ("additional_suffix", Str EmptyString)])).1
          = Return (map (fun i => "x" +:+ word 1 i) (seqZ 0 27))) as Hrun
    by (vm_compute; reflexivity).
  assert ((createFilenames 27 caller
             (options_heap
                [("prefix", Str "x"); ("suffix_length", Number (Int 1));
                 ("additional_suffix", Str EmptyString)])).2
          !! caller ≫= (.!! "suffix_length") = Some (Number (Int 1)))
    as Hlength by (vm_compute; reflexivity).
  destruct (createFilenames 27 caller _) as [res h'] eqn:Hcall.
  simpl in Hrun, Hlength. rewrite Hrun in Hcall.
  apply (createFilenames_distinct 27 caller
           (options_heap
              [("prefix", Str "x"); ("suffix_length", Number (Int 1));
               ("additional_suffix", Str EmptyString)])
           h'
           (list_to_map
              [("prefix", Str "x"); ("suffix_length", Number (Int 1));
               ("additional_suffix", Str EmptyString)])
           (map (fun i => "x" +:+ word 1 i) (seqZ 0 27)) 1 eq_refl).
  - split; [by exists "x" |]. split; [by exists EmptyString |].
    split; [right; exists 1; split; [reflexivity |];
            unfold Num.MAX_SAFE_INTEGER; lia | left; reflexivity].
  - lia.
  - intros s Hs. discriminate.
  - exact Hcall.
  - exact Hlength.
Defined.

(** ** The calls *)

Lemma splitByBytes_stuck (buffer : Buffer) (size : Z) :
  buffer ≠ [] → size ≤ 0 → splitByBytes buffer size = None.
Proof.
  intros Hne Hsize. unfold splitByBytes.
  by apply splitByBytes_loop_stuck; [| | lia ..].
Qed.

Lemma splitByLineBytes_stuck (buffer : Buffer) (size : Z) :
  buffer ≠ [] → size ≤ 0 → splitByLineBytes buffer size = None.
Proof.
  intros Hne Hsize. unfold splitByLineBytes.
  destruct (splitByLines_partitions buffer 1) as (lines & -> & Hcat & Hlines).
  destruct lines as [| line lines]; [by rewrite <- Hcat in Hne |].
  apply Forall_cons in Hlines as [Hline _]. simpl.
  by rewrite splitByBytes_stuck.
Qed.

Lemma splitByBytes_returns_partitions (buffer : Buffer) (size : Z)
    (pieces : list Buffer) :
  splitByBytes buffer size = Some pieces → partitions buffer pieces.
Proof.
  intros Hrun. destruct (Z.le_gt_cases 1 size) as [Hsize | Hsize].
  - destruct (splitByBytes_partitions buffer size Hsize) as (ps & Hps & Hp).
    rewrite Hrun in Hps. by injection Hps as ->.
  - destruct buffer as [| c buffer].
    + injection Hrun as <-. split; [done | constructor].
    + rewrite splitByBytes_stuck in Hrun; [done | done | lia].
Qed.

Lemma splitByLineBytes_returns_partitions (buffer : Buffer) (size : Z)
    (pieces : list Buffer) :
  splitByLineBytes buffer size = Some pieces → partitions buffer pieces.
Proof.
  intros Hrun. destruct (Z.le_gt_cases 1 size) as [Hsize | Hsize].
  - destruct (splitByLineBytes_partitions buffer size Hsize)
      as (ps & Hps & Hp).
    rewrite Hrun in Hps. by injection Hps as ->.
  - destruct buffer as [| c buffer].
    + injection Hrun as <-. split; [done | constructor].
    + rewrite splitByLineBytes_stuck in Hrun; [done | done | lia].
Qed.

(** The writes that [split] issues. *)
Lemma run_writeFiles (requests : list (string * Buffer)) (h : heap) :
  writeFiles requests h
  = (if forallb (fun request => valid_path request.1) requests
     then Return tt else Throw ERR_INVALID_ARG_VALUE, h).
Proof.
  induction requests as [| [path piece] requests IH]; [done |].
  simpl. destruct (valid_path path); [exact IH | done].
Qed.

Lemma invalid_path_Exists (requests : list (string * Buffer)) :
  forallb (fun request => valid_path request.1) requests = false
  ↔ Exists (fun request => valid_path request.1 = false) requests.
Proof.
  induction requests as [| request requests IH]; simpl.
  - split; [done | by intros ?%Exists_nil].
  - rewrite Exists_cons, andb_false_iff. by rewrite IH.
Qed.

Section calls.
Context `{Coercions}.

Lemma _split_returns_partitions (buffer : Buffer) (options : loc)
    (h h' : heap) (o : gmap string prim) (m : mode) (pieces : list Buffer) :
  h !! options = Some o → selects o m →
  _split buffer options h = (Return pieces, h') →
  partitions buffer pieces.
Proof.
  intros Ho Hm. rewrite (run__split buffer options h o m Ho Hm).
  destruct m as [n | n | n]; unfold terminates.
  - destruct (splitByLines_partitions buffer n) as (ps & -> & Hp).
    by intros [= <- _].
  - destruct (splitByBytes buffer n) as [ps |] eqn:Hrun; [| done].
    intros [= <- _]. by eapply splitByBytes_returns_partitions.
  - destruct (splitByLineBytes buffer n) as [ps |] eqn:Hrun; [| done].
    intros [= <- _]. by eapply splitByLineBytes_returns_partitions.
Qed.

(** X18.  [split] hands the errors of the options, of the splitter and
    of the naming to the callback, and throws only from [fs.writeFile]:
    it throws exactly when validation, the splitter and, with a [prefix],
    the naming have all returned and one of the names for the pieces
    holds a NUL character, and what it throws then is the [TypeError]
    of [fs.writeFile] for such a path. *)
Theorem split_throws_only_for_a_path (buffer : Buffer) (v : value)
    (h : heap) (e : Error) :
  (split buffer v h).1 = Throw e ↔
  e = ERR_INVALID_ARG_VALUE ∧
  ∃ record h1 splitted filenames h2,
    checkOptions v h = (Return record, h1) ∧
    _split buffer record h1 = (Return splitted, h1) ∧
    defined (h1 !! record ≫= (.!! "prefix")) = true ∧
    createFilenames (Z.of_nat (List.length splitted)) record h1
    = (Return filenames, h2) ∧
    Exists (fun request => valid_path request.1 = false)
      (zip filenames splitted).
Proof.
  unfold split. rewrite run_bind. unfold catch at 1. rewrite run_bind. split.
  - destruct (checkOptions v h) as [[r | e' |] h1]; simpl; [| done ..].
    rewrite run_bind. pose proof (_split_heap buffer r h1) as Hheap.
    destruct (_split buffer r h1) as [[splitted | e' |] h2] eqn:Hsplit;
      simpl in *; [| done ..].
    subst h2. rewrite run_bind. unfold isDefined at 1. simpl.
    destruct (defined _) eqn:Hprefix; [| done].
    rewrite run_bind. unfold catch.
    destruct (createFilenames _ _ h1) as [[names | e' |] h3] eqn:Hnames;
      simpl; [| done ..].
    rewrite run_bind, run_writeFiles.
    destruct (forallb _ _) eqn:Hvalid; simpl; [done |].
    intros [= <-]. split; [done |].
    exists r, h1, splitted, names, h3. repeat (split; [done |]).
    by apply invalid_path_Exists.
  - intros (-> & r & h1 & splitted & names & h2
            & Hcheck & Hsplit & Hprefix & Hnames & Hinvalid).
    rewrite Hcheck. simpl. rewrite run_bind, Hsplit. simpl. rewrite run_bind. unfold isDefined at 1. rewrite Hprefix. simpl.
    rewrite run_bind. unfold catch. rewrite Hnames. simpl.
    rewrite run_bind, run_writeFiles.
    by rewrite (proj2 (invalid_path_Exists _) Hinvalid).
Qed.

(** What [split] has scheduled for options in the store. *)
Lemma split_scheduled (buffer : Buffer) (l : loc) (h : heap)
    (o : gmap string prim) (s : scheduled) :
  h !! l = Some o →
  (split buffer (Ref l) h).1 = Return s →
  match s with
  | NextTick (Failure _) => True
  | NextTick (Success pieces) =>
      defined (o !! "prefix") = false ∧ partitions buffer pieces
  | WriteFiles requests splitted =>
      defined (o !! "prefix") = true ∧ partitions buffer splitted ∧
      requests.*2 = splitted
  end.
Proof.
  intros Hl. unfold split. rewrite run_bind. unfold catch at 1.
  rewrite run_bind.
  pose proof (checkOptions_validated h l o Hl) as Hwp. unfold wp in Hwp.
  destruct (checkOptions (Ref l) h) as [[r | e |] h1]; simpl in *;
    [| by intros [= <-] | done].
  destruct (Hwp r eq_refl) as (record & Hr & (m & Hm & _) & Hnames).
  rewrite run_bind.
  pose proof (_split_heap buffer r h1) as Hheap.
  pose proof (_split_returns_partitions buffer r h1) as Hparts.
  destruct (_split buffer r h1) as [[splitted | e |] h2]; simpl in *;
    [| by intros [= <-] | done].
  subst h2. specialize (Hparts h1 record m splitted Hr Hm eq_refl).
  rewrite run_bind, (run_isDefined _ _ _ _ Hr).
  destruct (defined (o !! "prefix")).
  - destruct Hnames as ([p Hp] & [a Ha] & Hlen & Hnum).
    rewrite Hp. simpl. rewrite run_bind. unfold catch.
    pose proof (createFilenames_named (Z.of_nat (List.length splitted)) r h1
                  record p a Hr Hp Ha Hlen Hnum ltac:(lia)) as Hnamed.
    unfold wp in Hnamed.
    destruct (createFilenames _ r h1) as [[names | e |] h2]; simpl in *;
      [| by intros [= <-] | done].
    rewrite run_bind, run_writeFiles.
    destruct (forallb _ _); simpl; [| done].
    intros [= <-]. split; [done |]. split; [done |].
    destruct (Hnamed names eq_refl) as (L & _ & _ & Hcount & _).
    apply snd_zip. lia.
  - rewrite (Hnames "prefix") by (unfold naming_keys; set_solver). simpl.
    by intros [= <-].
Qed.

(** X19.  When [split] has returned for an options object, then either
    it has scheduled a failure, or there is no [prefix] and it has
    scheduled the success with pieces that make up the buffer, none of
    them empty, or there is a [prefix] and it has issued one write for
    each of such pieces, in order. *)
Theorem split_schedules (buffer : Buffer) (l : loc) (h : heap)
    (o : gmap string prim) (s : scheduled) :
  h !! l = Some o →
  (split buffer (Ref l) h).1 = Return s →
  (∃ err, s = NextTick (Failure err)) ∨
  (∃ pieces, s = NextTick (Success pieces) ∧
     defined (o !! "prefix") = false ∧ partitions buffer pieces) ∨
  (∃ requests splitted, s = WriteFiles requests splitted ∧
     defined (o !! "prefix") = true ∧ partitions buffer splitted ∧
     requests.*2 = splitted).
Proof.
  intros Hl Hrun. pose proof (split_scheduled buffer l h o s Hl Hrun) as Hs.
  destruct s as [[pieces | err] | requests splitted]; eauto 8.
Qed.
End calls.

Lemma split_schedules_witness :
  (∃ err, WriteFiles [("xaa", [Byte.x61; LF]); ("xab", [Byte.x62])]
            [[Byte.x61; LF]; [Byte.x62]] = NextTick (Failure err)) ∨
  (∃ pieces,
     WriteFiles [("xaa", [Byte.x61; LF]); ("xab", [Byte.x62])]
       [[Byte.x61; LF]; [Byte.x62]] = NextTick (Success pieces) ∧
     defined ((list_to_map [("lines", Number (Int 1)); ("prefix", Str "x")]
                 : gmap string prim) !! "prefix") = false ∧
     partitions [Byte.x61; LF; Byte.x62] pieces) ∨
  (∃ requests splitted,
     WriteFiles [("xaa", [Byte.x61; LF]); ("xab", [Byte.x62])]
       [[Byte.x61; LF]; [Byte.x62]] = WriteFiles requests splitted ∧
     defined ((list_to_map [("lines", Number (Int 1)); ("prefix", Str "x")]
                 : gmap string prim) !! "prefix") = true ∧
     partitions [Byte.x61; LF; Byte.x62] splitted ∧
     requests.*2 = splitted).
Proof.
  apply (split_schedules [Byte.x61; LF; Byte.x62] caller
           (options_heap [("lines", Number (Int 1)); ("prefix", Str "x")])).
  - reflexivity.
  - vm_compute. reflexivity.
Defined.

Lemma split_throws_only_for_a_path_witness :
  ERR_INVALID_ARG_VALUE = ERR_INVALID_ARG_VALUE ∧
  ∃ record h1 splitted filenames h2,
    checkOptions (Ref caller)
      (options_heap
         [("lines", Number (Int 1));
          ("prefix", Str (String "x" (String NUL EmptyString)))])
    = (Return record, h1) ∧
    _split [Byte.x61; LF; Byte.x62] record h1 = (Return splitted, h1) ∧
    defined (h1 !! record ≫= (.!! "prefix")) = true ∧
    createFilenames (Z.of_nat (List.length splitted)) record h1
    = (Return filenames, h2) ∧
    Exists (fun request => valid_path request.1 = false)
      (zip filenames splitted).
Proof.
  apply (split_throws_only_for_a_path [Byte.x61; LF; Byte.x62] (Ref caller)
           (options_heap
              [("lines", Number (Int 1));
               ("prefix", Str (String "x" (String NUL EmptyString)))])).
  vm_compute. reflexivity.
Defined.

(** ** The notifications *)

Lemma deliver_closed_form (splitted : list Buffer)
    (completions : list (option Error)) (c : counters) :
  done c + Z.of_nat (List.length completions)
    ≤ Z.of_nat (List.length splitted) →
  deliver splitted completions c
  = (Failure <$> errors completions)
    ++ (if negb (errored c) && (failed completions =? 0)%nat
           && negb (List.length completions =? 0)%nat
           && (done c + Z.of_nat (List.length completions)
               =? Z.of_nat (List.length splitted))
        then [Success splitted] else []).
Proof.
  revert c. induction completions as [| err completions IH]; intros c Hlen.
  - simpl. by rewrite andb_false_r.
  - destruct err as [e |].
    + simpl. rewrite IH by (simpl in *; lia). simpl.
      unfold errors. simpl. f_equal. f_equal.
      unfold failed. simpl. by rewrite andb_false_r.
    + cbn [deliver on_written]. rewrite IH by (simpl in *; lia).
      cbn [done errored]. unfold errors, failed. cbn [omap list_omap id].
      simpl List.filter. simpl List.length in *.
      destruct completions as [| err' completions'].
      * simpl. destruct (errored c); simpl; [done |].
        replace (done c + 1 + 0) with (done c + 1) by lia.
        replace (done c + Z.of_nat 1) with (done c + 1) by lia.
        by destruct (done c + 1 =? _).
      * destruct (Z.eqb_spec (done c + 1) (Z.of_nat (List.length splitted)));
          [simpl in *; lia |].
        rewrite andb_false_r. cbn [app].
        replace (done c + 1 + Z.of_nat (List.length (err' :: completions')))
          with (done c + Z.of_nat (S (List.length (err' :: completions'))))
          by lia.
        reflexivity.
Qed.

(** X20.  While no more writes have completed than were issued, the
    callback has received the pieces once, if every write has completed
    and none has failed, and otherwise the error of every failed write,
    in the order of completion, and nothing else. *)
Theorem notifications_of_writes (requests : list (string * Buffer))
    (splitted : list Buffer) (completions : list (option Error)) :
  (List.length completions ≤ List.length splitted)%nat →
  notifications (WriteFiles requests splitted) completions
  = if bool_decide (failed completions = 0%nat ∧ completions ≠ [] ∧
                    List.length completions = List.length splitted)
    then [Success splitted]
    else Failure <$> errors completions.
Proof.
  intros Hlen. unfold notifications.
  rewrite deliver_closed_form by (cbn [done]; lia).
  cbn [done errored negb andb]. rewrite Z.add_0_l.
  assert (failed completions = 0%nat → errors completions = []) as Hnone.
  { unfold failed, errors. clear. induction completions as [| [e |] cs IH];
      simpl; [done | done |]. exact IH. }
  destruct (Nat.eqb_spec (failed completions) 0) as [Hfailed | Hfailed];
    [| rewrite app_nil_r; case_bool_decide as Hall; [| done];
       by destruct Hall as [Hall _]].
  destruct (Nat.eqb_spec (List.length completions) 0) as [Hnil | Hnil].
  { apply length_zero_iff_nil in Hnil as ->. case_bool_decide as Hall; [| done].
    by destruct Hall as (_ & Hall & _). }
  rewrite (Hnone Hfailed). cbn [negb andb fmap list_fmap app].
  destruct (Z.eqb_spec (Z.of_nat (List.length completions))
              (Z.of_nat (List.length splitted))) as [Heq | Hneq].
  - rewrite bool_decide_eq_true_2; [done |].
    split; [done |]. split; [| lia]. by intros ->.
  - rewrite bool_decide_eq_false_2; [done |].
    intros (_ & _ & Hall). lia.
Qed.

Lemma notifications_of_writes_witness :
  notifications
    (WriteFiles [("xaa", [Byte.x61; LF]); ("xab", [Byte.x62])]
       [[Byte.x61; LF]; [Byte.x62]])
    [None; None]
  = [Success [[Byte.x61; LF]; [Byte.x62]]] ∧
  notifications
    (WriteFiles [("xaa", [Byte.x61; LF]); ("xab", [Byte.x62])]
       [[Byte.x61; LF]; [Byte.x62]])
    [Some EIO; None]
  = [Failure EIO].
Proof.
  split; rewrite notifications_of_writes by (simpl; lia); reflexivity.
Defined.

(** ** The synchronous call *)

Lemma run_writeFilesSync (requests : list (string * Buffer))
    (results : list (option Error)) (h : heap) :
  writeFilesSync requests results h
  = (match first_error (List.length requests) results with
     | Some err => Throw err
     | None => Return tt
     end, h).
Proof.
  revert results. induction requests as [| request requests IH];
    intros results; [done |].
  destruct results as [| [err |] results]; simpl.
  - rewrite IH. unfold first_error. by rewrite !take_nil.
  - done.
  - by rewrite IH.
Qed.

Lemma partitions_length (buffer : Buffer) (pieces : list Buffer) :
  partitions buffer pieces →
  (List.length pieces ≤ List.length buffer)%nat.
Proof.
  intros [<- Hne]. induction Hne as [| p pieces Hp _ IH]; [done |].
  simpl. rewrite length_app.
  assert (1 ≤ List.length p)%nat; [| lia].
  destruct p; [done | simpl; lia].
Qed.

Lemma getSuffixLength_small (size needed : Z) :
  0 ≤ size < 2 ^ 53 →
  getSuffixLength size alphabet_length = Some needed → 0 ≤ needed < 12.
Proof.
  intros Hsize Hrun.
  destruct (getSuffixLength_spec size alphabet_length)
    as (digits & Hrun' & Hpos & Hzero & Hspec); [done | lia |].
  rewrite Hrun in Hrun'. injection Hrun' as ->.
  split; [done |].
  destruct (Z.eq_dec size 0) as [-> | Hne]; [specialize (Hzero eq_refl); lia |].
  specialize (Hspec ltac:(lia)). rewrite alphabet_length_26 in Hspec.
  destruct (Z.lt_ge_cases digits 12) as [| Hge]; [done |].
  assert (26 ^ 12 ≤ 26 ^ digits) by (apply Z.pow_le_mono_r; lia).
  lia.
Qed.

Lemma alphabetic_suffix_returns (i : Z) : is_Some (alphabetic_suffix i).
Proof.
  unfold alphabetic_suffix.
  destruct (suffix_loop_enough (Z.to_nat i + 1) i []) as [r Hr]; [lia |].
  rewrite Hr by lia. by eexists.
Qed.

Lemma wp_replicate_in_range (n : Z) (length : number) (value : string)
    (Q : outcome (list string) → heap → Prop) h :
  length = Int n → 0 ≤ n < 2 ^ 32 →
  Q (Return (repeat value (Z.to_nat n))) h →
  wp (replicate length value) Q h.
Proof.
  intros -> Hn HQ. unfold wp, replicate.
  destruct (Z.leb_spec 0 n); [| lia]. by destruct (Z.ltb_spec n (2 ^ 32)); [| lia].
Qed.

Lemma suffix_length_only (r : loc) (h1 h2 : heap) (k : string) :
  fills_suffix_length r h1 h2 → k ≠ "suffix_length" →
  h2 !! r ≫= (.!! k) = h1 !! r ≫= (.!! k).
Proof.
  intros [-> | (_ & n & ->)] Hk; [done |].
  rewrite lookup_alter_eq. destruct (h1 !! r) as [o |]; [| done].
  simpl. by rewrite lookup_insert_ne.
Qed.

Section synchronous.
Context `{Coercions}.

(** Without the naming fields the names are made all the same, and
    nothing is thrown. *)
Lemma createFilenames_unnamed (size : Z) (options : loc) (h : heap)
    (o : gmap string prim) :
  h !! options = Some o → names_no_files o → 0 ≤ size < 2 ^ 53 →
  ∃ names, (createFilenames size options h).1 = Return names.
Proof.
  intros Hl Hnone Hsize.
  assert (defined (o !! "numeric_suffixes") = false) as Hdn
    by (rewrite (Hnone "numeric_suffixes"); [done |];
        unfold naming_keys; rewrite !elem_of_cons; auto).
  assert (defined (o !! "suffix_length") = false) as Hdl
    by (rewrite (Hnone "suffix_length"); [done |];
        unfold naming_keys; rewrite !elem_of_cons; auto).
  destruct (getSuffixLength_spec size alphabet_length)
    as (needed & Hneeded & _); [done | lia |].
  pose proof (getSuffixLength_small size needed Hsize Hneeded) as Hsmall.
  assert (is_Some (mapM alphabetic_suffix (seqZ 0 size))) as [suffixes Hrun].
  { apply mapM_is_Some, Forall_forall. intros i _.
    apply alphabetic_suffix_returns. }
  change (wp (createFilenames size options)
            (fun res _ => ∃ names, res = Return names) h).
  unfold createFilenames.
  repeat first
    [ lazymatch goal with
      | |- wp (replicate _ _) _ _ =>
          eapply (wp_replicate_in_range (Z.max needed 2));
          [reflexivity | lia |]
      | |- wp (terminates _) _ _ =>
          apply wp_terminates; first [rewrite Hneeded | rewrite Hrun]
      end
    | names_step ].
  by eexists.
Qed.

(** X21.  [splitSync] agrees with [split] on a buffer of fewer than
    [2^53] bytes: it throws the error that [split] hands to the
    callback before any write, it returns the pieces that [split] hands
    to the callback when no file is written, and with files to write it
    throws the error of the first write that fails and returns the pieces
    that [split] has issued the writes for when none does. *)
Theorem splitSync_agrees (buffer : Buffer) (l : loc) (h : heap)
    (o : gmap string prim) (s : scheduled) (results : list (option Error)) :
  h !! l = Some o → Buf.length buffer < 2 ^ 53 →
  (split buffer (Ref l) h).1 = Return s →
  (splitSync buffer (Ref l) results h).1
  = match s with
    | NextTick (Failure err) => Throw err
    | NextTick (Success pieces) => Return pieces
    | WriteFiles requests splitted =>
        match first_error (List.length requests) results with
        | Some err => Throw err
        | None => Return splitted
        end
    end.
Proof.
  intros Hl Hsize. unfold split, splitSync.
  rewrite !run_bind. unfold catch at 1. rewrite run_bind.
  pose proof (checkOptions_validated h l o Hl) as Hwp. unfold wp in Hwp.
  destruct (checkOptions (Ref l) h) as [[r | e |] h1]; simpl in *;
    [| by intros [= <-] | done].
  destruct (Hwp r eq_refl) as (record & Hr & (m & Hm & _) & Hnames).
  rewrite !run_bind.
  pose proof (_split_heap buffer r h1) as Hheap.
  pose proof (_split_returns_partitions buffer r h1) as Hparts.
  destruct (_split buffer r h1) as [[splitted | e |] h2]; simpl in *;
    [| by intros [= <-] | done].
  subst h2. specialize (Hparts h1 record m splitted Hr Hm eq_refl).
  apply partitions_length in Hparts.
  rewrite !run_bind, (run_isDefined _ _ _ _ Hr).
  pose proof (createFilenames_heap (Z.of_nat (List.length splitted)) r h1)
    as Hfills.
  pose proof (suffix_length_only r h1 _ "prefix" Hfills ltac:(done)) as Hkept.
  rewrite Hr in Hkept. simpl in Hkept.
  destruct (defined (o !! "prefix")).
  - destruct Hnames as ([p Hp] & _). rewrite Hp in *. simpl.
    rewrite run_bind. unfold catch.
    destruct (createFilenames _ r h1) as [[names | e |] h2]; simpl in *;
      [| by intros [= <-] | done].
    rewrite run_bind, run_writeFiles.
    destruct (forallb _ _); simpl; [| done].
    intros [= <-]. rewrite run_bind. unfold isDefined at 1. rewrite Hkept.
    simpl. rewrite run_bind, run_writeFilesSync.
    by destruct (first_error _ _).
  - rewrite (Hnames "prefix") in * by (unfold naming_keys; set_solver).
    simpl. intros [= <-].
    destruct (createFilenames_unnamed (Z.of_nat (List.length splitted)) r h1
                record Hr Hnames) as [names Hrun].
    { unfold Buf.length in Hsize. lia. }
    destruct (createFilenames _ r h1) as [res h2]. simpl in *. subst res.
    rewrite run_bind. unfold isDefined at 1. by rewrite Hkept.
Qed.
End synchronous.

Lemma splitSync_agrees_witness :
  (splitSync [Byte.x61; LF; Byte.x62] (Ref caller) [None; Some EIO]
     (options_heap [("lines", Number (Int 1)); ("prefix", Str "x")])).1
  = Throw EIO.
Proof.
  apply (splitSync_agrees [Byte.x61; LF; Byte.x62] caller
           (options_heap [("lines", Number (Int 1)); ("prefix", Str "x")])
           (list_to_map [("lines", Number (Int 1)); ("prefix", Str "x")])
           (WriteFiles [("xaa", [Byte.x61; LF]); ("xab", [Byte.x62])]
              [[Byte.x61; LF]; [Byte.x62]])
           [None; Some EIO]).
  - reflexivity.
  - unfold Buf.length. simpl. lia.
  - vm_compute. reflexivity.
Defined.

(** ** A size of zero *)

Section zero.
Context `{Coercions}.

(** X22.  A size string whose digits denote zero passes validation, and
    with it [split] and [splitSync] do not come back on a buffer that is
    not empty; the number 0 is rejected. *)
Theorem zero_size_string_hangs (buffer : Buffer) (l : loc) (h : heap)
    (o : gmap string prim) (key d U u : string) (m : Z)
    (results : list (option Error)) :
  h !! l = Some o →
  key = "bytes" ∨ key = "line_bytes" →
  sole_option key o →
  d ≠ EmptyString → all_digits d = true → decimal d = 0 →
  (U, m) ∈ size_units → u = U ∨ u = lower U →
  buffer ≠ [] →
  (o !! key = Some (Str (d +:+ u)) →
   (split buffer (Ref l) h).1 = Diverge ∧
   (splitSync buffer (Ref l) results h).1 = Diverge) ∧
  (o !! key = Some (Number (Int 0)) →
   (split buffer (Ref l) h).1
   = Return (NextTick (Failure (PlainError "Invalid number of bytes")))).
Proof.
  intros Hl Hkey Hsole Hne Hd Hzero Hin Hu Hbuffer. split.
  - intros Hsize.
    destruct (checkOptions_size_string h l o key d U u m Hl Hkey Hsize Hsole
                Hne Hd Hin Hu) as (r & h1 & Hcheck & Hr).
    { rewrite Hzero. unfold Num.MAX_SAFE_INTEGER. lia. }
    rewrite Hzero in Hr. change (0 * m) with 0 in Hr.
    assert (_split buffer r h1 = (Diverge, h1)) as Hsplit.
    { destruct Hkey as [-> | ->].
      - rewrite (run__split buffer r h1 _ (ByBytes 0) Hr
                   (selects_singleton (ByBytes 0))).
        unfold terminates. by rewrite splitByBytes_stuck.
      - rewrite (run__split buffer r h1 _ (ByLineBytes 0) Hr
                   (selects_singleton (ByLineBytes 0))).
        unfold terminates. by rewrite splitByLineBytes_stuck. }
    split.
    + unfold split. rewrite run_bind. unfold catch at 1.
      by rewrite run_bind, Hcheck, run_bind, Hsplit.
    + unfold splitSync. by rewrite run_bind, Hcheck, run_bind, Hsplit.
  - intros Hsize.
    pose proof (fresh_not_allocated h l o Hl) as Hfresh.
    assert (Hdef : defined (o !! key) = true) by (by rewrite Hsize).
    assert (∀ k, k ≠ key → defined (o !! k) = false) as Hother
      by exact Hsole.
    unfold split. rewrite run_bind. unfold catch at 1. rewrite run_bind.
    assert ((checkOptions (Ref l) h).1
            = Throw (PlainError "Invalid number of bytes")) as Hcheck.
    { change (wp (checkOptions (Ref l))
                (fun res _ =>
                   res = Throw (PlainError "Invalid number of bytes")) h).
      unfold checkOptions. apply wp_bind, wp_new_object.
      destruct Hkey as [-> | ->].
      - pose proof (Hother "lines" ltac:(done)) as Hlines.
        pose proof (Hother "line_bytes" ltac:(done)) as Hlb.
        by repeat wp_step.
      - pose proof (Hother "lines" ltac:(done)) as Hlines.
        pose proof (Hother "bytes" ltac:(done)) as Hbytes.
        by repeat wp_step. }
    destruct (checkOptions (Ref l) h) as [res h1]. simpl in Hcheck.
    by subst res.
Qed.
End zero.

Lemma zero_size_string_hangs_witness :
  (split [Byte.x61] (Ref caller) (options_heap [("bytes", Str "00mb")])).1
  = Diverge ∧
  (splitSync [Byte.x61] (Ref caller) []
     (options_heap [("bytes", Str "00mb")])).1
  = Diverge.
Proof.
  destruct (zero_size_string_hangs [Byte.x61] caller
              (options_heap [("bytes", Str "00mb")])
              (list_to_map [("bytes", Str "00mb")])
              "bytes" "00" "MB" "mb" 1000000 [])
    as [Hhangs _].
  - reflexivity.
  - by left.
  - intros k Hk. change (list_to_map [("bytes", Str "00mb")])
      with (<["bytes" := Str "00mb"]> (∅ : gmap string prim)).
    by rewrite lookup_insert_ne.
  - done.
  - reflexivity.
  - reflexivity.
  - unfold size_units. rewrite !elem_of_cons. auto.
  - by right.
  - done.
  - apply Hhangs. reflexivity.
Defined.
